(** * quant_analysis: tick store, pair statistics and alert engine

    A shallow embedding of [storage.py] (class [DataStore]), [analytics.py]
    (class [QuantAnalytics]) and [alerts.py] (class [AlertSystem]).

    Conventions.
    - A [pd.Timestamp] is its nanosecond count since the epoch, a [Z].
    - A float is an exact rational [Q]; NaN is [None] in an [option Q].
      Rounding is therefore abstracted: every statement below is about the
      arithmetic the code asks for, not about its binary64 rounding.
    - A [pd.DataFrame] is the list of its rows, in row order.
    - Python code that mutates [self], prints, or raises is written in the
      monad [M]: a state transformer whose result is either a value or a
      raised exception.  The state survives a raise, as it does in Python. *)

From Stdlib Require Import List ZArith QArith Qminmax Qabs Qfield Lia Lqa Bool String
  Ascii Permutation Sorted Setoid Morphisms.
Import ListNotations.

Set Implicit Arguments.

Close Scope Q_scope.
Open Scope nat_scope.
Open Scope list_scope.

(* ================================================================== *)
(** * Part I. Definitions *)
(* ================================================================== *)

(** ** Exceptions and state *)

Inductive Result (A : Type) : Type :=
| Ok (a : A)
| Raise (e : string).
Arguments Ok {A} a.
Arguments Raise {A} e.

Definition M (S A : Type) : Type := S -> Result A * S.

Definition ret {S A} (a : A) : M S A := fun s => (Ok a, s).

Definition bind {S A B} (c : M S A) (k : A -> M S B) : M S B :=
  fun s => match c s with
           | (Ok a, s') => k a s'
           | (Raise e, s') => (Raise e, s')
           end.

Definition raise {S A} (e : string) : M S A := fun s => (Raise e, s).

(** [try: body except Exception as e: handler e] *)
Definition try_except {S A} (body : M S A) (handler : string -> M S A) : M S A :=
  fun s => match body s with
           | (Ok a, s') => (Ok a, s')
           | (Raise e, s') => handler e s'
           end.

Definition get {S} : M S S := fun s => (Ok s, s).
Definition put {S} (s : S) : M S unit := fun _ => (Ok tt, s).
Definition modify {S} (f : S -> S) : M S unit := fun s => (Ok tt, f s).

(** The outcome of calling something outside the class (a predicate, the
    database driver, a library routine). *)
Definition call {S A} (r : Result A) : M S A := fun s => (r, s).

Declare Scope monad_scope.
Delimit Scope monad_scope with monad.
Notation "x <- c1 ;; c2" := (bind c1 (fun x => c2))
  (at level 61, c1 at next level, right associativity) : monad_scope.
Notation "c1 ;;; c2" := (bind c1 (fun _ => c2))
  (at level 61, right associativity) : monad_scope.
Open Scope monad_scope.

(** [for x in l: acc = body x acc] *)
Fixpoint foreach {S A B} (l : list A) (body : A -> B -> M S B) (acc : B) : M S B :=
  match l with
  | [] => ret acc
  | x :: r => acc' <- body x acc ;; foreach r body acc'
  end.

(** Python truthiness of an optional string argument: [None] and [""] are
    falsy. *)
Definition truthy (s : option string) : bool :=
  match s with
  | Some x => negb (String.eqb x EmptyString)
  | None => false
  end.

(** [a or b] on optional strings. *)
Definition py_or (a b : option string) : option string :=
  if truthy a then a else b.

Definition opt_string_eqb (a b : option string) : bool :=
  match a, b with
  | Some x, Some y => String.eqb x y
  | None, None => true
  | _, _ => false
  end.

(** [len(frame)], a Python integer. *)
Definition len {A} (l : list A) : Z := Z.of_nat (List.length l).

(** [DataFrame.tail(n)]: the last [n] rows. *)
Definition tail {A} (n : Z) (l : list A) : list A :=
  skipn (List.length l - Z.to_nat n) l.

(** [frame.empty] *)
Definition is_empty {A} (l : list A) : bool :=
  match l with [] => true | _ => false end.

(* ------------------------------------------------------------------ *)
(** ** alerts.py *)

Module Alerts.

Record TriggeredAlert : Type := {
  ta_name : string;
  ta_symbol : option string;
  ta_timestamp : Z
}.

Section AlertSystem.

(** The frame handed to the predicates; the engine never looks inside. *)
Variable Data : Type.

(** An alert dictionary.  [condition_func] is any Python callable: it
    returns a truth value or raises an [Exception]. *)
Record Alert : Type := {
  name : string;
  condition_func : Data -> Result bool;
  symbol : option string;
  active : bool
}.

Definition set_active (a : Alert) (v : bool) : Alert :=
  {| name := name a; condition_func := condition_func a;
     symbol := symbol a; active := v |}.

(** [self] together with what the methods touch outside it: standard output
    and the wall clock ([clock k] is what the [k]-th call of
    [pd.Timestamp.now()] returns). *)
Record AlertSystem : Type := {
  alerts : list Alert;
  alert_history : list TriggeredAlert;
  stdout : list string;
  clock : nat -> Z;
  clock_reads : nat
}.

Definition init (clk : nat -> Z) : AlertSystem :=
  {| alerts := []; alert_history := []; stdout := [];
     clock := clk; clock_reads := 0 |}.

Definition set_alerts (l : list Alert) (s : AlertSystem) : AlertSystem :=
  {| alerts := l; alert_history := alert_history s; stdout := stdout s;
     clock := clock s; clock_reads := clock_reads s |}.

Definition print (line : string) : M AlertSystem unit :=
  modify (fun s =>
    {| alerts := alerts s; alert_history := alert_history s;
       stdout := stdout s ++ [line];
       clock := clock s; clock_reads := clock_reads s |}).

Definition Timestamp_now : M AlertSystem Z :=
  fun s => (Ok (clock s (clock_reads s)),
            {| alerts := alerts s; alert_history := alert_history s;
               stdout := stdout s;
               clock := clock s; clock_reads := S (clock_reads s) |}).

Definition history_append (t : TriggeredAlert) : M AlertSystem unit :=
  modify (fun s =>
    {| alerts := alerts s; alert_history := alert_history s ++ [t];
       stdout := stdout s;
       clock := clock s; clock_reads := clock_reads s |}).

Definition add_alert (nm : string) (f : Data -> Result bool)
    (sym : option string) : M AlertSystem unit :=
  let alert := {| name := nm; condition_func := f; symbol := sym; active := true |} in
  modify (fun s => set_alerts (alerts s ++ [alert]) s).

Definition remove_alert (nm : string) : M AlertSystem unit :=
  modify (fun s =>
    set_alerts (filter (fun alert => negb (String.eqb (name alert) nm)) (alerts s)) s).

(** The symbol filter of [check_alerts]: [True] when the alert is skipped. *)
Definition symbol_mismatch (alert : Alert) (sym : option string) : bool :=
  truthy (symbol alert) && truthy sym && negb (opt_string_eqb (symbol alert) sym).

Definition check_alert (data : Data) (sym : option string) (alert : Alert)
    (triggered_alerts : list TriggeredAlert) : M AlertSystem (list TriggeredAlert) :=
  if negb (active alert) then ret triggered_alerts
  else if symbol_mismatch alert sym then ret triggered_alerts
  else
    try_except
      (fired <- call (condition_func alert data) ;;
       if (fired : bool) then
         now <- Timestamp_now ;;
         let triggered_alert :=
           {| ta_name := name alert;
              ta_symbol := py_or sym (symbol alert);
              ta_timestamp := now |} in
         history_append triggered_alert ;;;
         ret (triggered_alerts ++ [triggered_alert])
       else ret triggered_alerts)
      (fun e =>
         print ("Error checking alert " ++ name alert ++ ": " ++ e)%string ;;;
         ret triggered_alerts).

Definition check_alerts (data : Data) (sym : option string)
    : M AlertSystem (list TriggeredAlert) :=
  self <- get ;;
  foreach (alerts self) (check_alert data sym) [].

Definition get_alert_history : M AlertSystem (list TriggeredAlert) :=
  self <- get ;; ret (alert_history self).

(** The loop of [activate_alert] and [deactivate_alert]: assign the flag of
    the first alert of that name, then [break]. *)
Fixpoint assign_first (nm : string) (v : bool) (l : list Alert) : list Alert :=
  match l with
  | [] => []
  | alert :: rest =>
      if String.eqb (name alert) nm then set_active alert v :: rest
      else alert :: assign_first nm v rest
  end.

Definition activate_alert (nm : string) : M AlertSystem unit :=
  modify (fun s => set_alerts (assign_first nm true (alerts s)) s).

Definition deactivate_alert (nm : string) : M AlertSystem unit :=
  modify (fun s => set_alerts (assign_first nm false (alerts s)) s).

Definition get_active_alerts : M AlertSystem (list Alert) :=
  self <- get ;; ret (filter active (alerts self)).

(** The alerts whose name is not [nm], in registry order. *)
Definition other_names (nm : string) (l : list Alert) : list Alert :=
  filter (fun x => negb (String.eqb (name x) nm)) l.

(** What [check_alerts] is expected to report for one alert. *)
Definition fires (data : Data) (sym : option string) (alert : Alert) : bool :=
  active alert && negb (symbol_mismatch alert sym) &&
  match condition_func alert data with
  | Ok true => true
  | _ => false
  end.

(** The triggers one pass over [l] is expected to return when the clock has
    been read [k] times before: one entry per firing alert, in registry
    order, each stamped by its own clock reading. *)
Fixpoint expected_triggers (data : Data) (sym : option string) (clk : nat -> Z)
    (k : nat) (l : list Alert) : list TriggeredAlert :=
  match l with
  | [] => []
  | alert :: rest =>
      if fires data sym alert then
        {| ta_name := name alert; ta_symbol := py_or sym (symbol alert);
           ta_timestamp := clk k |} :: expected_triggers data sym clk (S k) rest
      else expected_triggers data sym clk k rest
  end.

(** The lines one pass over [l] is expected to print. *)
Fixpoint expected_log (data : Data) (sym : option string) (l : list Alert)
    : list string :=
  match l with
  | [] => []
  | alert :: rest =>
      (if active alert && negb (symbol_mismatch alert sym) then
         match condition_func alert data with
         | Raise e => [("Error checking alert " ++ name alert ++ ": " ++ e)%string]
         | Ok _ => []
         end
       else []) ++ expected_log data sym rest
  end.

End AlertSystem.

(** *** A registry used in the examples *)

(** Two alerts named "X" that fire, around one whose predicate raises. *)
Definition first_X : Alert unit :=
  {| name := "X"; condition_func := fun _ => Ok true; symbol := None; active := true |}.

Definition broken : Alert unit :=
  {| name := "broken"; condition_func := fun _ => Raise "KeyError: 'zscore'";
     symbol := None; active := true |}.

Definition second_X : Alert unit :=
  {| name := "X"; condition_func := fun _ => Ok true;
     symbol := Some "BTCUSDT"%string; active := true |}.

Definition three_alerts : AlertSystem unit :=
  {| alerts := [first_X; broken; second_X]; alert_history := []; stdout := [];
     clock := Z.of_nat; clock_reads := 0 |}.

(** *** Sequences of calls *)

Section Calls.

Variable Data : Type.

(** One method call on the alert system. *)
Inductive Call : Type :=
| call_add_alert (nm : string) (f : Data -> Result bool) (sym : option string)
| call_remove_alert (nm : string)
| call_check_alerts (data : Data) (sym : option string)
| call_activate_alert (nm : string)
| call_deactivate_alert (nm : string).

Definition after (c : Call) (s : AlertSystem Data) : AlertSystem Data :=
  match c with
  | call_add_alert nm f sym => snd (add_alert nm f sym s)
  | call_remove_alert nm => snd (remove_alert nm s)
  | call_check_alerts data sym => snd (check_alerts data sym s)
  | call_activate_alert nm => snd (activate_alert nm s)
  | call_deactivate_alert nm => snd (deactivate_alert nm s)
  end.

Definition after_all (cs : list Call) (s : AlertSystem Data) : AlertSystem Data :=
  fold_left (fun s c => after c s) cs s.

End Calls.

(** *** The default alert of app.py *)

(** The frame the application hands to [check_alerts]: its [zscore] column,
    or [None] when the frame has no such column. *)
Definition ZFrame : Type := option (list (option Q)).

(** [zscore_alert] of [_setup_default_alerts]: false on an empty frame or a
    frame without the column, otherwise whether the last z-score exceeds 2
    in absolute value (a comparison with NaN is false). *)
Definition zscore_alert (data : ZFrame) : Result bool :=
  match data with
  | None => Ok false
  | Some [] => Ok false
  | Some (z0 :: rest) =>
      match List.last rest z0 with
      | Some latest_zscore => Ok (negb (Qle_bool (Qabs latest_zscore) 2))
      | None => Ok false
      end
  end.

(** [_setup_default_alerts]: add the alert only if no alert is active. *)
Definition setup_default_alerts : M (AlertSystem ZFrame) unit :=
  active_alerts <- get_active_alerts (Data:=ZFrame) ;;
  if is_empty active_alerts
  then add_alert "Z-Score Alert (>2)" zscore_alert None
  else ret tt.

End Alerts.

(* ------------------------------------------------------------------ *)
(** ** storage.py *)

Module Storage.

(** A tick dictionary, one row of [tick_data]. *)
Record Tick : Type := {
  timestamp : Z;
  symbol : string;
  price : Q;
  quantity : Q
}.

(** One row of a resampled frame.  The four price columns are NaN ([None])
    in a bucket without ticks. *)
Record Bar : Type := {
  bar_timestamp : Z;
  bar_symbol : string;
  open : option Q;
  high : option Q;
  low : option Q;
  close : option Q;
  volume : Q
}.

(** The keys of [resampled_data], [last_resample] and [resample_rules]. *)
Inductive Timeframe : Type := tf_1s | tf_1min | tf_5min.

Definition Timeframe_eqb (a b : Timeframe) : bool :=
  match a, b with
  | tf_1s, tf_1s | tf_1min, tf_1min | tf_5min, tf_5min => true
  | _, _ => false
  end.

Definition timeframe_key (tf : Timeframe) : string :=
  match tf with
  | tf_1s => "1s"
  | tf_1min => "1min"
  | tf_5min => "5min"
  end.

(** The offset alias of [resample_rules], as a bucket width in nanoseconds. *)
Definition rule (tf : Timeframe) : Z :=
  match tf with
  | tf_1s => 1000000000
  | tf_1min => 60000000000
  | tf_5min => 300000000000
  end.

(** A dictionary with exactly the three timeframe keys. *)
Record PerTimeframe (A : Type) : Type := {
  at_1s : A;
  at_1min : A;
  at_5min : A
}.

Definition lookup {A} (d : PerTimeframe A) (tf : Timeframe) : A :=
  match tf with
  | tf_1s => at_1s d
  | tf_1min => at_1min d
  | tf_5min => at_5min d
  end.

Definition assign {A} (d : PerTimeframe A) (tf : Timeframe) (v : A) : PerTimeframe A :=
  match tf with
  | tf_1s => {| at_1s := v; at_1min := at_1min d; at_5min := at_5min d |}
  | tf_1min => {| at_1s := at_1s d; at_1min := v; at_5min := at_5min d |}
  | tf_5min => {| at_1s := at_1s d; at_1min := at_1min d; at_5min := v |}
  end.

(** The durable sink.  [written] is what the tables hold (append only);
    [faults] says which of the coming writes fail: the head is consumed by
    each [to_sql], a [true] makes it raise. *)
Inductive Row : Type :=
| TickRow (t : Tick)
| BarRow (b : Bar).

Record Connection : Type := {
  written : list (string * Row);
  faults : list bool
}.

(** [self], and standard output. *)
Record DataStore : Type := {
  tick_data : list Tick;
  resampled_data : PerTimeframe (list Bar);
  conn : option Connection;
  last_resample : PerTimeframe Z;
  stdout : list string
}.

(** [DataStore(db_path)] at wall-clock time [now]; [c] is the connection
    opened for [db_path], if one was given. *)
Definition init (c : option Connection) (now : Z) : DataStore :=
  {| tick_data := [];
     resampled_data := {| at_1s := []; at_1min := []; at_5min := [] |};
     conn := c;
     last_resample := {| at_1s := now; at_1min := now; at_5min := now |};
     stdout := [] |}.

Definition set_tick_data (l : list Tick) (self : DataStore) : DataStore :=
  {| tick_data := l; resampled_data := resampled_data self; conn := conn self;
     last_resample := last_resample self; stdout := stdout self |}.

Definition set_resampled (tf : Timeframe) (l : list Bar) (self : DataStore) : DataStore :=
  {| tick_data := tick_data self;
     resampled_data := assign (resampled_data self) tf l; conn := conn self;
     last_resample := last_resample self; stdout := stdout self |}.

Definition set_conn (c : option Connection) (self : DataStore) : DataStore :=
  {| tick_data := tick_data self; resampled_data := resampled_data self; conn := c;
     last_resample := last_resample self; stdout := stdout self |}.

Definition set_last_resample (d : PerTimeframe Z) (self : DataStore) : DataStore :=
  {| tick_data := tick_data self; resampled_data := resampled_data self;
     conn := conn self; last_resample := d; stdout := stdout self |}.

Definition print (line : string) : M DataStore unit :=
  modify (fun self =>
    {| tick_data := tick_data self; resampled_data := resampled_data self;
       conn := conn self; last_resample := last_resample self;
       stdout := stdout self ++ [line] |}).

(** [frame.to_sql(table, self.conn, if_exists='append', index=False)] *)
Definition to_sql (table : string) (rows : list Row) : M DataStore unit :=
  self <- get ;;
  match conn self with
  | None => raise "AttributeError"
  | Some c =>
      match faults c with
      | true :: rest =>
          put (set_conn (Some {| written := written c; faults := rest |}) self) ;;;
          raise "OperationalError"
      | _ =>
          put (set_conn
                 (Some {| written := written c ++ map (fun r => (table, r)) rows;
                          faults := List.tl (faults c) |}) self)
      end
  end.

Definition add_tick (tick : Tick) : M DataStore unit :=
  (* Add to in-memory DataFrame *)
  modify (fun self => set_tick_data (tick_data self ++ [tick]) self) ;;;
  (* Keep only recent data to prevent memory issues *)
  self <- get ;;
  (if (10000 <? len (tick_data self))%Z
   then put (set_tick_data (tail 5000 (tick_data self)) self)
   else ret tt) ;;;
  (* Optionally save to database *)
  self <- get ;;
  match conn self with
  | Some _ => to_sql "ticks" [TickRow tick]
  | None => ret tt
  end.

(** [data[data['symbol'] == symbol]] *)
Definition select_symbol (sym : string) (ticks : list Tick) : list Tick :=
  filter (fun t => String.eqb (symbol t) sym) ticks.


(** *** Grouping and resampling *)

(** The group keys of [groupby('symbol')]: the distinct symbols, sorted. *)
Fixpoint insert_key (k : string) (keys : list string) : list string :=
  match keys with
  | [] => [k]
  | x :: rest =>
      match String.compare k x with
      | Lt => k :: keys
      | Eq => keys
      | Gt => x :: insert_key k rest
      end
  end.

Definition group_keys (ticks : list Tick) : list string :=
  fold_right (fun t keys => insert_key (symbol t) keys) [] ticks.

(** [resample] first sorts the rows of a group by their timestamp index; the
    sort is stable, so rows of equal timestamp keep their order. *)
Fixpoint insert_tick (t : Tick) (sorted : list Tick) : list Tick :=
  match sorted with
  | [] => [t]
  | x :: rest =>
      if (timestamp t <=? timestamp x)%Z then t :: sorted
      else x :: insert_tick t rest
  end.

Definition sort_by_timestamp (ticks : list Tick) : list Tick :=
  fold_right insert_tick [] ticks.

(** The left edge of the bucket of width [width] that holds [ts]. *)
Definition bucket (width ts : Z) : Z := (ts / width * width)%Z.

(** The bucket labels of one sorted group: every bucket from the one of the
    first row to the one of the last row, empty ones included. *)
Definition bins (width : Z) (sorted : list Tick) : list Z :=
  match sorted with
  | [] => []
  | first :: rest =>
      let lo := bucket width (timestamp first) in
      let hi := bucket width (timestamp (List.last rest first)) in
      map (fun i => (lo + Z.of_nat i * width)%Z)
          (seq 0 (S (Z.to_nat ((hi - lo) / width))))
  end.

(** [ticks.groupby('symbol')[column].resample(rule).agg(how)]: one row per
    symbol and bucket, indexed by (symbol, timestamp). *)
Definition groupby_resample {V} (how : list Tick -> V) (width : Z)
    (ticks : list Tick) : list ((string * Z) * V) :=
  flat_map
    (fun sym =>
       let sorted := sort_by_timestamp (select_symbol sym ticks) in
       map (fun label =>
              ((sym, label),
               how (filter (fun t => (bucket width (timestamp t) =? label)%Z) sorted)))
           (bins width sorted))
    (group_keys ticks).

Definition agg_first (values : list Q) : option Q := hd_error values.

Definition agg_last (values : list Q) : option Q :=
  match values with
  | [] => None
  | x :: rest => Some (List.last rest x)
  end.

Definition agg_max (values : list Q) : option Q :=
  match values with
  | [] => None
  | x :: rest => Some (fold_left Qmax rest x)
  end.

Definition agg_min (values : list Q) : option Q :=
  match values with
  | [] => None
  | x :: rest => Some (fold_left Qmin rest x)
  end.

Definition agg_sum (values : list Q) : Q := fold_left Qplus values 0%Q.

Record OHLC : Type := {
  ohlc_open : option Q;
  ohlc_high : option Q;
  ohlc_low : option Q;
  ohlc_close : option Q
}.

(** [{'open': 'first', 'high': 'max', 'low': 'min', 'close': 'last'}] on the
    price column. *)
Definition agg_ohlc (rows : list Tick) : OHLC :=
  let prices := map price rows in
  {| ohlc_open := agg_first prices; ohlc_high := agg_max prices;
     ohlc_low := agg_min prices; ohlc_close := agg_last prices |}.

Definition agg_volume (rows : list Tick) : Q := agg_sum (map quantity rows).

Definition key_eqb (a b : string * Z) : bool :=
  String.eqb (fst a) (fst b) && (snd a =? snd b)%Z.

(** [pd.merge(price_df, volume_df, on=['timestamp', 'symbol'])] followed by
    the rename of [quantity] to [volume]: an inner join in the order of the
    left frame. *)
Definition merge (price_df : list ((string * Z) * OHLC))
    (volume_df : list ((string * Z) * Q)) : list Bar :=
  flat_map
    (fun p =>
       map (fun v =>
              {| bar_timestamp := snd (fst p); bar_symbol := fst (fst p);
                 open := ohlc_open (snd p); high := ohlc_high (snd p);
                 low := ohlc_low (snd p); close := ohlc_close (snd p);
                 volume := snd v |})
           (filter (fun v => key_eqb (fst p) (fst v)) volume_df))
    price_df.

(** The frame [resampled_df] of one timeframe. *)
Definition resampled_df (width : Z) (ticks : list Tick) : list Bar :=
  merge (groupby_resample agg_ohlc width ticks)
        (groupby_resample agg_volume width ticks).

Definition bar_key (b : Bar) : string * Z := (bar_symbol b, bar_timestamp b).

(** [drop_duplicates(subset=['timestamp', 'symbol'], keep='last')]: a row
    stays when no later row has its key. *)
Fixpoint drop_duplicates (rows : list Bar) : list Bar :=
  match rows with
  | [] => []
  | b :: rest =>
      if existsb (fun b' => key_eqb (bar_key b) (bar_key b')) rest
      then drop_duplicates rest
      else b :: drop_duplicates rest
  end.


(** The update of the stored series of one timeframe by a fresh frame. *)
Definition merged (stored fresh : list Bar) : list Bar :=
  if is_empty stored then fresh else drop_duplicates (stored ++ fresh).

(** Keep only recent data. *)
Definition trimmed (rows : list Bar) : list Bar :=
  if (2000 <? len rows)%Z then tail 1000 rows else rows.

(** The body of the [try] for one timeframe. *)
Definition resample_timeframe (ticks : list Tick) (tf : Timeframe) : M DataStore unit :=
  if negb (is_empty ticks) then
    let price_resampled := groupby_resample agg_ohlc (rule tf) ticks in
    let volume_resampled := groupby_resample agg_volume (rule tf) ticks in
    if negb (is_empty price_resampled) && negb (is_empty volume_resampled) then
      let fresh := merge price_resampled volume_resampled in
      (* Update stored resampled data *)
      modify (fun self =>
        set_resampled tf (merged (lookup (resampled_data self) tf) fresh) self) ;;;
      (* Keep only recent data *)
      modify (fun self =>
        set_resampled tf (trimmed (lookup (resampled_data self) tf)) self) ;;;
      (* Save to database if enabled *)
      self <- get ;;
      match conn self with
      | Some _ => to_sql ("resampled_" ++ timeframe_key tf) (map BarRow fresh)
      | None => ret tt
      end
    else ret tt
  else ret tt.

(** [self.tick_data[self.tick_data['symbol'] == symbol].copy()] when [symbol]
    is truthy, [self.tick_data.copy()] otherwise. *)
Definition selected (sym : option string) (ticks : list Tick) : list Tick :=
  match sym with
  | Some x => if truthy sym then select_symbol x ticks else ticks
  | None => ticks
  end.

Definition resample_data (current_time : Z) (sym : option string) : M DataStore unit :=
  self <- get ;;
  (* Work with a copy of tick data *)
  let ticks := selected sym (tick_data self) in
  if is_empty ticks then ret tt
  else
    foreach [tf_1s; tf_1min; tf_5min]
      (fun tf (_ : unit) =>
         try_except (resample_timeframe ticks tf)
           (fun e => print ("Error resampling " ++ timeframe_key tf ++ ": " ++ e)))
      tt ;;;
    (* Update last resample timestamps *)
    modify (set_last_resample
              {| at_1s := current_time; at_1min := current_time;
                 at_5min := current_time |}).

(** The ticks of the buffer that fall in the bucket of a bar, in the order
    they were ingested. *)
Definition bucket_ticks (width : Z) (b : Bar) (ticks : list Tick) : list Tick :=
  filter (fun t => String.eqb (symbol t) (bar_symbol b) &&
                   (bucket width (timestamp t) =? bar_timestamp b)%Z) ticks.

(** One method call on a store. *)
Inductive Operation : Type :=
| op_add_tick (tick : Tick)
| op_resample_data (current_time : Z) (sym : option string).

Definition run (op : Operation) (self : DataStore) : DataStore :=
  match op with
  | op_add_tick tick => snd (add_tick tick self)
  | op_resample_data now sym => snd (resample_data now sym self)
  end.

(** The states a store goes through: a fresh store, then the state left by
    each call, whether it returned or raised. *)
Inductive reachable : DataStore -> Prop :=
| reachable_init c now : reachable (init c now)
| reachable_step op self : reachable self -> reachable (run op self).

(** The rows of one symbol and one bucket, as [resample] sees them: in
    timestamp order. *)
Definition members (width : Z) (key : string * Z) (ticks : list Tick) : list Tick :=
  filter (fun t => (bucket width (timestamp t) =? snd key)%Z)
         (sort_by_timestamp (select_symbol (fst key) ticks)).

(** The index of a grouped and resampled frame. *)
Definition group_index (width : Z) (ticks : list Tick) : list (string * Z) :=
  flat_map
    (fun sym => map (pair sym) (bins width (sort_by_timestamp (select_symbol sym ticks))))
    (group_keys ticks).

(** The order in which [resample] sorts the rows of a group. *)
Definition ts_le (a b : Tick) : Prop := (timestamp a <= timestamp b)%Z.

(** The strict order in which [groupby] sorts its keys. *)
Definition key_lt (a b : string) : Prop := String.compare a b = Lt.

(** Whether some row carries the key [k]. *)
Definition key_in (k : string * Z) (rows : list Bar) : bool :=
  existsb (fun b' => key_eqb k (bar_key b')) rows.

(** The stored rows that the fresh frame does not replace. *)
Definition kept (fresh rows : list Bar) : list Bar :=
  filter (fun b => negb (key_in (bar_key b) fresh)) rows.

(** What one pass of the loop of [resample_data] leaves in the stored series
    of a timeframe, as a function of what was stored before. *)
Definition updated_series (ticks : list Tick) (tf : Timeframe) (stored : list Bar)
    : list Bar :=
  let price_resampled := groupby_resample agg_ohlc (rule tf) ticks in
  let volume_resampled := groupby_resample agg_volume (rule tf) ticks in
  if negb (is_empty ticks) &&
     (negb (is_empty price_resampled) && negb (is_empty volume_resampled))
  then trimmed (merged stored (merge price_resampled volume_resampled))
  else stored.

(** *** What a bar is expected to say about the ticks of its bucket *)

(** [t] is the first tick of [ticks] in time; among ticks of equal
    timestamp, the one ingested first. *)
Definition chronologically_first (t : Tick) (ticks : list Tick) : Prop :=
  exists before after,
    ticks = before ++ t :: after /\
    (forall x, In x before -> (timestamp t < timestamp x)%Z) /\
    (forall x, In x after -> (timestamp t <= timestamp x)%Z).

(** [t] is the last tick of [ticks] in time; among ticks of equal timestamp,
    the one ingested last. *)
Definition chronologically_last (t : Tick) (ticks : list Tick) : Prop :=
  exists before after,
    ticks = before ++ t :: after /\
    (forall x, In x before -> (timestamp x <= timestamp t)%Z) /\
    (forall x, In x after -> (timestamp x < timestamp t)%Z).

Definition is_maximum (m : Q) (values : list Q) : Prop :=
  In m values /\ forall x, In x values -> (x <= m)%Q.

Definition is_minimum (m : Q) (values : list Q) : Prop :=
  In m values /\ forall x, In x values -> (m <= x)%Q.

(** A bar against the ticks of its bucket, taken in ingestion order. *)
Definition bar_matches (b : Bar) (ticks : list Tick) : Prop :=
  (volume b == agg_sum (map quantity ticks))%Q /\
  match ticks with
  | [] => open b = None /\ high b = None /\ low b = None /\ close b = None
  | _ :: _ =>
      exists first last hi lo,
        chronologically_first first ticks /\ open b = Some (price first) /\
        chronologically_last last ticks /\ close b = Some (price last) /\
        is_maximum hi (map price ticks) /\ high b = Some hi /\
        is_minimum lo (map price ticks) /\ low b = Some lo
  end.

(** The ticks a bar of width [width] stands for: those of its symbol whose
    timestamp lies in the interval from the timestamp of the bar (included)
    to [width] later (excluded). *)
Definition covered_by (width : Z) (b : Bar) (t : Tick) : bool :=
  String.eqb (symbol t) (bar_symbol b) &&
  ((bar_timestamp b <=? timestamp t)%Z && (timestamp t <? bar_timestamp b + width)%Z).

(** Those ticks in a buffer, in the order they were ingested. *)
Definition ticks_of_bar (width : Z) (b : Bar) (ticks : list Tick) : list Tick :=
  filter (covered_by width b) ticks.

(** The bar summarises the ticks: open is the price of the first tick in
    time, close the price of the last, high and low the largest and the
    smallest price, volume the sum of the quantities. *)
Definition summarises (b : Bar) (ticks : list Tick) : Prop :=
  exists first last hi lo,
    chronologically_first first ticks /\ open b = Some (price first) /\
    chronologically_last last ticks /\ close b = Some (price last) /\
    is_maximum hi (map price ticks) /\ high b = Some hi /\
    is_minimum lo (map price ticks) /\ low b = Some lo /\
    (volume b == agg_sum (map quantity ticks))%Q.

(** *** Stores used in the examples *)

Definition tick (ts : Z) (sym : string) (p q : Q) : Tick :=
  {| timestamp := ts; symbol := sym; price := p; quantity := q |}.

(** The three BTCUSDT ticks at 0 s, 0.5 s and 0.9 s, ingested in that order
    into a fresh store without a database. *)
Definition three_ticks : DataStore :=
  run (op_add_tick (tick 900000000 "BTCUSDT" 99 1))
    (run (op_add_tick (tick 500000000 "BTCUSDT" 101 2))
       (run (op_add_tick (tick 0 "BTCUSDT" 100 1)) (init None 0))).

(** Two BTCUSDT ticks 3 s apart, in a fresh store without a database. *)
Definition gap_ticks : DataStore :=
  run (op_add_tick (tick 3000000000 "BTCUSDT" 101 1))
    (run (op_add_tick (tick 0 "BTCUSDT" 100 1)) (init None 0)).

(** Two ticks of "A" 999 s apart and two ticks of "B" 1000 s apart, then
    [resample_data("A")]: the 1 s series holds the 1000 bars of "A". *)
Definition two_symbols : DataStore :=
  run (op_resample_data 0 (Some "A"%string))
    (run (op_add_tick (tick 1000000000000 "B" 1 1))
       (run (op_add_tick (tick 0 "B" 1 1))
          (run (op_add_tick (tick 999000000000 "A" 1 1))
             (run (op_add_tick (tick 0 "A" 1 1)) (init None 0))))).

(** A store whose database refuses the next write. *)
Definition failing_sink : DataStore :=
  init (Some {| written := []; faults := [true] |}) 0.

(** The three ticks in memory, and a database that refuses the next write. *)
Definition three_ticks_failing_sink : DataStore :=
  set_conn (Some {| written := []; faults := [true] |}) three_ticks.

(** *** Queries *)

(** [DataFrame.tail(n)] for any integer: a negative [n] drops the first
    [-n] rows instead. *)
Definition tail_rows {A} (n : Z) (l : list A) : list A :=
  if (n <? 0)%Z then skipn (Z.to_nat (- n)) l else tail n l.

Definition get_latest_ticks (sym : option string) (limit : Z)
    : M DataStore (list Tick) :=
  self <- get ;;
  let data := selected sym (tick_data self) in
  ret (tail_rows limit data).

(** [timeframe in self.resampled_data], with the key found. *)
Definition timeframe_of_key (key : string) : option Timeframe :=
  if String.eqb key "1s" then Some tf_1s
  else if String.eqb key "1min" then Some tf_1min
  else if String.eqb key "5min" then Some tf_5min
  else None.

(** [data[data['symbol'] == symbol]] on bars. *)
Definition select_bars (sym : string) (bars : list Bar) : list Bar :=
  filter (fun b => String.eqb (bar_symbol b) sym) bars.

Definition bar_ts_le (a b : Bar) : Prop := (bar_timestamp a <= bar_timestamp b)%Z.
Definition bar_ts_lt (a b : Bar) : Prop := (bar_timestamp a < bar_timestamp b)%Z.

Section Queries.

(** [data.sort_values('timestamp')].  pandas sorts with quicksort, which
    does not say in which order rows of equal timestamp come out, so the
    sort is a parameter; what is known of it is stated where it is used. *)
Variable sort_values : list Bar -> list Bar.

(** The part of [get_resampled_data] that runs under the lock. *)
Definition resampled_snapshot (tf : Timeframe) (sym : option string)
    : M DataStore (list Bar) :=
  self <- get ;;
  let data := lookup (resampled_data self) tf in
  let data := match sym with
              | Some x => if truthy sym && negb (is_empty data)
                          then select_bars x data else data
              | None => data
              end in
  (* Return empty DataFrame with correct columns if no data *)
  if is_empty data then ret []
  else ret (sort_values data).

Definition get_resampled_data (timeframe : string) (sym : option string)
    : M DataStore (list Bar) :=
  match timeframe_of_key timeframe with
  | None =>
      raise ("Invalid timeframe: " ++ timeframe ++ ". Use '1s', '1min', or '5min'")
  | Some tf => resampled_snapshot tf sym
  end.

End Queries.

(** A sort by timestamp, used in the examples. *)
Fixpoint insert_bar (b : Bar) (sorted : list Bar) : list Bar :=
  match sorted with
  | [] => [b]
  | x :: rest =>
      if (bar_timestamp b <=? bar_timestamp x)%Z then b :: sorted
      else x :: insert_bar b rest
  end.

Definition sort_bars (bars : list Bar) : list Bar := fold_right insert_bar [] bars.

(** *** The lock *)

(** [self.lock] is a [threading.Lock]: it is not reentrant, so a thread that
    takes it while holding it waits for ever.  A call therefore ends with a
    value, with an exception, or not at all. *)
Inductive Outcome (A : Type) : Type :=
| Done (r : Result A)
| Blocked.
Arguments Done {A} r.
Arguments Blocked {A}.

(** The store of one thread, its lock, and the files written by
    [to_csv]; [io_faults] says which of the coming file writes fail. *)
Record Process : Type := {
  lock_held : bool;
  store : DataStore;
  files : list (string * list Row);
  io_faults : list bool
}.

Definition L (A : Type) : Type := Process -> Outcome A * Process.

Definition set_lock (h : bool) (p : Process) : Process :=
  {| lock_held := h; store := store p; files := files p; io_faults := io_faults p |}.

Definition set_store (s : DataStore) (p : Process) : Process :=
  {| lock_held := lock_held p; store := s; files := files p; io_faults := io_faults p |}.

Definition lbind {A B} (c : L A) (k : A -> L B) : L B :=
  fun p => match c p with
           | (Done (Ok a), p') => k a p'
           | (Done (Raise e), p') => (Done (Raise e), p')
           | (Blocked, p') => (Blocked, p')
           end.

(** A method body that does not touch the lock. *)
Definition lift {A} (m : M DataStore A) : L A :=
  fun p => let (r, s) := m (store p) in (Done r, set_store s p).

(** [with self.lock: body]: wait for the lock, run the body, release the
    lock on the way out, also when the body raises. *)
Definition with_lock {A} (body : L A) : L A :=
  fun p =>
    if lock_held p then (Blocked, p)
    else match body (set_lock true p) with
         | (Done r, p') => (Done r, set_lock false p')
         | (Blocked, p') => (Blocked, p')
         end.

(** [data.to_csv(filepath, index=False)] *)
Definition to_csv (filepath : string) (rows : list Row) : L unit :=
  fun p =>
    match io_faults p with
    | true :: rest =>
        (Done (Raise "OSError"),
         {| lock_held := lock_held p; store := store p; files := files p;
            io_faults := rest |})
    | _ =>
        (Done (Ok tt),
         {| lock_held := lock_held p; store := store p;
            files := (filepath, rows) :: files p;
            io_faults := List.tl (io_faults p) |})
    end.

Section CsvExport.

Variable sort_values : list Bar -> list Bar.

(** [get_resampled_data] with its lock: the key is checked before the lock
    is taken. *)
Definition get_resampled_data_locked (timeframe : string) (sym : option string)
    : L (list Bar) :=
  match timeframe_of_key timeframe with
  | None =>
      lift (raise ("Invalid timeframe: " ++ timeframe ++ ". Use '1s', '1min', or '5min'"))
  | Some tf => with_lock (lift (resampled_snapshot sort_values tf sym))
  end.

Definition save_to_csv (filepath : string) (timeframe : option string) : L unit :=
  with_lock
    (lbind
       (match timeframe with
        | Some key =>
            if truthy timeframe
            then lbind (get_resampled_data_locked key None)
                       (fun bars => fun p => (Done (Ok (map BarRow bars)), p))
            else lift (self <- get ;; ret (map TickRow (tick_data self)))
        | None => lift (self <- get ;; ret (map TickRow (tick_data self)))
        end)
       (fun data => to_csv filepath data)).

End CsvExport.

(** *** The tick handler of app.py *)


(** The three ticks, resampled once. *)
Definition three_ticks_resampled : DataStore :=
  run (op_resample_data 1 None) three_ticks.

(** A thread that holds no lock, on the store of the three ticks. *)
Definition idle : Process :=
  {| lock_held := false; store := three_ticks; files := []; io_faults := [] |}.

(** A buffer at its high-water mark. *)
Definition full_buffer : DataStore :=
  set_tick_data (repeat (tick 0 "BTCUSDT" 100 1) (Z.to_nat 10000)) (init None 0).

End Storage.

(* ------------------------------------------------------------------ *)
(** ** analytics.py *)

Module Analytics.

Local Open Scope Q_scope.

(** A [pd.Series] of floats: its rows, each an index label and a value.
    Labels are taken to be distinct, as timestamps of one series are. *)
Definition Series : Type := list (Z * option Q).

Definition values (s : Series) : list (option Q) := map snd s.

(** The value at label [i]; NaN when the label is absent. *)
Fixpoint at_label (i : Z) (s : Series) : option Q :=
  match s with
  | [] => None
  | (j, v) :: rest => if (i =? j)%Z then v else at_label i rest
  end.

(** [pd.DataFrame({'asset1': a, 'asset2': b}).dropna()]: the rows on which
    both series have a number, as pairs (asset1, asset2). *)
Definition aligned (asset1 asset2 : Series) : list (Q * Q) :=
  flat_map
    (fun row =>
       match snd row, at_label (fst row) asset2 with
       | Some a, Some b => [(a, b)]
       | _, _ => []
       end)
    asset1.

Definition sum (l : list Q) : Q := fold_right Qplus 0 l.

Definition count (l : list Q) : Q := inject_Z (len l).

Definition mean (l : list Q) : Q := sum l / count l.

(** Sum of the products of the deviations from the means. *)
Definition co_deviation (a b : list Q) : Q :=
  sum (map (fun r => (fst r - mean a) * (snd r - mean b)) (combine a b)).

(** Covariance and variance with [ddof] delta degrees of freedom. *)
Definition covariance (ddof : Z) (a b : list Q) : Q :=
  co_deviation a b / (count a - inject_Z ddof).

Definition variance (ddof : Z) (b : list Q) : Q :=
  co_deviation b b / (count b - inject_Z ddof).

(** [np.cov(a, b)[0, 1]]: numpy's default is the sample covariance. *)
Definition np_cov (a b : list Q) : Q := covariance 1 a b.

(** [np.var(b)]: numpy's default is the population variance. *)
Definition np_var (b : list Q) : Q := variance 0 b.

Section HedgeRatio.

(** [OLS(y, X).fit().params] of statsmodels, as (const, asset2), or the
    exception it raises.  [X] is the design matrix, one row per
    observation. *)
Variable OLS_fit : list Q -> list (Q * Q) -> Result (Q * Q).

Definition calculate_hedge_ratio (asset1_prices asset2_prices : Series) : Q :=
  (* Align data by index *)
  let df := aligned asset1_prices asset2_prices in
  if (len df <? 2)%Z then 0
  else
    let y := map fst df in
    (* Add constant *)
    let X := map (fun r => (1, snd r)) df in
    match OLS_fit y X with
    | Ok params => snd params
    | Raise _ =>
        (* Fallback to manual calculation *)
        let cov := np_cov (map fst df) (map snd df) in
        let var := np_var (map snd df) in
        if negb (Qeq_bool var 0) then cov / var else 0
    end.

End HedgeRatio.

(** statsmodels fits with [method='pinv']: [params = pinv(X) y], the
    least-squares solution of smallest norm, and no exception for a
    rank-deficient [X].  For a design of two columns, with [G = X'X] and
    [h = X'y]: [G^-1 h] when [G] is invertible, [h / trace G] when [G] has
    rank one, and 0 when [X] is 0. *)
Definition OLS_pinv (y : list Q) (X : list (Q * Q)) : Result (Q * Q) :=
  let g11 := sum (map (fun r => fst r * fst r) X) in
  let g12 := sum (map (fun r => fst r * snd r) X) in
  let g22 := sum (map (fun r => snd r * snd r) X) in
  let h1 := sum (map (fun r => fst (fst r) * snd r) (combine X y)) in
  let h2 := sum (map (fun r => snd (fst r) * snd r) (combine X y)) in
  let det := g11 * g22 - g12 * g12 in
  if negb (Qeq_bool det 0) then
    Ok ((g22 * h1 - g12 * h2) / det, (g11 * h2 - g12 * h1) / det)
  else if negb (Qeq_bool (g11 + g22) 0) then
    Ok (h1 / (g11 + g22), h2 / (g11 + g22))
  else Ok (0, 0).

(** *** Rolling statistics *)

(** Sequencing of computations that may raise. *)
Definition and_then {A B} (r : Result A) (k : A -> Result B) : Result B :=
  match r with
  | Ok a => k a
  | Raise e => Raise e
  end.

(** The numbers of a window, or [None] when one of them is NaN. *)
Fixpoint observations (l : list (option Q)) : option (list Q) :=
  match l with
  | [] => Some []
  | Some x :: rest => option_map (cons x) (observations rest)
  | None :: _ => None
  end.

(** The [w] entries that end at position [i]. *)
Definition window_at (w i : nat) (vals : list (option Q)) : list (option Q) :=
  firstn w (skipn (S i - w) vals).

(** [series.rolling(window=w).agg(how)]: [min_periods] defaults to the
    window, so an entry is NaN before position [w - 1] and wherever the
    window holds a NaN.  A negative window is refused. *)
Definition rolling (w : Z) (how : list Q -> option Q) (s : Series)
    : Result (list (option Q)) :=
  if (w <? 0)%Z then Raise "ValueError: window must be an integer 0 or greater"
  else
    Ok (map (fun i =>
               if (Z.of_nat i + 1 <? w)%Z then None
               else match observations (window_at (Z.to_nat w) i (values s)) with
                    | Some xs => how xs
                    | None => None
                    end)
            (seq 0 (List.length s))).

Definition rolling_mean_of (xs : list Q) : option Q :=
  if is_empty xs then None else Some (mean xs).

Section ZScore.

(** The square root of the floating-point library. *)
Variable sqrt : Q -> Q.

(** Sample standard deviation ([ddof=1]); NaN for fewer than two
    observations. *)
Definition rolling_std_of (xs : list Q) : option Q :=
  if (len xs <=? 1)%Z then None else Some (sqrt (variance 1 xs)).

(** [series.replace(0, np.nan)] *)
Definition replace_zero (l : list (option Q)) : list (option Q) :=
  map (fun v => match v with
                | Some x => if Qeq_bool x 0 then None else Some x
                | None => None
                end) l.

Definition nan_sub (a b : option Q) : option Q :=
  match a, b with
  | Some x, Some y => Some (x - y)
  | _, _ => None
  end.

Definition nan_div (a b : option Q) : option Q :=
  match a, b with
  | Some x, Some y => Some (x / y)
  | _, _ => None
  end.

Fixpoint map2 {A B C} (f : A -> B -> C) (l1 : list A) (l2 : list B) : list C :=
  match l1, l2 with
  | x :: r1, y :: r2 => f x y :: map2 f r1 r2
  | _, _ => []
  end.

(** A series with the index of [s] and the given values. *)
Definition with_values (s : Series) (vals : list (option Q)) : Series :=
  map2 (fun row v => (fst row, v)) s vals.

Definition calculate_zscore (series : Series) (window : Z) : Result Series :=
  if (len series <? window)%Z || (window <=? 0)%Z then
    Ok (if (0 <? len series)%Z
        then map (fun row => (fst row, None)) series
        else [])
  else
    (* Calculate rolling statistics *)
    and_then (rolling window rolling_mean_of series) (fun rolling_mean =>
    and_then (rolling window rolling_std_of series) (fun rolling_std =>
    (* Avoid division by zero *)
    let rolling_std := replace_zero rolling_std in
    (* Calculate z-score *)
    Ok (with_values series
          (map2 nan_div (map2 nan_sub (values series) rolling_mean) rolling_std)))).

End ZScore.

(** *** Series used in the examples *)

Definition series_of (l : list Q) : Series :=
  map2 (fun i v => (Z.of_nat i, Some v)) (seq 0 (List.length l)) l.

Definition ramp2 : Series := series_of [1; 2].
Definition ramp3 : Series := series_of [1; 2; 3].
Definition flat3 : Series := series_of [2; 2; 2].

(** *** Correlation and summary statistics *)

Definition index (s : Series) : list Z := map fst s.

(** [Index.equals]: the same labels in the same order. *)
Fixpoint index_equals (a b : list Z) : bool :=
  match a, b with
  | [], [] => true
  | i :: a', j :: b' => (i =? j)%Z && index_equals a' b'
  | _, _ => false
  end.

(** [Index.is_unique] *)
Fixpoint is_unique (labels : list Z) : bool :=
  match labels with
  | [] => true
  | i :: rest => negb (existsb (Z.eqb i) rest) && is_unique rest
  end.

Fixpoint insert_label (i : Z) (sorted : list Z) : list Z :=
  match sorted with
  | [] => [i]
  | j :: rest =>
      if (i <? j)%Z then i :: sorted
      else if (i =? j)%Z then sorted
      else j :: insert_label i rest
  end.

(** The union of two indexes that are not equal: every label once, in
    increasing order. *)
Definition union_indexes (a b : list Z) : list Z :=
  fold_right insert_label [] (a ++ b).

(** [DataFrame.dropna()] on a frame of two columns. *)
Definition dropna_rows (rows : list (Z * (option Q * option Q)))
    : list (Z * (Q * Q)) :=
  flat_map
    (fun row =>
       match snd row with
       | (Some a, Some b) => [(fst row, (a, b))]
       | _ => []
       end)
    rows.

(** [pd.DataFrame({'asset1': asset1, 'asset2': asset2}).dropna()] with its
    labels.  Two series with equal indexes are put side by side, row by row.
    Otherwise the frame is indexed by the union of the two indexes, sorted,
    and each series is reindexed on it, a label it does not have giving NaN;
    reindexing needs distinct labels and raises without them. *)
Definition aligned_rows (asset1 asset2 : Series) : Result (list (Z * (Q * Q))) :=
  if index_equals (index asset1) (index asset2) then
    Ok (dropna_rows (map2 (fun r1 r2 => (fst r1, (snd r1, snd r2))) asset1 asset2))
  else if is_unique (index asset1) && is_unique (index asset2) then
    Ok (dropna_rows
          (map (fun i => (i, (at_label i asset1, at_label i asset2)))
               (union_indexes (index asset1) (index asset2))))
  else Raise "ValueError: cannot reindex on an axis with duplicate labels".

Section Correlation.

(** The Pearson correlation pandas computes on one full window of pairs;
    NaN when it is not defined. *)
Variable corr_of : list (Q * Q) -> option Q.

(** [df['asset1'].rolling(window=w).corr(df['asset2'])] on the aligned
    frame, which holds no NaN: an entry is NaN before position [w - 1].  A
    negative window is refused. *)
Definition rolling_corr (w : Z) (df : list (Z * (Q * Q))) : Result (list (option Q)) :=
  if (w <? 0)%Z then Raise "ValueError: window must be an integer 0 or greater"
  else
    Ok (map (fun i =>
               if (Z.of_nat i + 1 <? w)%Z then None
               else corr_of (firstn (Z.to_nat w)
                               (skipn (S i - Z.to_nat w) (map snd df))))
            (seq 0 (List.length df))).

Definition calculate_correlation (asset1_prices asset2_prices : Series) (window : Z)
    : Result Series :=
  (* Align data by index *)
  and_then (aligned_rows asset1_prices asset2_prices) (fun df =>
  if (len df <? window)%Z || (window <=? 0)%Z then
    Ok (if (0 <? len df)%Z then map (fun r => (fst r, None)) df else [])
  else
    (* Calculate rolling correlation *)
    and_then (rolling_corr window df) (fun correlation =>
    Ok (map2 (fun r v => (fst r, v)) df correlation))).

End Correlation.

(** The result dictionary of [calculate_price_statistics].  Here [None] is a
    float that is not a finite number (NaN or an infinity). *)
Record PriceStatistics : Type := {
  mean_price : option Q;
  std_price : option Q;
  mean_return : option Q;
  std_return : option Q;
  min_price : option Q;
  max_price : option Q;
  n_prices : Z
}.

(** A simple return: a number, or an infinity (after a price of zero). *)
Inductive Return : Type :=
| Finite (r : Q)
| Infinite.

(** [prices.pct_change().dropna()]: the first row and every 0/0 are NaN and
    dropped; a nonzero price after a zero price gives an infinity. *)
Fixpoint pct_change_from (previous : Q) (prices : list Q) : list Return :=
  match prices with
  | [] => []
  | p :: rest =>
      (if Qeq_bool previous 0
       then (if Qeq_bool p 0 then [] else [Infinite])
       else [Finite (p / previous - 1)])
      ++ pct_change_from p rest
  end.

Definition pct_change (prices : list Q) : list Return :=
  match prices with
  | [] => []
  | p :: rest => pct_change_from p rest
  end.

(** The returns as numbers, or [None] when one of them is an infinity. *)
Fixpoint finite_returns (l : list Return) : option (list Q) :=
  match l with
  | [] => Some []
  | Finite r :: rest => option_map (cons r) (finite_returns rest)
  | Infinite :: _ => None
  end.

(** The numbers of a column, NaN dropped. *)
Fixpoint dropna (l : list (option Q)) : list Q :=
  match l with
  | [] => []
  | Some x :: rest => x :: dropna rest
  | None :: rest => dropna rest
  end.

Section PriceStatistics.

(** [Series.mean()] and [Series.std()] on a series without NaN, as binary64
    computes them; [None] is a result that is not a finite number.  Their
    rounding is not modelled, so they are parameters. *)
Variables Series_mean Series_std : list Q -> option Q.

(** [data] is the [price] column of the frame, or [None] when the frame has
    no such column; the result is [None] for the empty dictionary. *)
Definition calculate_price_statistics (data : option (list (option Q)))
    : option PriceStatistics :=
  match data with
  | None => None
  | Some column =>
      if is_empty column then None
      else
        let prices := dropna column in
        if (len prices =? 0)%Z then None
        else
          (* Calculate returns *)
          let returns := pct_change prices in
          Some {| mean_price := Series_mean prices;
                  std_price := Series_std prices;
                  mean_return :=
                    if is_empty returns then Some 0
                    else match finite_returns returns with
                         | Some rs => Series_mean rs
                         | None => None
                         end;
                  std_return :=
                    if is_empty returns then Some 0
                    else match finite_returns returns with
                         | Some rs => Series_std rs
                         | None => None
                         end;
                  min_price := Storage.agg_min prices;
                  max_price := Storage.agg_max prices;
                  n_prices := len prices |}
  end.

End PriceStatistics.

(** The entry of [rolling] at position [i]. *)
Definition rolling_entry (w : Z) (how : list Q -> option Q) (vals : list (option Q))
    (i : nat) : option Q :=
  if (Z.of_nat i + 1 <? w)%Z then None
  else match observations (window_at (Z.to_nat w) i vals) with
       | Some xs => how xs
       | None => None
       end.

Definition level : Series := map (fun i => (i, Some 5)) [0%Z; 1%Z; 2%Z].
Definition later : Series := [(3%Z, Some 2); (2%Z, Some 5); (1%Z, Some 4)].

End Analytics.

(* ================================================================== *)
(** * Part II. Theorems *)
(* ================================================================== *)

(** ** The alert engine *)

Module AlertsProofs.
Import Alerts.

Section Registry.

Variable Data : Type.
Implicit Types (s : AlertSystem Data) (a alert : Alert Data) (l : list (Alert Data)).

Lemma assign_first_no_match nm v l :
  (forall x, In x l -> name x <> nm) -> assign_first nm v l = l.
Proof.
  induction l as [|x r IH]; intros H; simpl; [reflexivity|].
  destruct (String.eqb_spec (name x) nm) as [E|E].
  - exfalso. apply (H x); [now left | exact E].
  - f_equal. apply IH. intros y Hy. apply H. now right.
Qed.

Lemma assign_first_first_match nm v l1 a l2 :
  (forall x, In x l1 -> name x <> nm) -> name a = nm ->
  assign_first nm v (l1 ++ a :: l2) = l1 ++ set_active a v :: l2.
Proof.
  intros H Ha. induction l1 as [|x r IH]; simpl.
  - rewrite Ha, String.eqb_refl. reflexivity.
  - destruct (String.eqb_spec (name x) nm) as [E|E].
    + exfalso. apply (H x); [now left | exact E].
    + f_equal. apply IH. intros y Hy. apply H. now right.
Qed.

Lemma other_names_idem nm l : other_names nm (other_names nm l) = other_names nm l.
Proof.
  unfold other_names. induction l as [|x r IH]; simpl; [reflexivity|].
  destruct (negb (name x =? nm)%string) eqn:E; simpl; [rewrite E; f_equal|]; exact IH.
Qed.

(** C8.  [remove_alert] deletes every alert of the given name and nothing
    else: no alert of that name is left, and the alerts of other names are
    the same, in the same order.  [activate_alert] and [deactivate_alert]
    assign the flag of the first alert of the given name only, whatever
    follows it: in its place stands an alert whose flag is [True],
    respectively [False], and whose name, predicate and symbol are the same.
    They leave the registry as it is when no alert has that name.  None of
    them raises or touches the history. *)
Theorem registry_updates s nm :
  (let r := remove_alert nm s in
   fst r = Ok tt /\
   (forall x, In x (alerts (snd r)) -> name x <> nm) /\
   other_names nm (alerts (snd r)) = other_names nm (alerts s) /\
   (forall x, In x (alerts s) -> name x <> nm -> In x (alerts (snd r))) /\
   alert_history (snd r) = alert_history s) /\
  ((forall x, In x (alerts s) -> name x <> nm) ->
   activate_alert nm s = (Ok tt, s) /\ deactivate_alert nm s = (Ok tt, s)) /\
  (forall l1 a l2,
     alerts s = l1 ++ a :: l2 ->
     (forall x, In x l1 -> name x <> nm) -> name a = nm ->
     exists on off,
       activate_alert nm s = (Ok tt, set_alerts (l1 ++ on :: l2) s) /\
       deactivate_alert nm s = (Ok tt, set_alerts (l1 ++ off :: l2) s) /\
       active on = true /\ active off = false /\
       name on = name a /\ name off = name a /\
       condition_func on = condition_func a /\
       condition_func off = condition_func a /\
       symbol on = symbol a /\ symbol off = symbol a).
Proof.
  split; [|split].
  - cbn. repeat split.
    + intros x Hx. apply filter_In in Hx. destruct Hx as [_ Hx].
      destruct (String.eqb_spec (name x) nm); [discriminate | assumption].
    + apply other_names_idem.
    + intros x Hx Hn. apply filter_In. split; [exact Hx|].
      destruct (String.eqb_spec (name x) nm); [contradiction | reflexivity].
  - intros H. unfold activate_alert, deactivate_alert, modify.
    rewrite !assign_first_no_match by exact H.
    destruct s; split; reflexivity.
  - intros l1 a l2 Hs H Ha. unfold activate_alert, deactivate_alert, modify.
    rewrite Hs, !assign_first_first_match by assumption.
    exists (set_active a true), (set_active a false).
    repeat split; reflexivity.
Qed.

End Registry.

Section Evaluation.

Variable Data : Type.
Variable data : Data.
Variable sym : option string.
Implicit Types (s : AlertSystem Data) (a alert : Alert Data) (l : list (Alert Data)).

(** One iteration of the loop, by cases on what the alert does. *)
Lemma check_alert_step alert acc s :
  exists s',
    check_alert data sym alert acc s =
      (Ok (acc ++ expected_triggers data sym (clock s) (clock_reads s) [alert]), s') /\
    alerts s' = alerts s /\
    alert_history s' =
      alert_history s ++ expected_triggers data sym (clock s) (clock_reads s) [alert] /\
    stdout s' = stdout s ++ expected_log data sym [alert] /\
    clock s' = clock s /\
    clock_reads s' =
      clock_reads s +
      List.length (expected_triggers data sym (clock s) (clock_reads s) [alert]).
Proof.
  unfold check_alert, fires, expected_triggers, expected_log, fires.
  destruct (active alert); cbn [negb andb].
  2:{ exists s. rewrite !app_nil_r. cbn. repeat split; lia. }
  destruct (symbol_mismatch alert sym); cbn [negb andb].
  1:{ exists s. rewrite !app_nil_r. cbn. repeat split; lia. }
  unfold try_except, bind, call.
  destruct (condition_func alert data) as [[|]|e]; cbn;
    eexists; rewrite ?app_nil_r; repeat split; cbn;
    rewrite ?app_nil_r; try reflexivity; lia.
Qed.

Lemma expected_triggers_cons clk k alert l :
  expected_triggers data sym clk k (alert :: l) =
  expected_triggers data sym clk k [alert] ++
  expected_triggers data sym clk
    (k + List.length (expected_triggers data sym clk k [alert])) l.
Proof.
  cbn. destruct (fires data sym alert); cbn.
  - do 2 f_equal. lia.
  - f_equal. lia.
Qed.

(** The whole loop: it returns, and what it returns, appends and prints is
    what [expected_triggers] and [expected_log] say. *)
Lemma foreach_check_alert l : forall acc s,
  exists s',
    foreach l (check_alert data sym) acc s =
      (Ok (acc ++ expected_triggers data sym (clock s) (clock_reads s) l), s') /\
    alerts s' = alerts s /\
    alert_history s' =
      alert_history s ++ expected_triggers data sym (clock s) (clock_reads s) l /\
    stdout s' = stdout s ++ expected_log data sym l /\
    clock s' = clock s.
Proof.
  induction l as [|alert r IH]; intros acc s.
  - exists s. cbn. rewrite !app_nil_r. repeat split.
  - destruct (check_alert_step alert acc s) as (s1 & E1 & A1 & H1 & O1 & C1 & R1).
    destruct (IH (acc ++ expected_triggers data sym (clock s) (clock_reads s) [alert]) s1)
      as (s2 & E2 & A2 & H2 & O2 & C2).
    exists s2. cbn [foreach]. unfold bind at 1. rewrite E1, E2.
    rewrite (expected_triggers_cons (clock s) (clock_reads s) alert r).
    rewrite H2, O2, C2, A2, H1, O1, C1, A1, R1.
    replace (expected_log data sym (alert :: r))
      with (expected_log data sym [alert] ++ expected_log data sym r)
      by (cbn; now rewrite app_nil_r).
    rewrite <- !app_assoc. repeat split.
Qed.

Lemma expected_triggers_skip clk l1 a l2 : forall k,
  fires data sym a = false ->
  expected_triggers data sym clk k (l1 ++ a :: l2) =
  expected_triggers data sym clk k (l1 ++ l2).
Proof.
  induction l1 as [|x r IH]; intros k Hf; cbn.
  - now rewrite Hf.
  - destruct (fires data sym x); [f_equal|]; now apply IH.
Qed.

Lemma expected_log_In l1 a l2 e :
  active a = true -> symbol_mismatch a sym = false ->
  condition_func a data = Raise e ->
  In ("Error checking alert " ++ name a ++ ": " ++ e)%string
     (expected_log data sym (l1 ++ a :: l2)).
Proof.
  intros Ha Hm Hc. induction l1 as [|x r IH]; cbn.
  - rewrite Ha, Hm, Hc. cbn. now left.
  - apply in_or_app. now right.
Qed.

Lemma fires_true_In_expected clk l : forall k x,
  In x l -> fires data sym x = true ->
  exists t, In t (expected_triggers data sym clk k l) /\
            ta_name t = name x /\ ta_symbol t = py_or sym (symbol x).
Proof.
  induction l as [|y r IH]; intros k x Hin Hf; [contradiction|].
  cbn. destruct Hin as [->|Hin].
  - rewrite Hf. eexists. split; [now left|]. split; reflexivity.
  - destruct (fires data sym y).
    + destruct (IH (S k) x Hin Hf) as (t & Ht & Hn). exists t. split; [now right | exact Hn].
    + now apply IH.
Qed.

(** C4.  When the predicate of an active, selected alert raises, the call
    still returns normally; the registry is untouched; the error is printed;
    the returned list is exactly what the other alerts of the registry
    produce (the raising alert contributes nothing, every other alert that
    fires, before or after it, is reported); and the history grows by
    exactly the returned list. *)
Theorem check_alerts_isolates_failure s l1 a l2 e :
  alerts s = l1 ++ a :: l2 ->
  active a = true ->
  symbol_mismatch a sym = false ->
  condition_func a data = Raise e ->
  exists triggered s',
    check_alerts data sym s = (Ok triggered, s') /\
    triggered = expected_triggers data sym (clock s) (clock_reads s) (l1 ++ l2) /\
    (forall x, In x (l1 ++ l2) -> fires data sym x = true ->
       exists t, In t triggered /\ ta_name t = name x /\
                 ta_symbol t = py_or sym (symbol x)) /\
    alerts s' = alerts s /\
    alert_history s' = alert_history s ++ triggered /\
    In ("Error checking alert " ++ name a ++ ": " ++ e)%string (stdout s').
Proof.
  intros Hs Ha Hm Hc.
  assert (Hf : fires data sym a = false).
  { unfold fires. now rewrite Ha, Hm, Hc. }
  destruct (foreach_check_alert (alerts s) [] s) as (s' & E & A & H & O & C).
  exists (expected_triggers data sym (clock s) (clock_reads s) (l1 ++ l2)), s'.
  rewrite Hs in E, H, O.
  rewrite (expected_triggers_skip (clock s) l1 a l2 (clock_reads s) Hf) in E, H.
  repeat split.
  - unfold check_alerts, bind, get. rewrite Hs. exact E.
  - intros x Hx Hfx. now apply fires_true_In_expected.
  - exact A.
  - exact H.
  - rewrite O. apply in_or_app. right. now apply expected_log_In.
Qed.

End Evaluation.

(** *** Examples *)

Lemma registry_updates_witness :
  alerts three_alerts = [] ++ first_X :: [broken; second_X] /\
  name first_X = "X"%string /\
  (exists on off,
     activate_alert "X" three_alerts =
       (Ok tt, set_alerts ([] ++ on :: [broken; second_X]) three_alerts) /\
     deactivate_alert "X" three_alerts =
       (Ok tt, set_alerts ([] ++ off :: [broken; second_X]) three_alerts) /\
     active on = true /\ active off = false /\
     name on = name first_X /\ name off = name first_X /\
     condition_func on = condition_func first_X /\
     condition_func off = condition_func first_X /\
     symbol on = symbol first_X /\ symbol off = symbol first_X) /\
  forall x, In x (alerts (snd (remove_alert "X" three_alerts))) -> name x <> "X"%string.
Proof.
  split; [reflexivity|]. split; [reflexivity|]. split.
  - apply (proj2 (proj2 (registry_updates three_alerts "X")) [] first_X [broken; second_X]).
    + reflexivity.
    + intros x [].
    + reflexivity.
  - apply (proj1 (proj2 (proj1 (registry_updates three_alerts "X")))).
Defined.

Lemma check_alerts_isolates_failure_witness :
  alerts three_alerts = [first_X] ++ broken :: [second_X] /\
  active broken = true /\
  symbol_mismatch broken None = false /\
  condition_func broken tt = Raise "KeyError: 'zscore'" /\
  exists triggered s',
    check_alerts tt None three_alerts = (Ok triggered, s') /\
    triggered = expected_triggers tt None Z.of_nat 0 ([first_X] ++ [second_X]) /\
    alert_history s' = alert_history three_alerts ++ triggered.
Proof.
  repeat (split; [reflexivity|]).
  destruct (@check_alerts_isolates_failure unit tt None three_alerts
              [first_X] broken [second_X] "KeyError: 'zscore'"
              eq_refl eq_refl eq_refl eq_refl)
    as (triggered & s' & E & T & _ & _ & H & _).
  exists triggered, s'. repeat split; assumption.
Defined.

(** *** More on the registry and on evaluation *)

Section MoreAlerts.

Variable Data : Type.
Implicit Types (s : AlertSystem Data) (a alert : Alert Data) (l : list (Alert Data)).

Lemma set_alerts_same s : set_alerts (alerts s) s = s.
Proof. now destruct s. Qed.

Lemma expected_triggers_fields data sym clk l : forall k,
  map (fun t => (ta_name t, ta_symbol t)) (expected_triggers data sym clk k l) =
    map (fun a => (name a, py_or sym (symbol a))) (filter (fires data sym) l) /\
  map ta_timestamp (expected_triggers data sym clk k l) =
    map clk (seq k (List.length (expected_triggers data sym clk k l))).
Proof.
  induction l as [|a r IH]; intros k; cbn; [split; reflexivity|].
  destruct (fires data sym a); cbn.
  - destruct (IH (S k)) as [-> <-]. split; reflexivity.
  - apply IH.
Qed.

Lemma check_alerts_result (data : Data) (sym : option string) s :
  exists triggered s',
    check_alerts data sym s = (Ok triggered, s') /\
    map (fun t => (ta_name t, ta_symbol t)) triggered =
      map (fun a => (name a, py_or sym (symbol a)))
          (filter (fires data sym) (alerts s)) /\
    map ta_timestamp triggered =
      map (clock s) (seq (clock_reads s) (List.length triggered)) /\
    alert_history s' = alert_history s ++ triggered /\
    alerts s' = alerts s.
Proof.
  destruct (foreach_check_alert data sym (alerts s) [] s) as (s' & E & A & H & _ & _).
  exists (expected_triggers data sym (clock s) (clock_reads s) (alerts s)), s'.
  destruct (expected_triggers_fields data sym (clock s) (alerts s) (clock_reads s))
    as [F T].
  repeat split; try assumption.
Qed.


Lemma filter_fires_inactive data sym l :
  (forall a, In a l -> active a = false) -> filter (fires data sym) l = [].
Proof.
  intros H. induction l as [|a r IH]; cbn; [reflexivity|].
  unfold fires at 1. rewrite (H a) by now left. cbn.
  apply IH. intros x Hx. apply H. now right.
Qed.

(** X2.  An alert that has been deactivated is silent: when a single alert
    carries the name, [check_alerts] after [deactivate_alert] returns no
    entry of that name, whatever the data and the symbol. *)
Theorem deactivated_alert_is_silent (data : Data) (sym : option string) s nm l1 a l2 :
  alerts s = l1 ++ a :: l2 ->
  name a = nm ->
  (forall x, In x (l1 ++ l2) -> name x <> nm) ->
  forall t, In t (match fst (check_alerts data sym (snd (deactivate_alert nm s))) with
                  | Ok triggered => triggered
                  | Raise _ => []
                  end) ->
            ta_name t <> nm.
Proof.
  intros Hs Ha Hother t Ht.
  assert (Hd : alerts (snd (deactivate_alert nm s)) = l1 ++ set_active a false :: l2).
  { unfold deactivate_alert, modify. cbn [snd alerts set_alerts]. rewrite Hs.
    apply assign_first_first_match; [|exact Ha].
    intros x Hx. apply Hother. apply in_or_app. now left. }
  destruct (check_alerts_result data sym (snd (deactivate_alert nm s)))
    as (triggered & s' & E & F & _).
  rewrite E in Ht. cbn [fst] in Ht.
  assert (Hn : In (ta_name t) (map fst (map (fun t => (ta_name t, ta_symbol t)) triggered))).
  { rewrite map_map. cbn [fst]. now apply in_map. }
  rewrite F, map_map in Hn. cbn [fst] in Hn.
  apply in_map_iff in Hn. destruct Hn as (x & <- & Hx).
  apply filter_In in Hx. destruct Hx as [Hx Hf]. rewrite Hd in Hx.
  apply in_app_or in Hx. destruct Hx as [Hx|[<-|Hx]].
  - apply Hother. apply in_or_app. now left.
  - unfold fires in Hf. cbn in Hf. discriminate.
  - apply Hother. apply in_or_app. now right.
Qed.

(** X3.  Registering an alert under a name no alert carries and removing
    that name again gives back the system exactly as it was. *)
Theorem add_then_remove s nm f sym :
  (forall x, In x (alerts s) -> name x <> nm) ->
  snd (remove_alert nm (snd (add_alert nm f sym s))) = s.
Proof.
  intros H. unfold remove_alert, add_alert, modify. cbn [snd alerts set_alerts].
  rewrite filter_app. cbn [filter name]. rewrite String.eqb_refl. cbn [negb].
  rewrite app_nil_r.
  replace (filter _ (alerts s)) with (alerts s); [now destruct s|].
  symmetry. clear f sym. induction (alerts s) as [|x r IH]; cbn; [reflexivity|].
  destruct (String.eqb_spec (name x) nm) as [E|E].
  - exfalso. apply (H x); [now left | exact E].
  - cbn. f_equal. apply IH. intros y Hy. apply H. now right.
Qed.

(** X4.  Deactivating a name and activating it again gives back the system
    exactly as it was, provided the first alert of that name was active. *)
Theorem deactivate_then_activate s nm l1 a l2 :
  alerts s = l1 ++ a :: l2 ->
  (forall x, In x l1 -> name x <> nm) ->
  name a = nm ->
  active a = true ->
  snd (activate_alert nm (snd (deactivate_alert nm s))) = s.
Proof.
  intros Hs H Ha Hact. unfold activate_alert, deactivate_alert, modify.
  cbn [snd alerts set_alerts]. rewrite Hs.
  rewrite (assign_first_first_match false l1 a l2 H Ha).
  rewrite (assign_first_first_match true l1 (set_active a false) l2 H) by exact Ha.
  replace (set_active (set_active a false) true) with a
    by (destruct a; cbn in *; now subst).
  rewrite <- Hs. now destruct s.
Qed.

Lemma after_history (c : Call Data) s :
  exists suffix, alert_history (after c s) = alert_history s ++ suffix.
Proof.
  destruct c as [nm f sym|nm|data sym|nm|nm]; cbn [after];
    try (exists []; now rewrite app_nil_r).
  destruct (check_alerts_result data sym s) as (triggered & s' & E & _ & _ & H & _).
  exists triggered. now rewrite E.
Qed.

(** X5.  The history is append-only: whatever the calls made on the system
    (registering, removing, activating, deactivating, evaluating), the
    history before them is a prefix of the history after them. *)
Theorem history_only_grows (cs : list (Call Data)) s :
  exists suffix, alert_history (after_all cs s) = alert_history s ++ suffix.
Proof.
  revert s. induction cs as [|c cs IH]; intros s; cbn.
  - exists []. now rewrite app_nil_r.
  - destruct (after_history c s) as [s1 H1].
    destruct (IH (after c s)) as [s2 H2].
    exists (s1 ++ s2). unfold after_all in H2. rewrite H2, H1. now rewrite app_assoc.
Qed.

End MoreAlerts.

(** X6.  The default alert of the application.  On a fresh system set up by
    [_setup_default_alerts], [check_alerts] returns one entry, named
    "Z-Score Alert (>2)", exactly when the frame has a z-score column whose
    last value is a number of absolute value above 2; otherwise it returns
    nothing.  It never prints an error. *)
Theorem default_alert_fires (clk : nat -> Z) (data : ZFrame) (sym : option string) :
  let s := snd (setup_default_alerts (@init ZFrame clk)) in
  exists triggered s',
    check_alerts data sym s = (Ok triggered, s') /\
    stdout s' = [] /\
    ((exists col z, data = Some (col ++ [Some z]) /\ (2 < Qabs z)%Q) ->
     triggered = [ {| ta_name := "Z-Score Alert (>2)";
                      ta_symbol := py_or sym None;
                      ta_timestamp := clk 0 |} ]) /\
    (~ (exists col z, data = Some (col ++ [Some z]) /\ (2 < Qabs z)%Q) ->
     triggered = []).
Proof.
  cbv zeta.
  assert (Hlast : forall (col : list (option Q)) z z0 rest,
             z0 :: rest = col ++ [z] -> List.last rest z0 = z).
  { intros col z z0 rest E. destruct col as [|c col]; cbn in E.
    - inversion E; subst. reflexivity.
    - inversion E; subst. apply last_last. }
  destruct data as [[|z0 rest]|].
  - eexists _, _. split; [reflexivity|]. split; [reflexivity|]. split; [|reflexivity].
    intros (col & z & E & _). destruct col; discriminate.
  - destruct (exists_last (l:=z0 :: rest)) as (col & z & E); [discriminate|].
    pose proof (Hlast _ _ _ _ E) as HL.
    unfold check_alerts, bind, get. cbn [snd setup_default_alerts].
    cbn -[Qle_bool Qabs List.last]. rewrite HL.
    destruct z as [z|].
    + destruct (Qle_bool (Qabs z) 2) eqn:Hle; cbn [negb].
      * eexists _, _. split; [reflexivity|]. split; [reflexivity|]. split; [|reflexivity].
        intros (col' & z' & E' & Hz). injection E' as E'. rewrite E in E'.
        apply app_inj_tail in E'. destruct E' as [_ [= ->]].
        apply Qle_bool_iff in Hle. lra.
      * eexists _, _. split; [reflexivity|]. split; [reflexivity|]. split; [reflexivity|].
        intros Hn. exfalso. apply Hn. exists col, z. split; [now rewrite E|].
        apply Qnot_le_lt. intros Hc. apply Qle_bool_iff in Hc. congruence.
    + eexists _, _. split; [reflexivity|]. split; [reflexivity|]. split; [|reflexivity].
      intros (col' & z' & E' & _). injection E' as E'. rewrite E in E'.
      apply app_inj_tail in E'. destruct E' as [_ [=]].
  - eexists _, _. split; [reflexivity|]. split; [reflexivity|]. split; [|reflexivity].
    intros (col & z & E & _). discriminate.
Qed.

(** *** More examples *)

Lemma deactivated_alert_is_silent_witness :
  alerts three_alerts = [first_X] ++ broken :: [second_X] /\
  name broken = "broken"%string /\
  (forall x, In x ([first_X] ++ [second_X]) -> name x <> "broken"%string) /\
  forall t, In t (match fst (check_alerts tt None
                               (snd (deactivate_alert "broken" three_alerts))) with
                  | Ok triggered => triggered
                  | Raise _ => []
                  end) ->
            ta_name t <> "broken"%string.
Proof.
  assert (H : forall x, In x ([first_X] ++ [second_X]) -> name x <> "broken"%string).
  { intros x [<-|[<-|[]]]; discriminate. }
  split; [reflexivity|]. split; [reflexivity|]. split; [exact H|].
  exact (@deactivated_alert_is_silent unit tt None three_alerts "broken"
           [first_X] broken [second_X] eq_refl eq_refl H).
Defined.

Lemma add_then_remove_witness :
  (forall x, In x (alerts three_alerts) -> name x <> "Y"%string) /\
  snd (remove_alert "Y" (snd (add_alert "Y" (fun _ => Ok true) None three_alerts))) =
    three_alerts.
Proof.
  assert (H : forall x, In x (alerts three_alerts) -> name x <> "Y"%string).
  { intros x [<-|[<-|[<-|[]]]]; discriminate. }
  split; [exact H|]. exact (@add_then_remove unit three_alerts "Y" _ None H).
Defined.

Lemma deactivate_then_activate_witness :
  alerts three_alerts = [] ++ first_X :: [broken; second_X] /\
  name first_X = "X"%string /\
  active first_X = true /\
  snd (activate_alert "X" (snd (deactivate_alert "X" three_alerts))) = three_alerts.
Proof.
  repeat (split; [reflexivity|]).
  apply (@deactivate_then_activate unit three_alerts "X" [] first_X [broken; second_X]);
    try reflexivity.
  intros x [].
Defined.

End AlertsProofs.

(** ** The tick store *)

Module StorageProofs.
Import Storage.

(** *** What a call changes *)

Lemma lookup_assign {A} (d : PerTimeframe A) tf v tf' :
  lookup (assign d tf v) tf' = if Timeframe_eqb tf tf' then v else lookup d tf'.
Proof. destruct tf, tf'; reflexivity. Qed.

Lemma to_sql_frame table rows self :
  tick_data (snd (to_sql table rows self)) = tick_data self /\
  resampled_data (snd (to_sql table rows self)) = resampled_data self /\
  stdout (snd (to_sql table rows self)) = stdout self.
Proof.
  unfold to_sql, bind, get, put, raise.
  destruct (conn self) as [c|]; [|now cbn].
  destruct (faults c) as [|[|] rest]; now cbn.
Qed.

(** One timeframe of the loop, errors of the sink included: the iteration
    ends normally, and only the stored series of that timeframe moves. *)
Lemma try_resample_timeframe ticks tf self :
  let r := try_except (resample_timeframe ticks tf)
             (fun e => print ("Error resampling " ++ timeframe_key tf ++ ": " ++ e)%string)
             self in
  fst r = Ok tt /\
  tick_data (snd r) = tick_data self /\
  forall tf', lookup (resampled_data (snd r)) tf' =
              if Timeframe_eqb tf tf'
              then updated_series ticks tf (lookup (resampled_data self) tf)
              else lookup (resampled_data self) tf'.
Proof.
  unfold updated_series, resample_timeframe.
  generalize (groupby_resample agg_ohlc (rule tf) ticks) as price_resampled.
  generalize (groupby_resample agg_volume (rule tf) ticks) as volume_resampled.
  intros volume_resampled price_resampled.
  destruct (negb (is_empty ticks)); cbn [andb].
  2:{ cbn. repeat split. intros tf'. now destruct (Timeframe_eqb tf tf') eqn:E, tf, tf'. }
  destruct (negb (is_empty price_resampled) && negb (is_empty volume_resampled)).
  2:{ cbn. repeat split. intros tf'. now destruct (Timeframe_eqb tf tf') eqn:E, tf, tf'. }
  generalize (merge price_resampled volume_resampled) as fresh. intros fresh.
  unfold try_except, bind, modify, get. cbn [conn set_resampled].
  destruct (conn self) as [c|] eqn:Hc.
  - match goal with |- context [to_sql ?t ?rows ?st] =>
      destruct (to_sql_frame t rows st) as (Ht & Hr & _);
      destruct (to_sql t rows st) as [[[]|e] st'] eqn:Hsql
    end; cbn [fst snd] in *; cbn [print modify fst snd tick_data resampled_data].
    + rewrite Ht, Hr. cbn. repeat split. intros tf'.
      rewrite !lookup_assign. destruct tf, tf'; reflexivity.
    + rewrite Ht, Hr. cbn. repeat split. intros tf'.
      rewrite !lookup_assign. destruct tf, tf'; reflexivity.
  - cbn. repeat split. intros tf'.
    rewrite !lookup_assign. destruct tf, tf'; reflexivity.
Qed.

Lemma resample_data_unfold now sym self :
  resample_data now sym self =
  if is_empty (selected sym (tick_data self)) then (Ok tt, self)
  else
    (foreach [tf_1s; tf_1min; tf_5min]
       (fun tf (_ : unit) =>
          try_except (resample_timeframe (selected sym (tick_data self)) tf)
            (fun e => print ("Error resampling " ++ timeframe_key tf ++ ": " ++ e)%string))
       tt ;;;
     modify (set_last_resample {| at_1s := now; at_1min := now; at_5min := now |}))
    self.
Proof.
  unfold resample_data, bind at 1, get. cbv zeta.
  now destruct (is_empty (selected sym (tick_data self))).
Qed.

(** The whole call: it returns normally, leaves the tick buffer alone and
    moves each stored series by [updated_series] on the selected ticks. *)
Lemma resample_data_effect now sym self :
  let r := resample_data now sym self in
  fst r = Ok tt /\
  tick_data (snd r) = tick_data self /\
  forall tf, lookup (resampled_data (snd r)) tf =
             updated_series (selected sym (tick_data self)) tf
               (lookup (resampled_data self) tf).
Proof.
  intros r. subst r. rewrite resample_data_unfold.
  destruct (is_empty (selected sym (tick_data self))) eqn:Hempty.
  - cbn. repeat split. intros tf. unfold updated_series. now rewrite Hempty.
  - generalize (selected sym (tick_data self)) as ticks. intros ticks.
    cbn [foreach]. unfold bind.
    pose proof (try_resample_timeframe ticks tf_1s self) as H1. cbv zeta in H1.
    destruct (try_except (resample_timeframe ticks tf_1s) _ self) as [r1 s1].
    cbn [fst snd] in H1. destruct H1 as (-> & T1 & R1).
    pose proof (try_resample_timeframe ticks tf_1min s1) as H2. cbv zeta in H2.
    destruct (try_except (resample_timeframe ticks tf_1min) _ s1) as [r2 s2].
    cbn [fst snd] in H2. destruct H2 as (-> & T2 & R2).
    pose proof (try_resample_timeframe ticks tf_5min s2) as H3. cbv zeta in H3.
    destruct (try_except (resample_timeframe ticks tf_5min) _ s2) as [r3 s3].
    cbn [fst snd] in H3. destruct H3 as (-> & T3 & R3).
    cbn. repeat split; [congruence|].
    intros tf. change (lookup (resampled_data s3) tf =
                       updated_series ticks tf (lookup (resampled_data self) tf)).
    rewrite R3.
    destruct tf; cbn [Timeframe_eqb]; rewrite ?R2; cbn [Timeframe_eqb];
      rewrite ?R1; reflexivity.
Qed.

(** *** Retention *)

Lemma tail_length {A} n (l : list A) :
  (0 <= n)%Z -> (len (tail n l) <= n)%Z.
Proof.
  intros Hn. unfold len, tail. rewrite length_skipn. lia.
Qed.

Lemma tail_last {A} n (l : list A) x :
  (1 <= n)%Z -> exists l', tail n (l ++ [x]) = l' ++ [x].
Proof.
  intros Hn. unfold tail. rewrite length_app. cbn [List.length].
  rewrite skipn_app.
  replace (List.length l + 1 - Z.to_nat n - List.length l) with 0 by lia.
  cbn [skipn]. eauto.
Qed.

Lemma trimmed_length rows : (len (trimmed rows) <= 2000)%Z.
Proof.
  unfold trimmed. destruct (2000 <? len rows)%Z eqn:E.
  - pose proof (tail_length (n:=1000) rows). lia.
  - apply Z.ltb_ge in E. exact E.
Qed.

(** What [add_tick] leaves in memory, whether the sink accepts the row or
    not. *)
Lemma add_tick_memory tick self :
  tick_data (snd (add_tick tick self)) =
    (if (10000 <? len (tick_data self ++ [tick]))%Z
     then tail 5000 (tick_data self ++ [tick])
     else tick_data self ++ [tick]) /\
  resampled_data (snd (add_tick tick self)) = resampled_data self /\
  stdout (snd (add_tick tick self)) = stdout self.
Proof.
  unfold add_tick, bind, modify, get, put, ret.
  cbn [tick_data set_tick_data conn].
  destruct (10000 <? len (tick_data self ++ [tick]))%Z;
    cbn [tick_data set_tick_data conn];
    (destruct (conn self) as [c|] eqn:Hc; [|now cbn]);
    match goal with |- context [to_sql ?t ?rows ?st] =>
      destruct (to_sql_frame t rows st) as (Ht & Hr & Ho);
      rewrite Ht, Hr, Ho
    end; now cbn.
Qed.

Lemma add_tick_bound tick self :
  (len (tick_data (snd (add_tick tick self))) <= 10000)%Z.
Proof.
  destruct (add_tick_memory tick self) as (-> & _).
  destruct (10000 <? len (tick_data self ++ [tick]))%Z eqn:E.
  - pose proof (tail_length (n:=5000) (tick_data self ++ [tick])). lia.
  - apply Z.ltb_ge in E. exact E.
Qed.

Lemma updated_series_bound ticks tf stored :
  (len stored <= 2000)%Z -> (len (updated_series ticks tf stored) <= 2000)%Z.
Proof.
  intros H. unfold updated_series.
  match goal with |- context [if ?c then _ else _] => destruct c end.
  - apply trimmed_length.
  - exact H.
Qed.

(** C9.  [resample_data] returns normally and leaves the raw tick buffer
    exactly as it was, whatever the store holds and whatever symbol it is
    given. *)
Theorem resample_data_keeps_tick_data now sym self :
  fst (resample_data now sym self) = Ok tt /\
  tick_data (snd (resample_data now sym self)) = tick_data self.
Proof.
  destruct (resample_data_effect now sym self) as (H1 & H2 & _).
  split; assumption.
Qed.

(** C10.  In every state a store goes through, from construction on and
    after each [add_tick] or [resample_data] (returned or raised), the tick
    buffer holds at most 10000 rows and each of the three stored series
    holds at most 2000 bars. *)
Theorem buffers_bounded self :
  reachable self ->
  (len (tick_data self) <= 10000)%Z /\
  forall tf, (len (lookup (resampled_data self) tf) <= 2000)%Z.
Proof.
  induction 1 as [c now | op self Hr [IHt IHb]].
  - split; [cbn; lia | intros []; cbn; lia].
  - destruct op as [tick | now sym]; cbn [run].
    + split; [apply add_tick_bound|].
      destruct (add_tick_memory tick self) as (_ & -> & _). exact IHb.
    + destruct (resample_data_effect now sym self) as (_ & Ht & Hb).
      cbv zeta in Ht, Hb. split.
      * rewrite Ht. exact IHt.
      * intros tf. rewrite Hb. apply updated_series_bound, IHb.
Qed.

(** C5 (what the code does).  With a connection whose next write fails,
    [add_tick] does not return: the error of the sink leaves the method as a
    raised exception and nothing is printed.  The tick is in the buffer all
    the same. *)
Theorem add_tick_sink_failure_propagates self tick c rest :
  conn self = Some c ->
  faults c = true :: rest ->
  fst (add_tick tick self) = Raise "OperationalError" /\
  stdout (snd (add_tick tick self)) = stdout self /\
  exists before, tick_data (snd (add_tick tick self)) = before ++ [tick].
Proof.
  intros Hc Hf.
  destruct (add_tick_memory tick self) as (Ht & _ & Ho).
  split; [|split].
  - unfold add_tick, bind, modify, get, put, ret.
    cbn [tick_data set_tick_data conn].
    destruct (10000 <? len (tick_data self ++ [tick]))%Z;
      cbn [tick_data set_tick_data conn]; rewrite Hc;
      unfold to_sql, bind, get, put, raise; cbn [conn set_tick_data];
      rewrite Hc, Hf; reflexivity.
  - exact Ho.
  - rewrite Ht. destruct (10000 <? len (tick_data self ++ [tick]))%Z.
    + apply tail_last. lia.
    + eauto.
Qed.

(** *** Merging a fresh frame into a stored series *)

Lemma key_eqb_eq a b : key_eqb a b = true <-> a = b.
Proof.
  unfold key_eqb. destruct a as [s1 z1], b as [s2 z2]. cbn.
  rewrite andb_true_iff, String.eqb_eq, Z.eqb_eq.
  split; [intros [-> ->]; reflexivity | intros [= -> ->]; split; reflexivity].
Qed.

Lemma key_in_In k rows : key_in k rows = true <-> In k (map bar_key rows).
Proof.
  unfold key_in. rewrite existsb_exists, in_map_iff. split.
  - intros (b & Hb & E). apply key_eqb_eq in E. eauto.
  - intros (b & E & Hb). exists b. split; [exact Hb|]. now apply key_eqb_eq.
Qed.

Lemma key_in_app k l1 l2 : key_in k (l1 ++ l2) = key_in k l1 || key_in k l2.
Proof. apply existsb_app. Qed.

Lemma drop_duplicates_In b rows : In b (drop_duplicates rows) -> In b rows.
Proof.
  induction rows as [|x r IH]; cbn; [tauto|].
  fold (key_in (bar_key x) r). destruct (key_in (bar_key x) r); cbn; tauto.
Qed.

Lemma drop_duplicates_NoDup rows : NoDup (map bar_key (drop_duplicates rows)).
Proof.
  induction rows as [|x r IH]; cbn; [constructor|].
  fold (key_in (bar_key x) r). destruct (key_in (bar_key x) r) eqn:E; [exact IH|].
  cbn. constructor; [|exact IH].
  intros Hin. apply in_map_iff in Hin. destruct Hin as (b & Hk & Hb).
  apply drop_duplicates_In in Hb.
  assert (key_in (bar_key x) r = true) by (apply key_in_In, in_map_iff; eauto).
  congruence.
Qed.

Lemma drop_duplicates_fixed rows :
  NoDup (map bar_key rows) -> drop_duplicates rows = rows.
Proof.
  induction rows as [|x r IH]; cbn; [reflexivity|].
  intros H. inversion H as [|? ? Hx Hr]; subst.
  fold (key_in (bar_key x) r). destruct (key_in (bar_key x) r) eqn:E.
  - apply key_in_In in E. contradiction.
  - f_equal. now apply IH.
Qed.

(** Last write wins: the fresh rows stay, in their order, after the stored
    rows whose key they do not carry. *)
Lemma drop_duplicates_app stored fresh :
  NoDup (map bar_key fresh) ->
  drop_duplicates (stored ++ fresh) = kept fresh (drop_duplicates stored) ++ fresh.
Proof.
  intros Hf. induction stored as [|x r IH]; cbn.
  - now apply drop_duplicates_fixed.
  - fold (key_in (bar_key x) (r ++ fresh)) (key_in (bar_key x) r).
    rewrite key_in_app.
    destruct (key_in (bar_key x) r); cbn [orb]; [exact IH|].
    cbn [kept filter]. fold (kept fresh (drop_duplicates r)).
    destruct (key_in (bar_key x) fresh); cbn [negb]; rewrite IH; reflexivity.
Qed.

Lemma merged_eq stored fresh :
  NoDup (map bar_key fresh) ->
  merged stored fresh = kept fresh (drop_duplicates stored) ++ fresh.
Proof.
  intros Hf. unfold merged. destruct stored as [|x r]; [reflexivity|].
  cbn [is_empty]. now apply drop_duplicates_app.
Qed.

Lemma kept_fixed fresh rows :
  (forall b, In b rows -> key_in (bar_key b) fresh = false) ->
  kept fresh rows = rows.
Proof.
  intros H. induction rows as [|x r IH]; cbn; [reflexivity|].
  rewrite (H x) by now left. cbn. f_equal. apply IH. intros b Hb. apply H. now right.
Qed.

Lemma kept_none fresh rows :
  (forall b, In b rows -> In b fresh) -> kept fresh rows = [].
Proof.
  intros H. induction rows as [|x r IH]; cbn; [reflexivity|].
  assert (E : key_in (bar_key x) fresh = true).
  { apply key_in_In, in_map. apply H. now left. }
  rewrite E. cbn. apply IH. intros b Hb. apply H. now right.
Qed.

Lemma kept_spec fresh rows b :
  In b (kept fresh rows) -> key_in (bar_key b) fresh = false.
Proof.
  unfold kept. rewrite filter_In. intros [_ H]. now apply negb_true_iff.
Qed.

Lemma NoDup_map_skipn {A B} (f : A -> B) n (l : list A) :
  NoDup (map f l) -> NoDup (map f (skipn n l)).
Proof.
  revert n. induction l as [|x r IH]; intros [|n] H; cbn; try assumption.
  apply IH. now inversion H.
Qed.

Lemma NoDup_map_filter {A B} (f : A -> B) p (l : list A) :
  NoDup (map f l) -> NoDup (map f (filter p l)).
Proof.
  induction l as [|x r IH]; cbn; intros H; [constructor|].
  inversion H as [|? ? Hx Hr]; subst.
  destruct (p x); cbn; [constructor|]; auto.
  intros Hin. apply Hx. apply in_map_iff in Hin. destruct Hin as (y & E & Hy).
  apply filter_In in Hy. apply in_map_iff. exists y. tauto.
Qed.

Lemma In_skipn {A} n (l : list A) x : In x (skipn n l) -> In x l.
Proof.
  revert n. induction l as [|y r IH]; intros [|n]; cbn; try tauto.
  intros H. right. now apply (IH n).
Qed.

(** A series made of untouched old rows followed by the whole fresh frame is
    a fixed point of the merge. *)
Lemma merged_fixed old fresh :
  NoDup (map bar_key fresh) ->
  NoDup (map bar_key old) ->
  (forall b, In b old -> key_in (bar_key b) fresh = false) ->
  merged (old ++ fresh) fresh = old ++ fresh.
Proof.
  intros Hf Ho Hd. rewrite merged_eq by assumption. f_equal.
  rewrite drop_duplicates_app by assumption.
  unfold kept at 1. rewrite filter_app. fold (kept fresh fresh).
  fold (kept fresh (kept fresh (drop_duplicates old))).
  rewrite (kept_none fresh fresh) by auto.
  rewrite app_nil_r, drop_duplicates_fixed by assumption.
  rewrite (kept_fixed fresh old Hd). apply (kept_fixed fresh old Hd).
Qed.

(** A series made of the last rows of the fresh frame is replaced by the
    whole frame. *)
Lemma merged_suffix n fresh :
  NoDup (map bar_key fresh) ->
  merged (skipn n fresh) fresh = fresh.
Proof.
  intros Hf. rewrite merged_eq by assumption.
  rewrite kept_none; [reflexivity|].
  intros b Hb. apply drop_duplicates_In in Hb. now apply In_skipn in Hb.
Qed.

(** Merging and trimming a second time, against the same fresh frame. *)
Lemma trimmed_merged_twice stored fresh :
  NoDup (map bar_key fresh) ->
  (len (merged stored fresh) <= 2000 \/ len fresh <= 1000 \/ 2000 < len fresh)%Z ->
  trimmed (merged (trimmed (merged stored fresh)) fresh) =
  trimmed (merged stored fresh).
Proof.
  intros Hf Hc. rewrite (merged_eq stored) by assumption.
  rewrite (merged_eq stored) in Hc by assumption.
  set (old := kept fresh (drop_duplicates stored)) in *.
  assert (Ho : NoDup (map bar_key old)).
  { unfold old, kept. apply NoDup_map_filter. apply drop_duplicates_NoDup. }
  assert (Hd : forall b, In b old -> key_in (bar_key b) fresh = false).
  { intros b Hb. now apply kept_spec in Hb. }
  unfold trimmed at 2 3.
  destruct (2000 <? len (old ++ fresh))%Z eqn:E.
  - apply Z.ltb_lt in E. unfold tail. rewrite skipn_app.
    unfold len in *. rewrite length_app in *.
    destruct Hc as [Hc | [Hc | Hc]]; [lia | |].
    + replace (List.length old + List.length fresh - Z.to_nat 1000 - List.length old)
        with 0 by lia.
      cbn [skipn]. rewrite merged_fixed; try assumption.
      * unfold trimmed.
        replace (2000 <? _)%Z with false; [reflexivity|].
        symmetry. apply Z.ltb_ge. unfold len. rewrite length_app, length_skipn. lia.
      * now apply NoDup_map_skipn.
      * intros b Hb. apply Hd. now apply In_skipn in Hb.
    + rewrite skipn_all2 by lia. cbn [app].
      rewrite merged_suffix by assumption.
      unfold trimmed. replace (2000 <? _)%Z with true by (symmetry; apply Z.ltb_lt; exact Hc).
      unfold tail. f_equal. lia.
  - rewrite merged_fixed by assumption. unfold trimmed. now rewrite E.
Qed.

(** *** The fresh frame has one row per key *)

Lemma ascii_compare_refl a : Ascii.compare a a = Eq.
Proof. unfold Ascii.compare. apply N.compare_refl. Qed.

Lemma ascii_compare_lt_trans a b c :
  Ascii.compare a b = Lt -> Ascii.compare b c = Lt -> Ascii.compare a c = Lt.
Proof.
  unfold Ascii.compare. rewrite !N.compare_lt_iff. apply N.lt_trans.
Qed.

Lemma key_lt_trans a b c : key_lt a b -> key_lt b c -> key_lt a c.
Proof.
  unfold key_lt. revert b c.
  induction a as [|x a IH]; intros [|y b] [|z c]; cbn; try discriminate; auto.
  destruct (Ascii.compare x y) eqn:Exy; try discriminate;
    destruct (Ascii.compare y z) eqn:Eyz; try discriminate; intros H1 H2.
  - apply Ascii.compare_eq_iff in Exy, Eyz. subst.
    rewrite ascii_compare_refl. eauto.
  - apply Ascii.compare_eq_iff in Exy. subst. now rewrite Eyz.
  - apply Ascii.compare_eq_iff in Eyz. subst. now rewrite Exy.
  - now rewrite (ascii_compare_lt_trans _ _ _ Exy Eyz).
Qed.

Lemma key_lt_irrefl a : ~ key_lt a a.
Proof.
  unfold key_lt. intros H.
  pose proof (String.compare_antisym a a) as E. rewrite H in E. discriminate.
Qed.

Lemma insert_key_In k keys x : In x (insert_key k keys) <-> x = k \/ In x keys.
Proof.
  induction keys as [|y r IH]; cbn; [intuition|].
  destruct (String.compare k y) eqn:E; cbn.
  - apply String.compare_eq_iff in E. subst. intuition.
  - intuition.
  - rewrite IH. intuition.
Qed.

Lemma insert_key_sorted k keys :
  StronglySorted key_lt keys -> StronglySorted key_lt (insert_key k keys).
Proof.
  induction 1 as [|y r Hs IH Hall]; cbn; [repeat constructor|].
  destruct (String.compare k y) eqn:E.
  - now constructor.
  - constructor; [now constructor|]. constructor; [exact E|].
    eapply Forall_impl; [|exact Hall]. intros z Hz. exact (key_lt_trans E Hz).
  - constructor; [exact IH|]. apply Forall_forall. intros z Hz.
    apply insert_key_In in Hz. destruct Hz as [->|Hz].
    + unfold key_lt. rewrite String.compare_antisym, E. reflexivity.
    + rewrite Forall_forall in Hall. now apply Hall.
Qed.

Lemma group_keys_In ticks k :
  In k (group_keys ticks) <-> exists t, In t ticks /\ symbol t = k.
Proof.
  induction ticks as [|t r IH]; cbn.
  - split; [tauto | intros (t & [] & _)].
  - rewrite insert_key_In, IH. split.
    + intros [->|(t' & Ht & E)]; eauto.
    + intros (t' & [->|Ht] & E); eauto.
Qed.

Lemma group_keys_NoDup ticks : NoDup (group_keys ticks).
Proof.
  assert (Hs : StronglySorted key_lt (group_keys ticks)).
  { induction ticks; cbn; [constructor | now apply insert_key_sorted]. }
  induction Hs as [|y r Hs IH Hall]; constructor; [|exact IH].
  intros Hin. rewrite Forall_forall in Hall. exact (key_lt_irrefl (Hall y Hin)).
Qed.

Lemma bins_NoDup width sorted : (0 < width)%Z -> NoDup (bins width sorted).
Proof.
  intros Hw. unfold bins. destruct sorted as [|first rest]; [constructor|].
  cbv zeta. generalize (S (Z.to_nat ((bucket width (timestamp (List.last rest first)) -
                                        bucket width (timestamp first)) / width))).
  intros n. generalize 0 as start. induction n as [|n IH]; intros start; cbn.
  - constructor.
  - constructor; [|apply IH].
    intros Hin. apply in_map_iff in Hin. destruct Hin as (i & E & Hi).
    apply in_seq in Hi. nia.
Qed.

Lemma groupby_resample_index {V} (how : list Tick -> V) width ticks :
  map fst (groupby_resample how width ticks) = group_index width ticks.
Proof.
  unfold groupby_resample, group_index.
  induction (group_keys ticks) as [|sym keys IH]; cbn; [reflexivity|].
  rewrite map_app, IH, map_map. reflexivity.
Qed.

Lemma group_index_NoDup width ticks :
  (0 < width)%Z -> NoDup (group_index width ticks).
Proof.
  intros Hw. unfold group_index.
  pose proof (group_keys_NoDup ticks) as Hk.
  induction Hk as [|sym keys Hsym Hk IH]; cbn; [constructor|].
  apply NoDup_app.
  - apply Finite.Injective_map_NoDup; [|now apply bins_NoDup].
    intros x y [= ->]. reflexivity.
  - exact IH.
  - intros [s z] H1 H2. apply in_map_iff in H1. destruct H1 as (z' & [= <- <-] & _).
    apply in_flat_map in H2. destruct H2 as (s' & Hs' & H2).
    apply in_map_iff in H2. destruct H2 as (z'' & [= <- <-] & _). contradiction.
Qed.

(** Every row of the grouped frame is the aggregate of the members of its
    symbol and bucket. *)
Lemma groupby_resample_row {V} (how : list Tick -> V) width ticks key v :
  In (key, v) (groupby_resample how width ticks) ->
  In (fst key) (group_keys ticks) /\ v = how (members width key ticks).
Proof.
  unfold groupby_resample. rewrite in_flat_map. intros (sym & Hsym & H).
  apply in_map_iff in H. destruct H as (label & [= <- <-] & _). now split.
Qed.

Lemma merge_row price_df volume_df b :
  In b (merge price_df volume_df) ->
  exists o v,
    In (bar_key b, o) price_df /\ In (bar_key b, v) volume_df /\
    open b = ohlc_open o /\ high b = ohlc_high o /\ low b = ohlc_low o /\
    close b = ohlc_close o /\ volume b = v.
Proof.
  unfold merge. rewrite in_flat_map. intros ([k o] & Hp & H).
  apply in_map_iff in H. destruct H as ([k' v] & <- & H).
  apply filter_In in H. destruct H as [Hv E]. cbn in E. apply key_eqb_eq in E. subst k'.
  exists o, v. destruct k as [sym z]. cbn. repeat split; assumption.
Qed.

Lemma matching_rows_unique {V} (k : string * Z) (volume_df : list ((string * Z) * V)) :
  NoDup (map fst volume_df) ->
  List.length (filter (fun v => key_eqb k (fst v)) volume_df) <= 1.
Proof.
  induction volume_df as [|[k' v] r IH]; cbn; [lia|].
  intros H. inversion H as [|? ? Hk Hr]; subst.
  destruct (key_eqb k k') eqn:E; [|now apply IH].
  apply key_eqb_eq in E. subst k'. cbn.
  replace (filter _ r) with (@nil ((string * Z) * V)); [cbn; lia|].
  symmetry. clear IH H Hr. induction r as [|[k'' v'] r IH]; cbn; [reflexivity|].
  destruct (key_eqb k k'') eqn:E.
  - apply key_eqb_eq in E. subst. exfalso. apply Hk. now left.
  - apply IH. intros Hin. apply Hk. now right.
Qed.

Lemma merge_NoDup price_df volume_df :
  NoDup (map fst price_df) -> NoDup (map fst volume_df) ->
  NoDup (map bar_key (merge price_df volume_df)).
Proof.
  intros Hp Hv. induction price_df as [|[k o] r IH]; cbn; [constructor|].
  inversion Hp as [|? ? Hk Hr]; subst. rewrite map_app. apply NoDup_app.
  - pose proof (@matching_rows_unique _ k _ Hv) as Hlen. cbn [fst].
    destruct (filter (fun v => key_eqb k (fst v)) volume_df) as [|v1 [|v2 rest]];
      cbn in *; [constructor | repeat constructor; intros [] | lia].
  - now apply IH.
  - intros k' H1 H2. apply in_map_iff in H1. destruct H1 as (b & <- & H1).
    apply in_map_iff in H1. destruct H1 as (v & <- & _).
    apply in_map_iff in H2. destruct H2 as (b' & E & H2).
    apply merge_row in H2. destruct H2 as (o' & _ & H2 & _).
    apply Hk. apply in_map_iff. exists (bar_key b', o'). split; [|exact H2].
    cbn [fst snd bar_key bar_symbol bar_timestamp] in *. rewrite E.
    now destruct k.
Qed.

Lemma resampled_df_NoDup width ticks :
  (0 < width)%Z -> NoDup (map bar_key (resampled_df width ticks)).
Proof.
  intros Hw. unfold resampled_df.
  apply merge_NoDup; rewrite groupby_resample_index; now apply group_index_NoDup.
Qed.

Lemma rule_pos tf : (0 < rule tf)%Z.
Proof. destruct tf; reflexivity. Qed.

Lemma updated_series_twice ticks tf stored :
  (len (merged stored (resampled_df (rule tf) ticks)) <= 2000 \/
   len (resampled_df (rule tf) ticks) <= 1000 \/
   2000 < len (resampled_df (rule tf) ticks))%Z ->
  updated_series ticks tf (updated_series ticks tf stored) =
  updated_series ticks tf stored.
Proof.
  intros Hc. unfold updated_series.
  fold (resampled_df (rule tf) ticks).
  match goal with |- context [if ?c then _ else _] => destruct c end;
    [|reflexivity].
  apply trimmed_merged_twice; [apply resampled_df_NoDup, rule_pos | exact Hc].
Qed.

(** C7 (as the code has it).  A second [resample_data] with the same
    argument and no tick added in between leaves the stored series of a
    timeframe as the first call left it, provided the first call did not
    have to trim that series (what it merged has at most 2000 bars), or the
    frame recomputed from the ticks has at most 1000 or more than 2000
    bars. *)
Theorem resample_data_twice now1 now2 sym self tf :
  (len (merged (lookup (resampled_data self) tf)
               (resampled_df (rule tf) (selected sym (tick_data self)))) <= 2000 \/
   len (resampled_df (rule tf) (selected sym (tick_data self))) <= 1000 \/
   2000 < len (resampled_df (rule tf) (selected sym (tick_data self))))%Z ->
  lookup (resampled_data (snd (resample_data now2 sym (snd (resample_data now1 sym self))))) tf =
  lookup (resampled_data (snd (resample_data now1 sym self))) tf.
Proof.
  intros Hc.
  destruct (resample_data_effect now1 sym self) as (_ & Ht1 & Hb1).
  destruct (resample_data_effect now2 sym (snd (resample_data now1 sym self)))
    as (_ & _ & Hb2).
  cbv zeta in *. rewrite Hb2, Ht1, Hb1.
  now apply updated_series_twice.
Qed.

(** C7 (as stated) fails.  In the reachable store [two_symbols] the 1 s
    series holds 1000 bars of "A" and the ticks of "B" span 1001 buckets.
    The first [resample_data("B")] merges 2001 bars and keeps the last 1000;
    the second finds all 1001 fresh bars again and stores them all. *)
Lemma resample_data_not_idempotent :
  reachable two_symbols /\
  tick_data (snd (resample_data 1 (Some "B"%string) two_symbols)) =
    tick_data two_symbols /\
  lookup (resampled_data
            (snd (resample_data 2 (Some "B"%string)
                    (snd (resample_data 1 (Some "B"%string) two_symbols))))) tf_1s <>
  lookup (resampled_data (snd (resample_data 1 (Some "B"%string) two_symbols))) tf_1s.
Proof.
  split; [|split].
  - unfold two_symbols. repeat apply reachable_step. apply reachable_init.
  - apply (resample_data_effect 1 (Some "B"%string) two_symbols).
  - assert (E2 : len (lookup (resampled_data
                    (snd (resample_data 2 (Some "B"%string)
                       (snd (resample_data 1 (Some "B"%string) two_symbols))))) tf_1s)
                 = 1001%Z) by (vm_compute; reflexivity).
    assert (E1 : len (lookup (resampled_data
                    (snd (resample_data 1 (Some "B"%string) two_symbols))) tf_1s)
                 = 1000%Z) by (vm_compute; reflexivity).
    intros H. rewrite H, E1 in E2. discriminate E2.
Qed.

(** *** Sorting a group by timestamp *)

Lemma insert_tick_perm t l : Permutation (insert_tick t l) (t :: l).
Proof.
  induction l as [|x r IH]; cbn; [reflexivity|].
  destruct (timestamp t <=? timestamp x)%Z; [reflexivity|].
  rewrite IH. apply perm_swap.
Qed.

Lemma sort_by_timestamp_perm l : Permutation (sort_by_timestamp l) l.
Proof.
  induction l as [|x r IH]; cbn; [reflexivity|].
  rewrite insert_tick_perm. now constructor.
Qed.

Lemma sort_by_timestamp_nil l : sort_by_timestamp l = [] -> l = [].
Proof.
  intros H. pose proof (sort_by_timestamp_perm l) as P. rewrite H in P.
  now apply Permutation_nil.
Qed.

Lemma insert_tick_sorted t l :
  StronglySorted ts_le l -> StronglySorted ts_le (insert_tick t l).
Proof.
  induction 1 as [|x r Hs IH Hall]; cbn; [repeat constructor|].
  destruct (timestamp t <=? timestamp x)%Z eqn:E.
  - apply Z.leb_le in E. constructor; [now constructor|].
    constructor; [exact E|]. eapply Forall_impl; [|exact Hall].
    unfold ts_le. intros; lia.
  - apply Z.leb_gt in E. constructor; [exact IH|].
    apply Forall_forall. intros y Hy.
    apply (Permutation_in _ (insert_tick_perm t r)) in Hy.
    destruct Hy as [<-|Hy]; [unfold ts_le; lia|].
    rewrite Forall_forall in Hall. now apply Hall.
Qed.

Lemma sort_by_timestamp_sorted l : StronglySorted ts_le (sort_by_timestamp l).
Proof.
  induction l; cbn; [constructor | now apply insert_tick_sorted].
Qed.

Lemma insert_tick_front t l :
  (forall y, In y l -> (timestamp t <= timestamp y)%Z) -> insert_tick t l = t :: l.
Proof.
  destruct l as [|x r]; cbn; [reflexivity|]. intros H.
  assert (E : (timestamp t <=? timestamp x)%Z = true) by (apply Z.leb_le, H; now left).
  now rewrite E.
Qed.

Lemma insert_tick_back t l :
  (forall y, In y l -> (timestamp y < timestamp t)%Z) -> insert_tick t l = l ++ [t].
Proof.
  induction l as [|x r IH]; cbn; [reflexivity|]. intros H.
  assert (E : (timestamp t <=? timestamp x)%Z = false)
    by (apply Z.leb_gt, H; now left).
  rewrite E. f_equal. apply IH. intros y Hy. apply H. now right.
Qed.

Lemma insert_tick_keeps_last t l z :
  (timestamp t <= timestamp z)%Z ->
  exists l', insert_tick t (l ++ [z]) = l' ++ [z].
Proof.
  intros Hz. induction l as [|x r [l' IH]]; cbn.
  - apply Z.leb_le in Hz. rewrite Hz. now exists [t].
  - destruct (timestamp t <=? timestamp x)%Z.
    + now exists (t :: x :: r).
    + rewrite IH. now exists (x :: l').
Qed.

(** Selecting rows commutes with the stable sort. *)
Lemma filter_insert_tick p t l :
  StronglySorted ts_le l ->
  filter p (insert_tick t l) =
  if p t then insert_tick t (filter p l) else filter p l.
Proof.
  induction 1 as [|x r Hs IH Hall]; cbn.
  - now destruct (p t).
  - destruct (timestamp t <=? timestamp x)%Z eqn:E; cbn.
    + destruct (p t) eqn:Ep; [|reflexivity].
      symmetry. apply Z.leb_le in E. apply insert_tick_front.
      intros y Hy. rewrite Forall_forall in Hall.
      destruct (p x); [destruct Hy as [<-|Hy]; [exact E|]|];
        apply filter_In in Hy; destruct Hy as [Hy _];
        specialize (Hall y Hy); unfold ts_le in Hall; lia.
    + rewrite IH. destruct (p x), (p t); cbn; rewrite ?E; reflexivity.
Qed.

Lemma filter_sort_by_timestamp p l :
  filter p (sort_by_timestamp l) = sort_by_timestamp (filter p l).
Proof.
  induction l as [|x r IH]; [reflexivity|].
  change (sort_by_timestamp (x :: r)) with (insert_tick x (sort_by_timestamp r)).
  rewrite filter_insert_tick by apply sort_by_timestamp_sorted.
  rewrite IH. cbn [filter]. now destruct (p x).
Qed.

Lemma chronologically_first_le t l x :
  chronologically_first t l -> In x l -> (timestamp t <= timestamp x)%Z.
Proof.
  intros (pre & post & -> & Hpre & Hpost) Hx.
  apply in_app_or in Hx. destruct Hx as [Hx|[<-|Hx]].
  - specialize (Hpre x Hx). lia.
  - lia.
  - now apply Hpost.
Qed.

Lemma chronologically_last_ge t l x :
  chronologically_last t l -> In x l -> (timestamp x <= timestamp t)%Z.
Proof.
  intros (pre & post & -> & Hpre & Hpost) Hx.
  apply in_app_or in Hx. destruct Hx as [Hx|[<-|Hx]].
  - now apply Hpre.
  - lia.
  - specialize (Hpost x Hx). lia.
Qed.

(** The head of the sorted group is the first tick in time, ties going to
    the tick ingested first. *)
Lemma sort_by_timestamp_head l : forall t rest,
  sort_by_timestamp l = t :: rest -> chronologically_first t l.
Proof.
  induction l as [|a l IH]; intros t rest; [discriminate|].
  change (sort_by_timestamp (a :: l)) with (insert_tick a (sort_by_timestamp l)).
  destruct (sort_by_timestamp l) as [|t' rest'] eqn:Es.
  - apply sort_by_timestamp_nil in Es. subst l. cbn. intros [= <- <-].
    exists [], []. repeat split; intros x [].
  - specialize (IH t' rest' eq_refl). cbn.
    destruct (timestamp a <=? timestamp t')%Z eqn:E.
    + apply Z.leb_le in E. intros [= <- <-].
      exists [], l. repeat split; [intros x []|].
      intros x Hx. pose proof (@chronologically_first_le _ _ _ IH Hx). lia.
    + apply Z.leb_gt in E. intros [= <- <-].
      destruct IH as (pre & post & -> & Hpre & Hpost).
      exists (a :: pre), post. repeat split; [|exact Hpost].
      intros x [<-|Hx]; [exact E | now apply Hpre].
Qed.

(** The end of the sorted group is the last tick in time, ties going to the
    tick ingested last. *)
Lemma sort_by_timestamp_last l : forall t rest,
  sort_by_timestamp l = rest ++ [t] -> chronologically_last t l.
Proof.
  induction l as [|a l IH]; intros t rest.
  - cbn. intros H. now destruct rest.
  - change (sort_by_timestamp (a :: l)) with (insert_tick a (sort_by_timestamp l)).
    destruct (sort_by_timestamp l) as [|x s] eqn:Es.
    + apply sort_by_timestamp_nil in Es. subst l. cbn. intros H.
      assert (t = a /\ rest = []) as [-> ->].
      { destruct rest as [|y [|]]; cbn in H; try discriminate.
        injection H as ->. now split. }
      exists [], []. repeat split; intros x [].
    + destruct (exists_last (l:=x :: s)) as (s' & t' & Es'); [discriminate|].
      rewrite Es' in *. specialize (IH t' s' eq_refl).
      destruct (Z.le_gt_cases (timestamp a) (timestamp t')) as [Hle|Hgt].
      * destruct (insert_tick_keeps_last a s' t' Hle) as [l' El'].
        rewrite El'. intros H. apply app_inj_tail in H. destruct H as [_ ->].
        destruct IH as (pre & post & -> & Hpre & Hpost).
        exists (a :: pre), post. repeat split; [|exact Hpost].
        intros y [<-|Hy]; [exact Hle | now apply Hpre].
      * rewrite insert_tick_back.
        -- intros H. apply app_inj_tail in H. destruct H as [_ ->].
           exists [], l. repeat split; [intros y []|].
           intros y Hy. pose proof (@chronologically_last_ge _ _ _ IH Hy). lia.
        -- intros y Hy. rewrite <- Es in Hy.
           apply (Permutation_in _ (sort_by_timestamp_perm l)) in Hy.
           pose proof (@chronologically_last_ge _ _ _ IH Hy). lia.
Qed.

(** *** The aggregates of one bucket *)

Lemma Qmax_cases x y : Qmax x y = x \/ Qmax x y = y.
Proof.
  unfold Qmax, GenericMinMax.gmax. destruct (x ?= y)%Q; auto.
Qed.

Lemma Qmin_cases x y : Qmin x y = x \/ Qmin x y = y.
Proof.
  unfold Qmin, GenericMinMax.gmin. destruct (x ?= y)%Q; auto.
Qed.

Lemma fold_Qmax l : forall x,
  is_maximum (fold_left Qmax l x) (x :: l).
Proof.
  induction l as [|y l IH]; intros x; cbn [fold_left].
  - split; [now left|]. intros z [<-|[]]. apply Qle_refl.
  - destruct (IH (Qmax x y)) as [Hin Hle]. split.
    + destruct Hin as [E|Hin]; [|now right; right].
      rewrite <- E. destruct (Qmax_cases x y) as [->| ->]; [now left | now right; left].
    + intros z [<-|[<-|Hz]].
      * eapply Qle_trans; [apply Q.le_max_l | apply Hle; now left].
      * eapply Qle_trans; [apply Q.le_max_r | apply Hle; now left].
      * apply Hle. now right.
Qed.

Lemma fold_Qmin l : forall x,
  is_minimum (fold_left Qmin l x) (x :: l).
Proof.
  induction l as [|y l IH]; intros x; cbn [fold_left].
  - split; [now left|]. intros z [<-|[]]. apply Qle_refl.
  - destruct (IH (Qmin x y)) as [Hin Hle]. split.
    + destruct Hin as [E|Hin]; [|now right; right].
      rewrite <- E. destruct (Qmin_cases x y) as [->| ->]; [now left | now right; left].
    + intros z [<-|[<-|Hz]].
      * eapply Qle_trans; [apply Hle; now left | apply Q.le_min_l].
      * eapply Qle_trans; [apply Hle; now left | apply Q.le_min_r].
      * apply Hle. now right.
Qed.

Lemma is_maximum_perm m l l' : Permutation l l' -> is_maximum m l -> is_maximum m l'.
Proof.
  intros P [Hin Hle]. split.
  - now apply (Permutation_in _ P).
  - intros x Hx. apply Hle. now apply (Permutation_in _ (Permutation_sym P)).
Qed.

Lemma is_minimum_perm m l l' : Permutation l l' -> is_minimum m l -> is_minimum m l'.
Proof.
  intros P [Hin Hle]. split.
  - now apply (Permutation_in _ P).
  - intros x Hx. apply Hle. now apply (Permutation_in _ (Permutation_sym P)).
Qed.

Lemma fold_Qplus_shift l : forall a,
  (fold_left Qplus l a == a + agg_sum l)%Q.
Proof.
  unfold agg_sum. induction l as [|y l IH]; intros a; cbn [fold_left].
  - ring.
  - rewrite (IH (a + y)%Q), (IH (0 + y)%Q). ring.
Qed.

Lemma agg_sum_cons y l : (agg_sum (y :: l) == y + agg_sum l)%Q.
Proof.
  unfold agg_sum at 1. cbn [fold_left]. rewrite fold_Qplus_shift. ring.
Qed.

(** The sum of a column does not depend on the order of the rows. *)
Lemma agg_sum_perm l l' : Permutation l l' -> (agg_sum l == agg_sum l')%Q.
Proof.
  induction 1 as [|x l l' P IH|x y l|l l' l'' P1 IH1 P2 IH2].
  - reflexivity.
  - rewrite !agg_sum_cons, IH. reflexivity.
  - rewrite !agg_sum_cons. ring.
  - now rewrite IH1.
Qed.

(** *** The bars of the fresh frame *)

Lemma filter_filter_absorb {A} (f g : A -> bool) l :
  (forall x, f x = true -> g x = true) -> filter f (filter g l) = filter f l.
Proof.
  intros H. induction l as [|x r IH]; cbn; [reflexivity|].
  destruct (g x) eqn:Eg; cbn.
  - now rewrite IH.
  - destruct (f x) eqn:Ef; [|exact IH].
    apply H in Ef. congruence.
Qed.

Lemma filter_filter_and {A} (f g : A -> bool) l :
  filter f (filter g l) = filter (fun x => g x && f x) l.
Proof.
  induction l as [|x r IH]; cbn; [reflexivity|].
  destruct (g x); cbn; [destruct (f x)|]; now rewrite IH.
Qed.

(** The members of a bar's bucket are its bucket ticks, sorted. *)
Lemma members_sorted_bucket width b ticks :
  members width (bar_key b) ticks = sort_by_timestamp (bucket_ticks width b ticks).
Proof.
  unfold members, bucket_ticks, select_symbol. cbn [bar_key fst snd].
  now rewrite filter_sort_by_timestamp, filter_filter_and.
Qed.

Lemma bar_matches_sorted b ticks :
  let sorted := sort_by_timestamp ticks in
  open b = agg_first (map price sorted) ->
  high b = agg_max (map price sorted) ->
  low b = agg_min (map price sorted) ->
  close b = agg_last (map price sorted) ->
  volume b = agg_sum (map quantity sorted) ->
  bar_matches b ticks.
Proof.
  intros sorted Ho Hh Hl Hc Hv.
  pose proof (sort_by_timestamp_perm ticks) as P. fold sorted in P.
  split.
  - rewrite Hv. apply agg_sum_perm, Permutation_map, P.
  - destruct ticks as [|t0 ticks0]; [cbn in *; tauto|].
    destruct sorted as [|first rest] eqn:Es.
    { apply Permutation_nil in P. discriminate. }
    destruct (exists_last (l:=first :: rest)) as (front & last & El); [discriminate|].
    exists first, last, (fold_left Qmax (map price rest) (price first)),
      (fold_left Qmin (map price rest) (price first)).
    repeat split.
    + eapply sort_by_timestamp_head. exact Es.
    + exact Ho.
    + eapply sort_by_timestamp_last. unfold sorted in Es. rewrite Es. exact El.
    + rewrite Hc. cbn [map agg_last]. f_equal.
      destruct front as [|f0 front].
      * cbn in El. injection El as -> ->. reflexivity.
      * cbn in El. injection El as -> ->. rewrite map_app. cbn [map].
        apply last_last.
    + apply (Permutation_in _ (Permutation_map price P)).
      destruct (fold_Qmax (map price rest) (price first)) as [Hin _]. exact Hin.
    + intros x Hx. destruct (fold_Qmax (map price rest) (price first)) as [_ Hle].
      apply Hle. apply (Permutation_in _ (Permutation_sym (Permutation_map price P))), Hx.
    + exact Hh.
    + apply (Permutation_in _ (Permutation_map price P)).
      destruct (fold_Qmin (map price rest) (price first)) as [Hin _]. exact Hin.
    + intros x Hx. destruct (fold_Qmin (map price rest) (price first)) as [_ Hle].
      apply Hle. apply (Permutation_in _ (Permutation_sym (Permutation_map price P))), Hx.
    + exact Hl.
Qed.

(** Every bar of the fresh frame of a timeframe matches the ticks of its
    bucket among the ticks it was computed from. *)
Lemma resampled_df_bar width ticks b :
  In b (resampled_df width ticks) ->
  In (bar_symbol b) (group_keys ticks) /\
  bar_matches b (bucket_ticks width b ticks).
Proof.
  intros Hb. apply merge_row in Hb.
  destruct Hb as (o & v & Hp & Hv & Ho & Hh & Hl & Hc & Hvol).
  apply groupby_resample_row in Hp. destruct Hp as [Hk ->].
  apply groupby_resample_row in Hv. destruct Hv as [_ ->].
  split; [exact Hk|].
  rewrite members_sorted_bucket in *.
  apply bar_matches_sorted; assumption.
Qed.

Lemma selected_bucket_ticks width sym ticks b :
  In (bar_symbol b) (group_keys (selected sym ticks)) ->
  bucket_ticks width b (selected sym ticks) = bucket_ticks width b ticks.
Proof.
  intros Hk. unfold selected in *. destruct sym as [x|]; [|reflexivity].
  destruct (truthy (Some x)); [|reflexivity].
  apply group_keys_In in Hk. destruct Hk as (t & Ht & E).
  apply filter_In in Ht. destruct Ht as [_ Ht]. apply String.eqb_eq in Ht.
  unfold bucket_ticks, select_symbol. apply filter_filter_absorb.
  intros y Hy. apply andb_true_iff in Hy. destruct Hy as [Hy _].
  apply String.eqb_eq in Hy. apply String.eqb_eq. congruence.
Qed.

Lemma updated_series_In ticks tf stored b :
  In b (updated_series ticks tf stored) ->
  In b stored \/ In b (resampled_df (rule tf) ticks).
Proof.
  unfold updated_series. fold (resampled_df (rule tf) ticks).
  match goal with |- context [if ?c then _ else _] => destruct c end; [|tauto].
  unfold trimmed, merged, tail. intros H.
  assert (H' : In b (if is_empty stored then resampled_df (rule tf) ticks
                     else drop_duplicates (stored ++ resampled_df (rule tf) ticks))).
  { destruct (2000 <? _)%Z; [now apply In_skipn in H | exact H]. }
  destruct (is_empty stored); [now right|].
  apply drop_duplicates_In, in_app_or in H'. exact H'.
Qed.

(** When nothing has to be trimmed, every bar of the fresh frame is stored. *)
Lemma updated_series_keeps_fresh ticks tf stored b :
  (len (merged stored (resampled_df (rule tf) ticks)) <= 2000)%Z ->
  In b (resampled_df (rule tf) ticks) ->
  In b (updated_series ticks tf stored).
Proof.
  intros Hlen Hb.
  pose proof (@resampled_df_NoDup _ ticks (rule_pos tf)) as Hf.
  unfold updated_series. fold (resampled_df (rule tf) ticks).
  assert (Hc : negb (is_empty ticks) &&
               (negb (is_empty (groupby_resample agg_ohlc (rule tf) ticks)) &&
                negb (is_empty (groupby_resample agg_volume (rule tf) ticks))) = true).
  { apply merge_row in Hb. destruct Hb as (o & v & Hp & Hv & _).
    destruct ticks as [|t0 r]; [destruct Hp|].
    destruct (groupby_resample agg_ohlc _ _); [destruct Hp|].
    destruct (groupby_resample agg_volume _ _); [destruct Hv|]. reflexivity. }
  rewrite Hc. unfold trimmed.
  replace (2000 <? _)%Z with false by (symmetry; apply Z.ltb_ge; exact Hlen).
  rewrite merged_eq by exact Hf. apply in_or_app. now right.
Qed.

(** *** The bucket of a bar *)

Lemma bins_multiple width sorted label :
  In label (bins width sorted) -> (width | label)%Z.
Proof.
  unfold bins. destruct sorted as [|first rest]; [intros []|].
  cbv zeta. intros H. apply in_map_iff in H. destruct H as (i & <- & _).
  unfold bucket. exists (timestamp first / width + Z.of_nat i)%Z. ring.
Qed.

(** The timestamp of a bar is a multiple of the width of its timeframe. *)
Lemma resampled_df_multiple width ticks b :
  In b (resampled_df width ticks) -> (width | bar_timestamp b)%Z.
Proof.
  intros Hb. apply merge_row in Hb. destruct Hb as (o & _ & Hp & _).
  apply (in_map fst) in Hp. rewrite groupby_resample_index in Hp.
  unfold group_index in Hp. apply in_flat_map in Hp. destruct Hp as (sym & _ & Hp).
  apply in_map_iff in Hp. destruct Hp as (label & E & Hl).
  cbn [fst] in E. unfold bar_key in E. inversion E; subst.
  eapply bins_multiple. exact Hl.
Qed.

(** A timestamp falls in the bucket labelled [label] exactly when it lies
    in the interval of that width that starts at the label. *)
Lemma bucket_window width label ts :
  (0 < width)%Z -> (width | label)%Z ->
  (bucket width ts =? label)%Z = ((label <=? ts)%Z && (ts <? label + width)%Z).
Proof.
  intros Hw [k ->]. unfold bucket.
  pose proof (Z.mul_div_le ts width Hw) as H1.
  pose proof (Z.mul_succ_div_gt ts width Hw) as H2.
  destruct (Z.eqb_spec (ts / width * width) (k * width)) as [E|E];
    destruct (Z.leb_spec (k * width) ts); destruct (Z.ltb_spec ts (k * width + width));
    cbn; try reflexivity; exfalso; try nia.
  apply E. f_equal. nia.
Qed.

Lemma bucket_ticks_window width ticks b buffer :
  (0 < width)%Z -> In b (resampled_df width ticks) ->
  bucket_ticks width b buffer = ticks_of_bar width b buffer.
Proof.
  intros Hw Hb. unfold bucket_ticks, ticks_of_bar, covered_by.
  apply filter_ext. intros t. f_equal.
  apply bucket_window; [exact Hw|]. eapply resampled_df_multiple. exact Hb.
Qed.

Lemma bar_matches_summarises b ticks :
  bar_matches b ticks ->
  (ticks <> [] -> summarises b ticks) /\
  (ticks = [] ->
   open b = None /\ high b = None /\ low b = None /\ close b = None /\
   (volume b == 0)%Q).
Proof.
  intros [Hv H]. split.
  - intros Hne. destruct ticks as [|t r]; [contradiction|].
    destruct H as (first & last & hi & lo & H1 & H2 & H3 & H4 & H5 & H6 & H7 & H8).
    exists first, last, hi, lo. repeat split; try assumption; try apply H5; try apply H7.
  - intros ->. destruct H as (H1 & H2 & H3 & H4). repeat split; assumption.
Qed.

(** C1 (as stated) fails.  Two BTCUSDT ticks 3 s apart give four 1 s bars:
    pandas also emits the two buckets in between.  The bar that starts at
    1 s is stored, no tick lies in its bucket, so its open is the price of
    no tick: all four prices are undefined. *)
Lemma resample_data_empty_bucket :
  let bar := {| bar_timestamp := 1000000000; bar_symbol := "BTCUSDT";
                open := None; high := None; low := None; close := None;
                volume := 0%Q |} in
  reachable gap_ticks /\
  In bar (lookup (resampled_data (snd (resample_data 1 None gap_ticks))) tf_1s) /\
  ticks_of_bar (rule tf_1s) bar (tick_data gap_ticks) = [] /\
  ~ summarises bar (ticks_of_bar (rule tf_1s) bar (tick_data gap_ticks)).
Proof.
  cbv zeta. split; [|split; [|split]].
  - unfold gap_ticks. repeat apply reachable_step. apply reachable_init.
  - vm_compute. right. left. reflexivity.
  - vm_compute. reflexivity.
  - intros (first & _ & _ & _ & (before & after & E & _) & _).
    vm_compute in E. destruct before; discriminate E.
Qed.

(** C1 (amended).  What [resample_data] puts into a stored series: every
    bar there afterwards was stored before or belongs to the frame computed
    from the selected ticks, and every bar of that frame is stored unless
    the series had to be trimmed.  The timestamp of a bar of the frame is a
    multiple of the width of the timeframe, and the bar stands for the ticks
    of its symbol in the buffer from that timestamp to one width later.
    When there is such a tick, open is the price of the first of them in
    time, close the price of the last in time (ticks of equal timestamp in
    ingestion order), high and low are the largest and the smallest price
    and volume is the sum of the quantities.  When there is none, the four
    prices are undefined and the volume is 0.  The three BTCUSDT ticks at
    0 s, 0.5 s and 0.9 s give exactly one 1 s bar: open 100, high 101,
    low 99, close 99, volume 4. *)
Theorem resample_data_ohlcv :
  (forall now sym self tf b,
     In b (lookup (resampled_data (snd (resample_data now sym self))) tf) ->
     In b (lookup (resampled_data self) tf) \/
     In b (resampled_df (rule tf) (selected sym (tick_data self)))) /\
  (forall now sym self tf b,
     (len (merged (lookup (resampled_data self) tf)
                  (resampled_df (rule tf) (selected sym (tick_data self)))) <= 2000)%Z ->
     In b (resampled_df (rule tf) (selected sym (tick_data self))) ->
     In b (lookup (resampled_data (snd (resample_data now sym self))) tf)) /\
  (forall sym self tf b,
     In b (resampled_df (rule tf) (selected sym (tick_data self))) ->
     (rule tf | bar_timestamp b)%Z /\
     (ticks_of_bar (rule tf) b (tick_data self) <> [] ->
      summarises b (ticks_of_bar (rule tf) b (tick_data self))) /\
     (ticks_of_bar (rule tf) b (tick_data self) = [] ->
      open b = None /\ high b = None /\ low b = None /\ close b = None /\
      (volume b == 0)%Q)) /\
  resample_data 1 None three_ticks =
    (Ok tt, snd (resample_data 1 None three_ticks)) /\
  lookup (resampled_data (snd (resample_data 1 None three_ticks))) tf_1s =
    [ {| bar_timestamp := 0; bar_symbol := "BTCUSDT";
         open := Some 100%Q; high := Some 101%Q; low := Some 99%Q;
         close := Some 99%Q; volume := 4%Q |} ].
Proof.
  split; [|split; [|split; [|split]]].
  - intros now sym self tf b.
    destruct (resample_data_effect now sym self) as (_ & _ & Hb).
    cbv zeta in Hb. rewrite Hb. apply updated_series_In.
  - intros now sym self tf b Hlen Hb.
    destruct (resample_data_effect now sym self) as (_ & _ & Hs).
    cbv zeta in Hs. rewrite Hs. now apply updated_series_keeps_fresh.
  - intros sym self tf b Hb.
    split; [eapply resampled_df_multiple; exact Hb|].
    rewrite <- (@bucket_ticks_window _ _ b (tick_data self) (rule_pos tf) Hb).
    apply bar_matches_summarises.
    apply resampled_df_bar in Hb.
    destruct Hb as [Hk Hm]. now rewrite selected_bucket_ticks in Hm.
  - vm_compute. reflexivity.
  - vm_compute. reflexivity.
Qed.

(** The sibling path: in [resample_data] the same failure of the sink is
    caught and printed, the call returns, and the bars are stored. *)
Lemma resample_data_sink_failure_logged :
  fst (resample_data 1 None three_ticks_failing_sink) = Ok tt /\
  stdout (snd (resample_data 1 None three_ticks_failing_sink)) =
    ["Error resampling 1s: OperationalError"%string] /\
  lookup (resampled_data (snd (resample_data 1 None three_ticks_failing_sink))) tf_1s =
    lookup (resampled_data (snd (resample_data 1 None three_ticks))) tf_1s.
Proof. vm_compute. repeat split. Qed.

(** *** Examples *)

Lemma resample_data_ohlcv_witness :
  let bar := {| bar_timestamp := 0; bar_symbol := "BTCUSDT";
                open := Some 100%Q; high := Some 101%Q; low := Some 99%Q;
                close := Some 99%Q; volume := 4%Q |} in
  In bar (resampled_df (rule tf_1s) (selected None (tick_data three_ticks))) /\
  ticks_of_bar (rule tf_1s) bar (tick_data three_ticks) = tick_data three_ticks /\
  summarises bar (ticks_of_bar (rule tf_1s) bar (tick_data three_ticks)).
Proof.
  cbv zeta.
  assert (H : In {| bar_timestamp := 0; bar_symbol := "BTCUSDT";
                    open := Some 100%Q; high := Some 101%Q; low := Some 99%Q;
                    close := Some 99%Q; volume := 4%Q |}
                 (resampled_df (rule tf_1s) (selected None (tick_data three_ticks)))).
  { vm_compute. left. reflexivity. }
  split; [exact H|]. split; [vm_compute; reflexivity|].
  apply (proj1 (proj2 (proj1 (proj2 (proj2 resample_data_ohlcv))
                         None three_ticks tf_1s _ H))).
  vm_compute. discriminate.
Defined.

Lemma add_tick_sink_failure_propagates_witness :
  conn failing_sink = Some {| written := []; faults := [true] |} /\
  fst (add_tick (tick 0 "BTCUSDT" 100 1) failing_sink) = Raise "OperationalError" /\
  stdout (snd (add_tick (tick 0 "BTCUSDT" 100 1) failing_sink)) = stdout failing_sink /\
  exists before,
    tick_data (snd (add_tick (tick 0 "BTCUSDT" 100 1) failing_sink)) =
    before ++ [tick 0 "BTCUSDT" 100 1].
Proof.
  split; [reflexivity|].
  apply (@add_tick_sink_failure_propagates failing_sink (tick 0 "BTCUSDT" 100 1)
           {| written := []; faults := [true] |} []); reflexivity.
Defined.

Lemma resample_data_twice_witness :
  (len (resampled_df (rule tf_1s) (selected None (tick_data three_ticks))) <= 1000)%Z /\
  lookup (resampled_data
            (snd (resample_data 2 None (snd (resample_data 1 None three_ticks))))) tf_1s =
  lookup (resampled_data (snd (resample_data 1 None three_ticks))) tf_1s.
Proof.
  assert (H : (len (resampled_df (rule tf_1s) (selected None (tick_data three_ticks)))
               <= 1000)%Z).
  { apply Z.leb_le. vm_compute. reflexivity. }
  split; [exact H|].
  apply (@resample_data_twice 1 2 None three_ticks tf_1s). right. left. exact H.
Defined.

Lemma buffers_bounded_witness :
  reachable two_symbols /\
  (len (tick_data two_symbols) <= 10000)%Z /\
  forall tf, (len (lookup (resampled_data two_symbols) tf) <= 2000)%Z.
Proof.
  assert (H : reachable two_symbols).
  { unfold two_symbols. repeat apply reachable_step. apply reachable_init. }
  split; [exact H|]. exact (buffers_bounded H).
Defined.

(** *** Reading the tick buffer *)

Lemma tail_suffix {A} n (l : list A) :
  (0 <= n)%Z ->
  exists older, l = older ++ tail n l /\ len (tail n l) = Z.min n (len l).
Proof.
  intros Hn. unfold tail. exists (firstn (List.length l - Z.to_nat n) l).
  split; [now rewrite firstn_skipn|].
  unfold len. rewrite length_skipn. lia.
Qed.

(** X7.  [get_latest_ticks] with a limit that is not negative returns the
    last [limit] ticks of the buffer, or of the ticks of the given symbol:
    the answer is the end of that selection, it has [min(limit, size)]
    ticks, every tick in it has the symbol asked for, and the store is left
    as it was. *)
Theorem get_latest_ticks_recent sym limit self :
  (0 <= limit)%Z ->
  exists ticks older,
    get_latest_ticks sym limit self = (Ok ticks, self) /\
    selected sym (tick_data self) = older ++ ticks /\
    len ticks = Z.min limit (len (selected sym (tick_data self))) /\
    forall x, sym = Some x -> truthy sym = true ->
              forall t, In t ticks -> symbol t = x.
Proof.
  intros Hl. unfold get_latest_ticks, bind, get, ret, tail_rows.
  replace (limit <? 0)%Z with false by (symmetry; apply Z.ltb_ge; exact Hl).
  destruct (tail_suffix (selected sym (tick_data self)) Hl) as (older & E & L).
  eexists _, older. split; [reflexivity|]. split; [exact E|]. split; [exact L|].
  intros x -> Ht t Hin. unfold selected in *. rewrite Ht in *.
  assert (Hsel : In t (select_symbol x (tick_data self))).
  { rewrite E. apply in_or_app. now right. }
  apply filter_In in Hsel. now apply String.eqb_eq.
Qed.

(** X8.  What [add_tick] leaves in the buffer.  Below the high-water mark
    the tick is appended and nothing is dropped.  At the mark (10000 ticks
    held) the buffer becomes the last 4999 of them followed by the new
    tick: exactly 5000 ticks, the oldest 5001 gone. *)
Theorem add_tick_eviction tick self :
  ((len (tick_data self) < 10000)%Z ->
   tick_data (snd (add_tick tick self)) = tick_data self ++ [tick]) /\
  ((len (tick_data self) = 10000)%Z ->
   tick_data (snd (add_tick tick self)) =
     skipn (Z.to_nat 5001) (tick_data self) ++ [tick] /\
   len (tick_data (snd (add_tick tick self))) = 5000%Z).
Proof.
  destruct (add_tick_memory tick self) as (-> & _).
  unfold len. rewrite length_app. cbn [List.length]. split; intros H.
  - replace (10000 <? _)%Z with false by (symmetry; apply Z.ltb_ge; lia).
    reflexivity.
  - replace (10000 <? _)%Z with true by (symmetry; apply Z.ltb_lt; lia).
    unfold tail. rewrite length_app. cbn [List.length].
    rewrite skipn_app.
    replace (List.length (tick_data self) + 1 - Z.to_nat 5000) with (Z.to_nat 5001) by lia.
    replace (Z.to_nat 5001 - List.length (tick_data self)) with 0 by lia.
    cbn [skipn]. split; [reflexivity|].
    rewrite length_app, length_skipn. cbn [List.length]. lia.
Qed.

(** X9.  The tick just ingested is the most recent one: after [add_tick],
    whether the sink accepted the row or not, [get_latest_ticks] with a
    limit of at least 1 and no symbol, or the symbol of that tick, returns
    a list that ends with it. *)
Theorem add_tick_then_latest tick sym limit self :
  (1 <= limit)%Z ->
  sym = None \/ (sym = Some (symbol tick) /\ truthy sym = true) ->
  exists earlier,
    fst (get_latest_ticks sym limit (snd (add_tick tick self))) = Ok (earlier ++ [tick]).
Proof.
  intros Hl Hs. unfold get_latest_ticks, bind, get, ret, tail_rows. cbn [fst].
  replace (limit <? 0)%Z with false by (symmetry; apply Z.ltb_ge; lia).
  assert (Hb : exists before, tick_data (snd (add_tick tick self)) = before ++ [tick]).
  { destruct (add_tick_memory tick self) as (-> & _).
    destruct (10000 <? _)%Z; [apply tail_last; lia | eauto]. }
  destruct Hb as [before ->].
  assert (Hsel : exists before', selected sym (before ++ [tick]) = before' ++ [tick]).
  { destruct Hs as [-> | [-> Ht]]; cbn [selected]; [eauto|].
    rewrite Ht. unfold select_symbol. rewrite filter_app. cbn [filter].
    rewrite String.eqb_refl. eauto. }
  destruct Hsel as [before' ->].
  destruct (tail_last before' tick Hl) as [l' ->]. eauto.
Qed.

(** *** One bar per key *)

Lemma merged_NoDup stored fresh :
  NoDup (map bar_key fresh) -> NoDup (map bar_key (merged stored fresh)).
Proof.
  intros Hf. rewrite merged_eq by exact Hf. rewrite map_app. apply NoDup_app.
  - unfold kept. apply NoDup_map_filter, drop_duplicates_NoDup.
  - exact Hf.
  - intros k H1 H2. apply in_map_iff in H1. destruct H1 as (b & <- & Hb).
    apply kept_spec in Hb. apply key_in_In in H2. congruence.
Qed.

Lemma trimmed_NoDup rows :
  NoDup (map bar_key rows) -> NoDup (map bar_key (trimmed rows)).
Proof.
  intros H. unfold trimmed, tail. destruct (2000 <? len rows)%Z; [|exact H].
  now apply NoDup_map_skipn.
Qed.

Lemma updated_series_NoDup ticks tf stored :
  NoDup (map bar_key stored) -> NoDup (map bar_key (updated_series ticks tf stored)).
Proof.
  intros H. unfold updated_series.
  match goal with |- context [if ?c then _ else _] => destruct c end; [|exact H].
  apply trimmed_NoDup, merged_NoDup.
  apply (resampled_df_NoDup ticks (rule_pos tf)).
Qed.

(** Each stored series holds at most one bar per key. *)
Lemma stored_keys_unique_lemma tf self :
  reachable self -> NoDup (map bar_key (lookup (resampled_data self) tf)).
Proof.
  intros H. revert tf. induction H as [c now | op self Hr IH]; intros tf.
  - destruct tf; constructor.
  - destruct op as [tick | now sym]; cbn [run].
    + destruct (add_tick_memory tick self) as (_ & -> & _). apply IH.
    + destruct (resample_data_effect now sym self) as (_ & _ & Hb).
      cbv zeta in Hb. rewrite Hb. apply updated_series_NoDup, IH.
Qed.

(** X10.  In every state a store goes through, each stored series holds at
    most one bar per symbol and bucket start. *)
Theorem stored_keys_unique self tf :
  reachable self -> NoDup (map bar_key (lookup (resampled_data self) tf)).
Proof. apply stored_keys_unique_lemma. Qed.

(** When nothing has to be trimmed, the updated series holds the fresh bars
    and the stored bars whose key was not recomputed. *)
Lemma updated_series_members ticks tf stored b :
  ticks <> [] ->
  NoDup (map bar_key stored) ->
  (len (merged stored (resampled_df (rule tf) ticks)) <= 2000)%Z ->
  (In b (updated_series ticks tf stored) <->
   In b (resampled_df (rule tf) ticks) \/
   (In b stored /\ ~ In (bar_key b) (map bar_key (resampled_df (rule tf) ticks)))).
Proof.
  intros Hne Hnd Hlen.
  pose proof (@resampled_df_NoDup _ ticks (rule_pos tf)) as Hf.
  unfold updated_series. fold (resampled_df (rule tf) ticks).
  set (fresh := resampled_df (rule tf) ticks) in *.
  assert (Hkeys : forall how : list Tick -> Q,
             is_empty (groupby_resample how (rule tf) ticks) = false \/ fresh = []).
  { intros how. destruct (groupby_resample how (rule tf) ticks) eqn:E; [right|now left].
    unfold fresh, resampled_df.
    assert (Hi : group_index (rule tf) ticks = []).
    { rewrite <- (groupby_resample_index how). now rewrite E. }
    pose proof (groupby_resample_index agg_ohlc (rule tf) ticks) as Hp.
    rewrite Hi in Hp. apply map_eq_nil in Hp. now rewrite Hp. }
  assert (Hmem : forall x, In x (kept fresh (drop_duplicates stored) ++ fresh) <->
                           In x fresh \/ (In x stored /\ ~ In (bar_key x) (map bar_key fresh))).
  { intros x. rewrite in_app_iff. unfold kept. rewrite filter_In.
    rewrite (drop_duplicates_fixed _ Hnd). rewrite negb_true_iff.
    split.
    - intros [[Hx Hk]|Hx]; [right|now left]. split; [exact Hx|].
      intros Hin. apply key_in_In in Hin. congruence.
    - intros [Hx|[Hx Hk]]; [now right|left]. split; [exact Hx|].
      destruct (key_in (bar_key x) fresh) eqn:E; [|reflexivity].
      apply key_in_In in E. contradiction. }
  destruct (negb (is_empty ticks) &&
            (negb (is_empty (groupby_resample agg_ohlc (rule tf) ticks)) &&
             negb (is_empty (groupby_resample agg_volume (rule tf) ticks)))) eqn:Ec.
  - unfold trimmed.
    replace (2000 <? len (merged stored fresh))%Z with false
      by (symmetry; apply Z.ltb_ge; exact Hlen).
    rewrite merged_eq by exact Hf. apply Hmem.
  - assert (Hfe : fresh = []).
    { destruct ticks as [|t0 r]; [contradiction|]. cbn [is_empty negb andb] in Ec.
      apply andb_false_iff in Ec. rewrite !negb_false_iff in Ec.
      destruct Ec as [Ec|Ec].
      - unfold fresh, resampled_df. destruct (groupby_resample agg_ohlc _ _); [reflexivity|discriminate].
      - destruct (Hkeys agg_volume) as [H|H]; [congruence | exact H]. }
    rewrite Hfe. cbn. tauto.
Qed.

(** X11.  Last write wins.  When a call of [resample_data] does not have
    to trim a series (what it merges has at most 2000 bars) and the ticks
    it works on are not empty, the series afterwards holds every freshly
    computed bar, and of the bars stored before exactly those whose key was
    not recomputed: a stored bar with a recomputed key is replaced. *)
Theorem resample_data_last_write_wins now sym self tf b :
  selected sym (tick_data self) <> [] ->
  NoDup (map bar_key (lookup (resampled_data self) tf)) ->
  (len (merged (lookup (resampled_data self) tf)
               (resampled_df (rule tf) (selected sym (tick_data self)))) <= 2000)%Z ->
  (In b (lookup (resampled_data (snd (resample_data now sym self))) tf) <->
   In b (resampled_df (rule tf) (selected sym (tick_data self))) \/
   (In b (lookup (resampled_data self) tf) /\
    ~ In (bar_key b)
         (map bar_key (resampled_df (rule tf) (selected sym (tick_data self)))))).
Proof.
  intros Hne Hnd Hlen.
  destruct (resample_data_effect now sym self) as (_ & _ & Hb).
  cbv zeta in Hb. rewrite Hb. now apply updated_series_members.
Qed.

(** *** Every tick is in a bar *)

Lemma last_of_snoc {A} (x : A) rest front z :
  x :: rest = front ++ [z] -> List.last rest x = z.
Proof.
  intros E. destruct front as [|c front]; cbn in E; inversion E; subst.
  - reflexivity.
  - apply last_last.
Qed.

Lemma bucket_mono width a b :
  (0 < width)%Z -> (a <= b)%Z -> (bucket width a <= bucket width b)%Z.
Proof.
  intros Hw Hab. unfold bucket.
  apply Z.mul_le_mono_nonneg_r; [lia|]. now apply Z.div_le_mono.
Qed.

(** The bucket of every row of a sorted group is one of its bins. *)
Lemma bins_cover width ticks t :
  (0 < width)%Z -> In t ticks ->
  In (bucket width (timestamp t)) (bins width (sort_by_timestamp ticks)).
Proof.
  intros Hw Ht.
  assert (Hs : In t (sort_by_timestamp ticks)).
  { apply (Permutation_in _ (Permutation_sym (sort_by_timestamp_perm ticks))), Ht. }
  unfold bins. destruct (sort_by_timestamp ticks) as [|first rest] eqn:Es; [destruct Hs|].
  destruct (exists_last (l:=first :: rest)) as (front & last & El); [discriminate|].
  rewrite (@last_of_snoc _ _ _ _ _ El). cbv zeta.
  pose proof (@chronologically_first_le _ _ _ (@sort_by_timestamp_head ticks _ _ Es) Ht) as Hlo.
  rewrite El in Es.
  pose proof (@chronologically_last_ge _ _ _ (@sort_by_timestamp_last ticks _ _ Es) Ht) as Hhi.
  pose proof (@bucket_mono _ _ _ Hw Hlo) as Blo. pose proof (@bucket_mono _ _ _ Hw Hhi) as Bhi.
  unfold bucket in *.
  set (i := (timestamp t / width - timestamp first / width)%Z).
  set (n := (timestamp last / width - timestamp first / width)%Z).
  assert (Hi : (0 <= i <= n)%Z) by (unfold i, n; nia).
  replace ((timestamp last / width * width - timestamp first / width * width) / width)%Z
    with n.
  2:{ unfold n. rewrite <- Z.mul_sub_distr_r, Z.div_mul by lia. reflexivity. }
  apply in_map_iff. exists (Z.to_nat i). split.
  - rewrite Z2Nat.id by lia. unfold i. ring.
  - apply in_seq. lia.
Qed.

Lemma group_index_complete width ticks t :
  (0 < width)%Z -> In t ticks ->
  In (symbol t, bucket width (timestamp t)) (group_index width ticks).
Proof.
  intros Hw Ht. unfold group_index. apply in_flat_map.
  exists (symbol t). split.
  - apply group_keys_In. eauto.
  - apply in_map. apply bins_cover; [exact Hw|].
    apply filter_In. split; [exact Ht | apply String.eqb_refl].
Qed.

Lemma merge_complete price_df volume_df k :
  In k (map fst price_df) -> In k (map fst volume_df) ->
  exists b, In b (merge price_df volume_df) /\ bar_key b = k.
Proof.
  intros Hp Hv. apply in_map_iff in Hp. destruct Hp as ([k1 o] & <- & Hp).
  apply in_map_iff in Hv. destruct Hv as ([k2 v] & E & Hv). cbn [fst] in *. subst k2.
  eexists. split.
  - unfold merge. apply in_flat_map. exists (k1, o). split; [exact Hp|].
    apply in_map. apply filter_In. split; [exact Hv|]. now apply key_eqb_eq.
  - destruct k1. reflexivity.
Qed.

(** Every tick has a bar for its symbol and bucket in the frame computed
    from it. *)
Lemma covering_bar width ticks t :
  (0 < width)%Z -> In t ticks ->
  exists b, In b (resampled_df width ticks) /\
            bar_key b = (symbol t, bucket width (timestamp t)).
Proof.
  intros Hw Ht. pose proof (@group_index_complete _ _ _ Hw Ht) as Hk.
  apply merge_complete; rewrite groupby_resample_index; exact Hk.
Qed.

(** X12.  No tick is left out: every tick [resample_data] works on has, in
    the frame computed for each timeframe, a bar of its symbol that starts
    at the left edge of its bucket; and that frame has no second bar with
    the same symbol and start. *)
Theorem resampled_df_covers_ticks sym self tf t :
  In t (selected sym (tick_data self)) ->
  exists b,
    In b (resampled_df (rule tf) (selected sym (tick_data self))) /\
    bar_symbol b = symbol t /\
    bar_timestamp b = bucket (rule tf) (timestamp t) /\
    (timestamp t - rule tf < bar_timestamp b <= timestamp t)%Z /\
    forall b', In b' (resampled_df (rule tf) (selected sym (tick_data self))) ->
               bar_symbol b' = symbol t -> bar_timestamp b' = bar_timestamp b ->
               b' = b.
Proof.
  intros Ht. set (ticks := selected sym (tick_data self)) in *.
  pose proof (rule_pos tf) as Hw.
  destruct (@covering_bar _ ticks t Hw Ht) as (b & Hb & Ekey).
  injection Ekey as Es Et.
  exists b. split; [exact Hb|]. split; [exact Es|]. split; [exact Et|]. split.
  - rewrite Et. unfold bucket.
    pose proof (Z.mul_div_le (timestamp t) (rule tf) Hw).
    pose proof (Z.mod_pos_bound (timestamp t) (rule tf) Hw).
    pose proof (Z.div_mod (timestamp t) (rule tf)). lia.
  - intros b' Hb' Es' Et'.
    pose proof (@resampled_df_NoDup _ ticks Hw) as Hnd. fold (resampled_df (rule tf) ticks) in Hb.
    assert (Ek : bar_key b' = bar_key b) by (unfold bar_key; congruence).
    clear - Hnd Hb Hb' Ek.
    induction (resampled_df (rule tf) ticks) as [|x r IH]; [destruct Hb|].
    cbn [map] in Hnd. inversion Hnd as [|? ? Hx Hr]; subst.
    destruct Hb as [->|Hb], Hb' as [->|Hb']; auto.
    + exfalso. apply Hx. rewrite <- Ek. now apply in_map.
    + exfalso. apply Hx. rewrite Ek. now apply in_map.
Qed.

(** *** Every tick in exactly one bar *)

Section Groups.

Variables (A K : Type) (eqb : K -> K -> bool).
Hypothesis eqb_eq : forall a b, eqb a b = true <-> a = b.
Variable key : A -> K.

Lemma flat_map_other_keys (t : A) (f : K -> list A) keys :
  ~ In (key t) keys ->
  flat_map (fun k => if eqb (key t) k then t :: f k else f k) keys = flat_map f keys.
Proof.
  induction keys as [|k keys IH]; intros Hk; cbn [flat_map]; [reflexivity|].
  destruct (eqb (key t) k) eqn:E.
  - apply eqb_eq in E. exfalso. apply Hk. now left.
  - f_equal. apply IH. intros H. apply Hk. now right.
Qed.

(** The groups of a list by key, one after the other, hold the rows of the
    list, each once, when every row has one of the keys and no key comes
    twice. *)
Lemma groups_partition keys (l : list A) :
  NoDup keys ->
  (forall t, In t l -> In (key t) keys) ->
  Permutation (flat_map (fun k => filter (fun t => eqb (key t) k) l) keys) l.
Proof.
  intros Hnd. induction l as [|t l IH]; intros Hin.
  - cbn [filter]. clear. induction keys as [|k keys IHk]; cbn [flat_map app]; [constructor|].
    exact IHk.
  - cbn [filter].
    destruct (in_split (key t) keys) as (k1 & k2 & E); [apply Hin; now left|].
    assert (Hk : ~ In (key t) (k1 ++ k2)).
    { rewrite E in Hnd. now apply NoDup_remove_2 in Hnd. }
    assert (IH' : Permutation
                    (flat_map (fun k => filter (fun t => eqb (key t) k) l) keys) l).
    { apply IH. intros x Hx. apply Hin. now right. }
    rewrite E in *. rewrite flat_map_app in *. cbn [flat_map] in *.
    assert (Hk1 : ~ In (key t) k1) by (intros H; apply Hk, in_or_app; now left).
    assert (Hk2 : ~ In (key t) k2) by (intros H; apply Hk, in_or_app; now right).
    rewrite (@flat_map_other_keys t _ k1 Hk1), (@flat_map_other_keys t _ k2 Hk2).
    replace (eqb (key t) (key t)) with true by (symmetry; now apply eqb_eq).
    cbn [app]. rewrite <- Permutation_middle. now apply perm_skip.
Qed.

End Groups.

Lemma ticks_of_bar_group width ticks buffer sym b :
  (0 < width)%Z ->
  ticks = selected sym buffer ->
  In b (resampled_df width ticks) ->
  ticks_of_bar width b buffer =
  filter (fun t => key_eqb (symbol t, bucket width (timestamp t)) (bar_key b)) ticks.
Proof.
  intros Hw -> Hb.
  rewrite <- (@bucket_ticks_window _ _ b buffer Hw Hb).
  apply resampled_df_bar in Hb. destruct Hb as [Hk _].
  rewrite <- (@selected_bucket_ticks width sym buffer b Hk). reflexivity.
Qed.

(** X13.  Every tick is counted in exactly one bar.  For each timeframe,
    the ticks the bars of the computed frame stand for (the buffered ticks
    of the symbol of the bar from its timestamp to one width later), taken
    bar after bar, are the ticks the frame was computed from, each as often
    as it occurs: no tick is left out and none is counted in two bars. *)
Theorem resampled_df_partitions_ticks sym self tf :
  Permutation
    (flat_map (fun b => ticks_of_bar (rule tf) b (tick_data self))
              (resampled_df (rule tf) (selected sym (tick_data self))))
    (selected sym (tick_data self)).
Proof.
  pose proof (rule_pos tf) as Hw.
  set (ticks := selected sym (tick_data self)).
  set (bars := resampled_df (rule tf) ticks).
  assert (E : forall part,
             (forall b, In b part -> In b bars) ->
             flat_map (fun b => ticks_of_bar (rule tf) b (tick_data self)) part =
             flat_map (fun k => filter (fun t => key_eqb (symbol t, bucket (rule tf) (timestamp t)) k)
                                       ticks)
                      (map bar_key part)).
  { induction part as [|b part IH]; intros Hp; cbn [flat_map map]; [reflexivity|].
    rewrite IH by (intros x Hx; apply Hp; now right).
    rewrite (@ticks_of_bar_group (rule tf) ticks (tick_data self) sym b Hw eq_refl)
      by (apply Hp; now left).
    reflexivity. }
  rewrite E by auto.
  apply (@groups_partition Tick (string * Z) key_eqb key_eqb_eq
           (fun t => (symbol t, bucket (rule tf) (timestamp t)))).
  - now apply resampled_df_NoDup.
  - intros t Ht. destruct (@covering_bar (rule tf) ticks t Hw Ht) as (b & Hb & <-).
    now apply in_map.
Qed.

(** *** The shape of a bar *)

Local Open Scope Q_scope.

Lemma agg_sum_nil : agg_sum [] == 0.
Proof. reflexivity. Qed.


Lemma agg_sum_nonneg l : (forall x, In x l -> 0 <= x) -> 0 <= agg_sum l.
Proof.
  induction l as [|x r IH]; intros H; [rewrite agg_sum_nil; apply Qle_refl|].
  rewrite agg_sum_cons.
  assert (0 <= x) by (apply H; now left).
  assert (0 <= agg_sum r) by (apply IH; intros y Hy; apply H; now right).
  lra.
Qed.

(** X14.  Every bar of a computed frame is well formed.  Its four prices
    are all numbers or all undefined; when they are numbers,
    [low <= open <= high] and [low <= close <= high]; when they are
    undefined the bucket holds no tick and the volume is 0.  If no tick has
    a negative quantity, no bar has a negative volume. *)
Theorem resampled_df_bar_shape sym self tf b :
  In b (resampled_df (rule tf) (selected sym (tick_data self))) ->
  match open b, high b, low b, close b with
  | Some o, Some h, Some l, Some c => l <= o /\ o <= h /\ l <= c /\ c <= h
  | None, None, None, None =>
      bucket_ticks (rule tf) b (tick_data self) = [] /\ volume b == 0
  | _, _, _, _ => False
  end /\
  ((forall t, In t (tick_data self) -> 0 <= quantity t) -> 0 <= volume b).
Proof.
  intros Hb. apply resampled_df_bar in Hb. destruct Hb as [Hk [Hv Hm]].
  rewrite selected_bucket_ticks in Hv, Hm by exact Hk.
  split.
  - destruct (bucket_ticks (rule tf) b (tick_data self)) as [|t0 r] eqn:EB.
    + destruct Hm as (-> & -> & -> & ->). split; [reflexivity|].
      rewrite Hv. reflexivity.
    + destruct Hm as (first & last & hi & lo & Hf & -> & Hl & -> & [_ Hmax] & -> & [_ Hmin] & ->).
      destruct Hf as (p1 & q1 & E1 & _). destruct Hl as (p2 & q2 & E2 & _).
      assert (H1 : In (price first) (map price (t0 :: r))).
      { apply in_map. rewrite E1. apply in_or_app. right. now left. }
      assert (H2 : In (price last) (map price (t0 :: r))).
      { apply in_map. rewrite E2. apply in_or_app. right. now left. }
      repeat split; auto.
  - intros Hq. rewrite Hv. apply agg_sum_nonneg.
    intros x Hx. apply in_map_iff in Hx. destruct Hx as (t & <- & Ht).
    apply Hq. unfold bucket_ticks in Ht. now apply filter_In in Ht.
Qed.

Local Close Scope Q_scope.

(** *** Reading a stored series *)

Lemma timeframe_of_key_key tf : timeframe_of_key (timeframe_key tf) = Some tf.
Proof. now destruct tf. Qed.

Lemma timeframe_of_key_some key tf :
  timeframe_of_key key = Some tf -> key = timeframe_key tf.
Proof.
  unfold timeframe_of_key.
  destruct (String.eqb_spec key "1s"); [intros [= <-]; assumption|].
  destruct (String.eqb_spec key "1min"); [intros [= <-]; assumption|].
  destruct (String.eqb_spec key "5min"); [intros [= <-]; assumption|].
  discriminate.
Qed.

(** X15.  [get_resampled_data] raises exactly when the timeframe is not one
    of "1s", "1min" and "5min", and it never changes the store. *)
Theorem get_resampled_data_timeframe sort_values timeframe sym self :
  snd (get_resampled_data sort_values timeframe sym self) = self /\
  ((exists e, fst (get_resampled_data sort_values timeframe sym self) = Raise e) <->
   ~ In timeframe ["1s"; "1min"; "5min"]%string).
Proof.
  unfold get_resampled_data.
  destruct (timeframe_of_key timeframe) as [tf|] eqn:E.
  - apply timeframe_of_key_some in E. subst timeframe.
    unfold resampled_snapshot, bind, get, ret.
    split.
    + match goal with |- context [if ?c then _ else _] => destruct c end; reflexivity.
    + split.
      * intros [e He].
        match type of He with context [if ?c then _ else _] => destruct c end;
          discriminate.
      * intros H. exfalso. apply H. destruct tf; cbn; auto.
  - split; [reflexivity|]. split; [|intros _; eexists; reflexivity].
    intros _ [<-|[<-|[<-|[]]]]; discriminate.
Qed.

Lemma strictly_sorted x bars :
  StronglySorted bar_ts_le bars ->
  NoDup (map bar_key bars) ->
  (forall b, In b bars -> bar_symbol b = x) ->
  StronglySorted bar_ts_lt bars.
Proof.
  induction 1 as [|b r Hs IH Hall]; intros Hnd Hx; constructor.
  - apply IH; [now inversion Hnd | intros y Hy; apply Hx; now right].
  - rewrite Forall_forall in *. intros y Hy.
    specialize (Hall y Hy). unfold bar_ts_le, bar_ts_lt in *.
    destruct (Z.eq_dec (bar_timestamp b) (bar_timestamp y)) as [E|E]; [|lia].
    exfalso. cbn [map] in Hnd. inversion Hnd as [|? ? Hb _]; subst. apply Hb.
    apply in_map_iff. exists y. split; [|exact Hy].
    unfold bar_key. rewrite E. f_equal.
    rewrite (Hx y) by now right. symmetry. apply Hx. now left.
Qed.

(** X16.  The series of one symbol.  In every state a store goes through,
    [get_resampled_data] for a timeframe and a symbol returns exactly the
    stored bars of that symbol, and in the order the sort puts them their
    timestamps increase strictly: one bar per bucket, no bucket twice.  Of
    the sort only this is used: on this input its result is sorted by
    timestamp and has the same rows. *)
Theorem get_resampled_data_symbol sort_values self tf x :
  reachable self ->
  truthy (Some x) = true ->
  Permutation (sort_values (select_bars x (lookup (resampled_data self) tf)))
              (select_bars x (lookup (resampled_data self) tf)) ->
  StronglySorted bar_ts_le
    (sort_values (select_bars x (lookup (resampled_data self) tf))) ->
  exists bars,
    get_resampled_data sort_values (timeframe_key tf) (Some x) self = (Ok bars, self) /\
    (forall b, In b bars <->
               In b (lookup (resampled_data self) tf) /\ bar_symbol b = x) /\
    StronglySorted bar_ts_lt bars.
Proof.
  intros Hr Ht Hperm Hsorted.
  pose proof (stored_keys_unique_lemma tf Hr) as Hnd.
  unfold get_resampled_data. rewrite timeframe_of_key_key.
  unfold resampled_snapshot, bind, get, ret. rewrite Ht.
  set (stored := lookup (resampled_data self) tf) in *.
  assert (Hsel : forall b, In b (select_bars x stored) <-> In b stored /\ bar_symbol b = x).
  { intros b. unfold select_bars. rewrite filter_In, String.eqb_eq. tauto. }
  destruct stored as [|b0 r] eqn:Es.
  - cbn. eexists. split; [reflexivity|]. split; [|constructor].
    intros b. cbn. tauto.
  - cbn [is_empty negb andb]. rewrite <- Es in *.
    destruct (select_bars x stored) as [|c0 r0] eqn:Esel.
    + cbn. eexists. split; [reflexivity|]. split; [|constructor].
      intros b. rewrite <- Hsel. cbn. tauto.
    + cbn [is_empty]. rewrite <- Esel in *. eexists. split; [reflexivity|]. split.
      * intros b. rewrite <- Hsel. split; intros H.
        -- now apply (Permutation_in _ Hperm).
        -- now apply (Permutation_in _ (Permutation_sym Hperm)).
      * apply (@strictly_sorted x); [exact Hsorted| |].
        -- apply (Permutation_NoDup (Permutation_sym (Permutation_map bar_key Hperm))).
           unfold select_bars. now apply NoDup_map_filter.
        -- intros b Hb. apply (Permutation_in _ Hperm) in Hb. now apply Hsel in Hb.
Qed.

(** *** Export *)

Lemma lift_lock {A} (m : M DataStore A) p :
  lock_held (snd (lift m p)) = lock_held p /\ files (snd (lift m p)) = files p /\
  io_faults (snd (lift m p)) = io_faults p.
Proof. unfold lift. destruct (m (store p)). now cbn. Qed.

(** X17.  [save_to_csv] with one of the three timeframes never returns and
    writes nothing: it holds the lock when it calls [get_resampled_data],
    which waits for the same lock.  The lock stays taken, so every later
    call that needs it waits as well. *)
Theorem save_to_csv_timeframe_blocks sort_values filepath tf p :
  lock_held p = false ->
  save_to_csv sort_values filepath (Some (timeframe_key tf)) p =
    (Blocked, set_lock true p) /\
  forall A (body : L A), with_lock body (set_lock true p) = (Blocked, set_lock true p).
Proof.
  intros Hp. split.
  - unfold save_to_csv, with_lock at 1. rewrite Hp.
    assert (Ht : truthy (Some (timeframe_key tf)) = true) by now destruct tf.
    rewrite Ht. unfold lbind at 1. unfold lbind at 1.
    unfold get_resampled_data_locked. rewrite timeframe_of_key_key.
    unfold with_lock. cbn [lock_held set_lock]. reflexivity.
  - intros A body. unfold with_lock. cbn [lock_held set_lock]. reflexivity.
Qed.

(** X18.  The other two ways [save_to_csv] goes, from a free lock.  Without
    a timeframe ([None] or the empty string) it writes the raw ticks of the
    buffer to the file and returns, unless the write itself fails.  With a
    timeframe that is not one of the three keys it raises the error of
    [get_resampled_data] and writes nothing.  Either way the lock is free
    again afterwards and the store is as it was. *)
Theorem save_to_csv_other sort_values filepath timeframe p :
  lock_held p = false ->
  (truthy timeframe = false ->
   match io_faults p with true :: _ => False | _ => True end ->
   exists p',
     save_to_csv sort_values filepath timeframe p = (Done (Ok tt), p') /\
     files p' = (filepath, map TickRow (tick_data (store p))) :: files p /\
     lock_held p' = false /\ store p' = store p) /\
  (forall key, timeframe = Some key -> truthy timeframe = true ->
     timeframe_of_key key = None ->
   exists e p',
     save_to_csv sort_values filepath timeframe p = (Done (Raise e), p') /\
     files p' = files p /\ lock_held p' = false /\ store p' = store p).
Proof.
  intros Hp. split.
  - intros Ht Hio. unfold save_to_csv, with_lock. rewrite Hp.
    assert (E : (match timeframe with
                 | Some key =>
                     if truthy timeframe
                     then lbind (get_resampled_data_locked sort_values key None)
                            (fun bars p0 => (Done (Ok (map BarRow bars)), p0))
                     else lift (self <- get ;; ret (map TickRow (tick_data self)))
                 | None => lift (self <- get ;; ret (map TickRow (tick_data self)))
                 end) = lift (self <- get ;; ret (map TickRow (tick_data self)))).
    { destruct timeframe; [now rewrite Ht | reflexivity]. }
    rewrite E. unfold lbind, lift, bind, get, ret, to_csv.
    cbn [store set_lock set_store io_faults lock_held files].
    destruct (io_faults p) as [|[|] rest]; [|contradiction|];
      eexists; (split; [reflexivity|]); cbn; destruct (store p); now repeat split.
  - intros key -> Ht Hk. unfold save_to_csv, with_lock. rewrite Hp, Ht.
    unfold lbind, get_resampled_data_locked. rewrite Hk.
    unfold lift, raise. cbn [store set_lock set_store].
    eexists _, _. split; [reflexivity|]. cbn. destruct (store p); now repeat split.
Qed.

(** *** Handling a tick *)



(** *** More examples *)

Lemma get_latest_ticks_recent_witness :
  (0 <= 2)%Z /\
  exists ticks older,
    get_latest_ticks (Some "BTCUSDT"%string) 2 three_ticks = (Ok ticks, three_ticks) /\
    selected (Some "BTCUSDT"%string) (tick_data three_ticks) = older ++ ticks /\
    len ticks = Z.min 2 (len (selected (Some "BTCUSDT"%string) (tick_data three_ticks))) /\
    forall x, Some "BTCUSDT"%string = Some x ->
              truthy (Some "BTCUSDT"%string) = true ->
              forall t, In t ticks -> symbol t = x.
Proof.
  split; [lia|].
  apply (@get_latest_ticks_recent (Some "BTCUSDT"%string) 2 three_ticks). lia.
Defined.

Lemma add_tick_then_latest_witness :
  (1 <= 1)%Z /\
  exists earlier,
    fst (get_latest_ticks (Some "BTCUSDT"%string) 1
           (snd (add_tick (tick 1000000000 "BTCUSDT" 98 3) three_ticks))) =
    Ok (earlier ++ [tick 1000000000 "BTCUSDT" 98 3]).
Proof.
  split; [lia|].
  apply (@add_tick_then_latest (tick 1000000000 "BTCUSDT" 98 3)
           (Some "BTCUSDT"%string) 1 three_ticks); [lia|].
  right. split; reflexivity.
Defined.

Lemma stored_keys_unique_witness :
  reachable two_symbols /\
  NoDup (map bar_key (lookup (resampled_data two_symbols) tf_1s)).
Proof.
  assert (H : reachable two_symbols).
  { unfold two_symbols. repeat apply reachable_step. apply reachable_init. }
  split; [exact H|]. exact (@stored_keys_unique two_symbols tf_1s H).
Defined.

Lemma resample_data_last_write_wins_witness :
  let fresh := resampled_df (rule tf_1s) (selected None (tick_data three_ticks_resampled)) in
  let stored := lookup (resampled_data three_ticks_resampled) tf_1s in
  let b := {| bar_timestamp := 0; bar_symbol := "BTCUSDT";
              open := Some 100%Q; high := Some 101%Q; low := Some 99%Q;
              close := Some 99%Q; volume := 4%Q |} in
  selected None (tick_data three_ticks_resampled) <> [] /\
  NoDup (map bar_key stored) /\
  (len (merged stored fresh) <= 2000)%Z /\
  (In b (lookup (resampled_data (snd (resample_data 2 None three_ticks_resampled))) tf_1s) <->
   In b fresh \/ (In b stored /\ ~ In (bar_key b) (map bar_key fresh))).
Proof.
  cbv zeta.
  assert (H1 : selected None (tick_data three_ticks_resampled) <> []).
  { vm_compute. discriminate. }
  assert (H2 : NoDup (map bar_key (lookup (resampled_data three_ticks_resampled) tf_1s))).
  { vm_compute. constructor; [intros []|constructor]. }
  assert (H3 : (len (merged (lookup (resampled_data three_ticks_resampled) tf_1s)
                       (resampled_df (rule tf_1s)
                          (selected None (tick_data three_ticks_resampled)))) <= 2000)%Z).
  { apply Z.leb_le. vm_compute. reflexivity. }
  split; [exact H1|]. split; [exact H2|]. split; [exact H3|].
  exact (@resample_data_last_write_wins 2 None three_ticks_resampled tf_1s _ H1 H2 H3).
Defined.

Lemma resampled_df_covers_ticks_witness :
  let t := tick 500000000 "BTCUSDT" 101 2 in
  let bars := resampled_df (rule tf_1s) (selected None (tick_data three_ticks)) in
  In t (selected None (tick_data three_ticks)) /\
  exists b,
    In b bars /\
    bar_symbol b = symbol t /\
    bar_timestamp b = bucket (rule tf_1s) (timestamp t) /\
    (timestamp t - rule tf_1s < bar_timestamp b <= timestamp t)%Z /\
    forall b', In b' bars ->
               bar_symbol b' = symbol t -> bar_timestamp b' = bar_timestamp b ->
               b' = b.
Proof.
  cbv zeta.
  assert (H : In (tick 500000000 "BTCUSDT" 101 2) (selected None (tick_data three_ticks))).
  { vm_compute. right. left. reflexivity. }
  split; [exact H|].
  exact (@resampled_df_covers_ticks None three_ticks tf_1s _ H).
Defined.

Lemma resampled_df_bar_shape_witness :
  let b := {| bar_timestamp := 0; bar_symbol := "BTCUSDT";
              open := Some 100%Q; high := Some 101%Q; low := Some 99%Q;
              close := Some 99%Q; volume := 4%Q |} in
  In b (resampled_df (rule tf_1s) (selected None (tick_data three_ticks))) /\
  (99 <= 100 /\ 100 <= 101 /\ 99 <= 99 /\ 99 <= 101)%Q /\
  ((forall t, In t (tick_data three_ticks) -> (0 <= quantity t)%Q) -> (0 <= volume b)%Q).
Proof.
  cbv zeta.
  assert (H : In {| bar_timestamp := 0; bar_symbol := "BTCUSDT";
                    open := Some 100%Q; high := Some 101%Q; low := Some 99%Q;
                    close := Some 99%Q; volume := 4%Q |}
                 (resampled_df (rule tf_1s) (selected None (tick_data three_ticks)))).
  { vm_compute. left. reflexivity. }
  split; [exact H|].
  exact (@resampled_df_bar_shape None three_ticks tf_1s _ H).
Defined.

Lemma get_resampled_data_symbol_witness :
  let stored := lookup (resampled_data three_ticks_resampled) tf_1s in
  reachable three_ticks_resampled /\
  truthy (Some "BTCUSDT"%string) = true /\
  Permutation (sort_bars (select_bars "BTCUSDT" stored)) (select_bars "BTCUSDT" stored) /\
  StronglySorted bar_ts_le (sort_bars (select_bars "BTCUSDT" stored)) /\
  exists bars,
    get_resampled_data sort_bars (timeframe_key tf_1s) (Some "BTCUSDT"%string)
      three_ticks_resampled = (Ok bars, three_ticks_resampled) /\
    (forall b, In b bars <-> In b stored /\ bar_symbol b = "BTCUSDT"%string) /\
    StronglySorted bar_ts_lt bars.
Proof.
  cbv zeta.
  assert (H1 : reachable three_ticks_resampled).
  { unfold three_ticks_resampled, three_ticks.
    repeat apply reachable_step. apply reachable_init. }
  assert (H2 : Permutation
                 (sort_bars (select_bars "BTCUSDT"
                               (lookup (resampled_data three_ticks_resampled) tf_1s)))
                 (select_bars "BTCUSDT"
                    (lookup (resampled_data three_ticks_resampled) tf_1s))).
  { vm_compute. apply Permutation_refl. }
  assert (H3 : StronglySorted bar_ts_le
                 (sort_bars (select_bars "BTCUSDT"
                               (lookup (resampled_data three_ticks_resampled) tf_1s)))).
  { vm_compute. repeat constructor. }
  split; [exact H1|]. split; [reflexivity|]. split; [exact H2|]. split; [exact H3|].
  exact (@get_resampled_data_symbol sort_bars three_ticks_resampled tf_1s "BTCUSDT"
           H1 eq_refl H2 H3).
Defined.

Lemma save_to_csv_timeframe_blocks_witness :
  lock_held idle = false /\
  save_to_csv sort_bars "out.csv" (Some (timeframe_key tf_1min)) idle =
    (Blocked, set_lock true idle) /\
  forall A (body : L A), with_lock body (set_lock true idle) = (Blocked, set_lock true idle).
Proof.
  split; [reflexivity|].
  apply (@save_to_csv_timeframe_blocks sort_bars "out.csv" tf_1min idle). reflexivity.
Defined.

Lemma save_to_csv_other_witness :
  lock_held idle = false /\
  (truthy (@None string) = false ->
   match io_faults idle with true :: _ => False | _ => True end ->
   exists p',
     save_to_csv sort_bars "ticks.csv" None idle = (Done (Ok tt), p') /\
     files p' = ("ticks.csv"%string, map TickRow (tick_data (store idle))) :: files idle /\
     lock_held p' = false /\ store p' = store idle) /\
  (forall key, @None string = Some key -> truthy (@None string) = true ->
     timeframe_of_key key = None ->
   exists e p',
     save_to_csv sort_bars "ticks.csv" None idle = (Done (Raise e), p') /\
     files p' = files idle /\ lock_held p' = false /\ store p' = store idle).
Proof.
  split; [reflexivity|].
  apply (@save_to_csv_other sort_bars "ticks.csv" None idle). reflexivity.
Defined.


End StorageProofs.


(** ** The statistics *)

Module AnalyticsProofs.
Import Analytics.

Local Open Scope Q_scope.

Lemma count_ge_2 {A} (l : list A) :
  (2 <= len l)%Z -> 2 <= inject_Z (len l).
Proof.
  intros H. change 2 with (inject_Z 2). now rewrite <- Zle_Qle.
Qed.

Lemma count_map {A} (f : A -> Q) (l : list A) : count (map f l) = inject_Z (len l).
Proof. unfold count, len. now rewrite length_map. Qed.

(** The [except] branch, for an estimator that raises on the aligned rows:
    0 for a zero variance, otherwise [np.cov] (divisor n - 1) over [np.var]
    (divisor n), which is n / (n - 1) times the ratio of covariance to
    variance taken with one and the same divisor. *)
Lemma fallback_value OLS_fit asset1 asset2 e :
  (2 <= len (aligned asset1 asset2))%Z ->
  OLS_fit (map fst (aligned asset1 asset2))
          (map (fun r => (1, snd r)) (aligned asset1 asset2)) = Raise e ->
  (variance 0 (map snd (aligned asset1 asset2)) == 0 ->
   calculate_hedge_ratio OLS_fit asset1 asset2 == 0) /\
  (~ variance 0 (map snd (aligned asset1 asset2)) == 0 ->
   calculate_hedge_ratio OLS_fit asset1 asset2 ==
     covariance 1 (map fst (aligned asset1 asset2)) (map snd (aligned asset1 asset2)) /
     variance 0 (map snd (aligned asset1 asset2)) /\
   forall ddof, (ddof = 0 \/ ddof = 1)%Z ->
     calculate_hedge_ratio OLS_fit asset1 asset2 ==
       inject_Z (len (aligned asset1 asset2)) /
       (inject_Z (len (aligned asset1 asset2)) - 1) *
       (covariance ddof (map fst (aligned asset1 asset2)) (map snd (aligned asset1 asset2)) /
        variance ddof (map snd (aligned asset1 asset2)))).
Proof.
  intros Hn Hfit. unfold calculate_hedge_ratio. cbv zeta.
  replace (len (aligned asset1 asset2) <? 2)%Z with false
    by (symmetry; apply Z.ltb_ge; exact Hn).
  rewrite Hfit. unfold np_cov, np_var.
  pose proof (count_ge_2 _ Hn) as Hc.
  generalize dependent (aligned asset1 asset2). intros df Hn Hfit Hc.
  unfold covariance, variance. rewrite !count_map.
  generalize dependent (inject_Z (len df)). intros n Hc.
  generalize (co_deviation (map fst df) (map snd df)) as C.
  generalize (co_deviation (map snd df) (map snd df)) as V.
  intros V C. split.
  - intros Hv. apply Qeq_bool_iff in Hv. rewrite Hv. reflexivity.
  - intros Hv.
    assert (HV : ~ V == 0).
    { intros E. apply Hv. rewrite E. change (inject_Z 0) with 0. field. lra. }
    destruct (Qeq_bool (V / (n - inject_Z 0)) 0) eqn:E.
    { apply Qeq_bool_iff in E. contradiction. }
    cbn [negb]. split; [reflexivity|].
    intros ddof [-> | ->]; change (inject_Z 0) with 0; change (inject_Z 1) with 1;
      field; repeat split; try lra; exact HV.
Qed.

Lemma sum_const_design (df : list (Q * Q)) c :
  (forall r, In r df -> snd r = c) ->
  let X := map (fun r => (1, snd r)) df in
  let y := map fst df in
  sum (map (fun r => fst r * fst r) X) == inject_Z (len df) /\
  sum (map (fun r => fst r * snd r) X) == inject_Z (len df) * c /\
  sum (map (fun r => snd r * snd r) X) == inject_Z (len df) * (c * c) /\
  sum (map (fun r => fst (fst r) * snd r) (combine X y)) == sum y /\
  sum (map (fun r => snd (fst r) * snd r) (combine X y)) == c * sum y.
Proof.
  intros Hc. cbv zeta. induction df as [|[a b] df IH].
  - cbn. repeat split; ring.
  - assert (Hb : b = c) by (apply (Hc (a, b)); now left). subst b.
    destruct IH as (I1 & I2 & I3 & I4 & I5); [intros r Hr; apply Hc; now right|].
    assert (Hl : inject_Z (len ((a, c) :: df)) == inject_Z (len df) + 1).
    { unfold len. cbn [List.length]. rewrite Nat2Z.inj_succ, <- Z.add_1_r.
      rewrite inject_Z_plus. reflexivity. }
    cbn [map combine sum fold_right fst snd] in *.
    fold (sum (map (fun r => fst r * fst r) (map (fun r => (1, snd r)) df))).
    rewrite Hl.
    unfold sum in *. cbn [fold_right].
    rewrite I1, I2, I3, I4, I5. repeat split; ring.
Qed.

(** The rank-one branch of [OLS_pinv] on a constant second column [c]: the
    parameters solve the normal equations and lie along the row (1, c), which
    makes them the least-squares solution of smallest norm. *)
Lemma pinv_constant_design (df : list (Q * Q)) c :
  (1 <= len df)%Z ->
  (forall r, In r df -> snd r = c) ->
  exists alpha beta,
    OLS_pinv (map fst df) (map (fun r => (1, snd r)) df) = Ok (alpha, beta) /\
    inject_Z (len df) * alpha + inject_Z (len df) * c * beta == sum (map fst df) /\
    beta == c * alpha.
Proof.
  intros Hn Hc.
  destruct (sum_const_design _ Hc) as (G11 & G12 & G22 & H1 & H2). cbv zeta in *.
  assert (Hn1 : 1 <= inject_Z (len df)).
  { change 1 with (inject_Z 1). now rewrite <- Zle_Qle. }
  assert (Hsq : 0 <= c * c) by nra.
  unfold OLS_pinv. cbv zeta.
  set (g11 := sum (map (fun r => fst r * fst r) (map (fun r => (1, snd r)) df))) in *.
  set (g12 := sum (map (fun r => fst r * snd r) (map (fun r => (1, snd r)) df))) in *.
  set (g22 := sum (map (fun r => snd r * snd r) (map (fun r => (1, snd r)) df))) in *.
  set (h1 := sum (map (fun r => fst (fst r) * snd r)
                    (combine (map (fun r => (1, snd r)) df) (map fst df)))) in *.
  set (h2 := sum (map (fun r => snd (fst r) * snd r)
                    (combine (map (fun r => (1, snd r)) df) (map fst df)))) in *.
  set (Sa := sum (map fst df)) in *.
  set (n := inject_Z (len df)) in *.
  clearbody g11 g12 g22 h1 h2 Sa n.
  destruct (Qeq_bool (g11 * g22 - g12 * g12) 0) eqn:Edet; cbn [negb].
  2:{ apply Qeq_bool_neq in Edet. exfalso. apply Edet. rewrite G11, G12, G22. ring. }
  destruct (Qeq_bool (g11 + g22) 0) eqn:Etr; cbn [negb].
  1:{ apply Qeq_bool_iff in Etr. rewrite G11, G22 in Etr. exfalso. nra. }
  eexists _, _. split; [reflexivity|].
  rewrite H1, H2, G11, G22. split; field; nra.
Qed.

(** C3 (what the code does).  When the second series is constant, say [c],
    on at least two aligned rows, the design matrix has rank one; the fit of
    statsmodels does not raise, so the zero-variance branch of the fallback
    is never reached, and the coefficient returned is
    [c * sum(asset1) / (n * (1 + c^2))]. *)
Theorem constant_leg_hedge_ratio asset1 asset2 c :
  (2 <= len (aligned asset1 asset2))%Z ->
  (forall r, In r (aligned asset1 asset2) -> snd r = c) ->
  calculate_hedge_ratio OLS_pinv asset1 asset2 ==
    c * sum (map fst (aligned asset1 asset2)) /
    (inject_Z (len (aligned asset1 asset2)) * (1 + c * c)).
Proof.
  intros Hn Hc. unfold calculate_hedge_ratio. cbv zeta.
  replace (len (aligned asset1 asset2) <? 2)%Z with false
    by (symmetry; apply Z.ltb_ge; exact Hn).
  pose proof (count_ge_2 _ Hn) as Hn2.
  destruct (sum_const_design _ Hc) as (G11 & G12 & G22 & H1 & H2).
  cbv zeta in *. unfold OLS_pinv. cbv zeta.
  generalize dependent (aligned asset1 asset2). intros df Hn Hc Hn2.
  generalize (sum (map (fun r => fst r * fst r) (map (fun r => (1, snd r)) df))) as g11.
  generalize (sum (map (fun r => fst r * snd r) (map (fun r => (1, snd r)) df))) as g12.
  generalize (sum (map (fun r => snd r * snd r) (map (fun r => (1, snd r)) df))) as g22.
  generalize (sum (map (fun r => fst (fst r) * snd r)
                     (combine (map (fun r => (1, snd r)) df) (map fst df)))) as h1.
  generalize (sum (map (fun r => snd (fst r) * snd r)
                     (combine (map (fun r => (1, snd r)) df) (map fst df)))) as h2.
  generalize dependent (inject_Z (len df)). intros n Hn2 h2 h1 g22 g12 g11 G11 G12 G22 H1 H2.
  assert (Hsq : 0 <= c * c) by nra.
  destruct (Qeq_bool (g11 * g22 - g12 * g12) 0) eqn:Edet; cbn [negb].
  2:{ apply Qeq_bool_neq in Edet. exfalso. apply Edet.
      rewrite G11, G12, G22. ring. }
  destruct (Qeq_bool (g11 + g22) 0) eqn:Etr; cbn [negb snd].
  1:{ apply Qeq_bool_iff in Etr. rewrite G11, G22 in Etr. exfalso. nra. }
  rewrite H2, G11, G22. field. nra.
Qed.

(** *** The regression coefficient *)

Lemma combine_map {A B C} (f : A -> B) (g : A -> C) (l : list A) :
  combine (map f l) (map g l) = map (fun r => (f r, g r)) l.
Proof. induction l as [|x r IH]; cbn; [reflexivity | now rewrite IH]. Qed.

Lemma sum_cons x l : sum (x :: l) == x + sum l.
Proof. reflexivity. Qed.

Lemma len_cons {A} (x : A) l : inject_Z (len (x :: l)) == inject_Z (len l) + 1.
Proof.
  unfold len. cbn [List.length].
  rewrite Nat2Z.inj_succ, <- Z.add_1_r, inject_Z_plus. reflexivity.
Qed.

Lemma sum_deviation_products {A} (f g : A -> Q) (l : list A) m1 m2 :
  sum (map (fun r => (f r - m1) * (g r - m2)) l) ==
  sum (map (fun r => f r * g r) l) - m2 * sum (map f l) - m1 * sum (map g l)
  + inject_Z (len l) * m1 * m2.
Proof.
  induction l as [|x r IH].
  - cbn. ring.
  - cbn [map]. rewrite !sum_cons, len_cons, IH. ring.
Qed.

Lemma co_deviation_sums {A} (f g : A -> Q) (l : list A) :
  ~ inject_Z (len l) == 0 ->
  co_deviation (map f l) (map g l) ==
  sum (map (fun r => f r * g r) l) -
  sum (map f l) * sum (map g l) / inject_Z (len l).
Proof.
  intros Hn. unfold co_deviation, mean. rewrite combine_map, map_map.
  cbn [fst snd]. rewrite sum_deviation_products, !count_map. field. exact Hn.
Qed.

Lemma design_sums (df : list (Q * Q)) :
  let X := map (fun r => (1, snd r)) df in
  let y := map fst df in
  sum (map (fun r => fst r * fst r) X) == inject_Z (len df) /\
  sum (map (fun r => fst r * snd r) X) == sum (map snd df) /\
  sum (map (fun r => snd r * snd r) X) == sum (map (fun r => snd r * snd r) df) /\
  sum (map (fun r => fst (fst r) * snd r) (combine X y)) == sum (map fst df) /\
  sum (map (fun r => snd (fst r) * snd r) (combine X y)) ==
    sum (map (fun r => fst r * snd r) df).
Proof.
  cbv zeta. induction df as [|[a b] df (I1 & I2 & I3 & I4 & I5)].
  - cbn. repeat split; reflexivity.
  - cbn [map combine fst snd]. rewrite !sum_cons, len_cons, I1, I2, I3, I4, I5.
    cbn [fst snd]. repeat split; ring.
Qed.

(** With a second series that is not constant, the coefficient fitted by
    statsmodels is the covariance over the variance, both taken with the
    same divisor. *)
Lemma fitted_hedge_ratio asset1 asset2 ddof :
  (2 <= len (aligned asset1 asset2))%Z ->
  (ddof = 0 \/ ddof = 1)%Z ->
  ~ variance 0 (map snd (aligned asset1 asset2)) == 0 ->
  calculate_hedge_ratio OLS_pinv asset1 asset2 ==
    covariance ddof (map fst (aligned asset1 asset2)) (map snd (aligned asset1 asset2)) /
    variance ddof (map snd (aligned asset1 asset2)).
Proof.
  intros Hn Hd Hv. unfold calculate_hedge_ratio. cbv zeta.
  replace (len (aligned asset1 asset2) <? 2)%Z with false
    by (symmetry; apply Z.ltb_ge; exact Hn).
  pose proof (count_ge_2 _ Hn) as Hn2.
  generalize dependent (aligned asset1 asset2). intros df Hn Hv Hn2.
  assert (Hn0 : ~ inject_Z (len df) == 0) by lra.
  destruct (design_sums df) as (G11 & G12 & G22 & H1 & H2). cbv zeta in *.
  unfold covariance, variance in *. rewrite !count_map in *.
  rewrite (co_deviation_sums snd snd df Hn0) in *.
  rewrite (co_deviation_sums fst snd df Hn0).
  unfold OLS_pinv. cbv zeta.
  set (g11 := sum (map (fun r => fst r * fst r) (map (fun r => (1, snd r)) df))) in *.
  set (g12 := sum (map (fun r => fst r * snd r) (map (fun r => (1, snd r)) df))) in *.
  set (g22 := sum (map (fun r => snd r * snd r) (map (fun r => (1, snd r)) df))) in *.
  set (h1 := sum (map (fun r => fst (fst r) * snd r)
                    (combine (map (fun r => (1, snd r)) df) (map fst df)))) in *.
  set (h2 := sum (map (fun r => snd (fst r) * snd r)
                    (combine (map (fun r => (1, snd r)) df) (map fst df)))) in *.
  set (Sbb := sum (map (fun r : Q * Q => snd r * snd r) df)) in *.
  set (Sab := sum (map (fun r : Q * Q => fst r * snd r) df)) in *.
  set (Sb := sum (map (@snd Q Q) df)) in *.
  set (Sa := sum (map (@fst Q Q) df)) in *.
  set (n := inject_Z (len df)) in *.
  clearbody g11 g12 g22 h1 h2 Sbb Sab Sb Sa n.
  assert (Hvar : ~ Sbb - Sb * Sb / n == 0).
  { intros E. apply Hv. rewrite E. change (inject_Z 0) with 0. field. lra. }
  assert (Hdet : ~ n * Sbb - Sb * Sb == 0).
  { intros E. apply Hvar.
    assert (R : Sbb - Sb * Sb / n == (n * Sbb - Sb * Sb) / n) by (field; lra).
    rewrite R, E. field. lra. }
  destruct (Qeq_bool (g11 * g22 - g12 * g12) 0) eqn:Edet; cbn [negb].
  { apply Qeq_bool_iff in Edet. rewrite G11, G12, G22 in Edet. contradiction. }
  cbn [snd]. rewrite G11, G12, G22, H1, H2.
  destruct Hd as [-> | ->]; change (inject_Z 0) with 0; change (inject_Z 1) with 1;
    field; repeat split; try lra; try exact Hvar; exact Hdet.
Qed.

(** The fallback against the fit it stands in for: n / (n - 1) times the
    coefficient the regression returns on the same data. *)
Lemma fallback_against_fit OLS_fit asset1 asset2 e :
  (2 <= len (aligned asset1 asset2))%Z ->
  OLS_fit (map fst (aligned asset1 asset2))
          (map (fun r => (1, snd r)) (aligned asset1 asset2)) = Raise e ->
  ~ variance 0 (map snd (aligned asset1 asset2)) == 0 ->
  calculate_hedge_ratio OLS_fit asset1 asset2 ==
    inject_Z (len (aligned asset1 asset2)) / (inject_Z (len (aligned asset1 asset2)) - 1) *
    calculate_hedge_ratio OLS_pinv asset1 asset2.
Proof.
  intros Hn Hfit Hv.
  destruct (fallback_value OLS_fit asset1 asset2 Hn Hfit) as [_ H].
  destruct (H Hv) as [_ H0].
  rewrite (H0 0%Z (or_introl eq_refl)).
  rewrite (fitted_hedge_ratio asset1 asset2 Hn (or_introl eq_refl) Hv).
  reflexivity.
Qed.

(** *** Rolling z-score *)

Section ZScoreProofs.

Variable sqrt : Q -> Q.

Lemma map2_length {A B C} (f : A -> B -> C) l1 l2 :
  List.length l1 = List.length l2 -> List.length (map2 f l1 l2) = List.length l1.
Proof.
  revert l2. induction l1 as [|x r IH]; intros [|y r2]; cbn; try discriminate; auto.
Qed.

Lemma nth_error_map2 {A B C} (f : A -> B -> C) l1 l2 i x y :
  nth_error l1 i = Some x -> nth_error l2 i = Some y ->
  nth_error (map2 f l1 l2) i = Some (f x y).
Proof.
  revert l2 i. induction l1 as [|a r IH]; intros [|b r2] [|i]; cbn;
    try discriminate; try congruence.
  apply IH.
Qed.


Lemma with_values_values (s : Series) vals :
  List.length vals = List.length s -> values (with_values s vals) = vals.
Proof.
  unfold with_values, values. revert vals.
  induction s as [|row r IH]; intros [|v vals]; cbn; try discriminate; auto.
  intros [= H]. f_equal. now apply IH.
Qed.

(** With a window that is not negative, [rolling] returns one entry per row,
    NaN before position [w - 1]. *)
Lemma rolling_ok w how (s : Series) :
  (0 <= w)%Z ->
  exists l,
    rolling w how s = Ok l /\
    List.length l = List.length s /\
    forall i, (i < List.length s)%nat -> (Z.of_nat i < w - 1)%Z ->
              nth_error l i = Some None.
Proof.
  intros Hw. unfold rolling.
  replace (w <? 0)%Z with false by (symmetry; apply Z.ltb_ge; exact Hw).
  eexists. split; [reflexivity|]. split.
  - now rewrite length_map, length_seq.
  - intros i Hi Hlt.
    rewrite nth_error_map, nth_error_seq.
    replace (i <? List.length s)%nat with true by (symmetry; now apply Nat.ltb_lt).
    cbn [option_map Nat.add].
    replace (Z.of_nat i + 1 <? w)%Z with true by (symmetry; apply Z.ltb_lt; lia).
    reflexivity.
Qed.

Lemma replace_zero_length l : List.length (replace_zero l) = List.length l.
Proof. unfold replace_zero. apply length_map. Qed.

Lemma replace_zero_nth l i v :
  nth_error l i = Some v ->
  nth_error (replace_zero l) i =
    Some match v with
         | Some x => if Qeq_bool x 0 then None else Some x
         | None => None
         end.
Proof.
  intros H. unfold replace_zero. rewrite nth_error_map, H. reflexivity.
Qed.

(** After [replace(0, nan)] no entry of the divisor is zero. *)
Lemma replace_zero_nonzero l i x :
  nth_error (replace_zero l) i = Some (Some x) -> ~ x == 0.
Proof.
  unfold replace_zero. rewrite nth_error_map.
  destruct (nth_error l i) as [[y|]|]; cbn; try discriminate.
  destruct (Qeq_bool y 0) eqn:E; [discriminate|].
  intros [= <-]. now apply Qeq_bool_neq.
Qed.

Lemma nan_div_nan a : nan_div a None = None.
Proof. now destruct a. Qed.

Lemma nth_error_defined {A} (l : list A) i :
  (i < List.length l)%nat -> exists x, nth_error l i = Some x.
Proof.
  intros H. destruct (nth_error l i) eqn:E; [eauto|].
  apply nth_error_None in E. lia.
Qed.


End ZScoreProofs.

(** *** Examples *)

Lemma constant_leg_hedge_ratio_witness :
  (2 <= len (aligned ramp3 flat3))%Z /\
  (forall r, In r (aligned ramp3 flat3) -> snd r = 2) /\
  calculate_hedge_ratio OLS_pinv ramp3 flat3 == 4 # 5 /\
  ~ calculate_hedge_ratio OLS_pinv ramp3 flat3 == 0.
Proof.
  assert (Hn : (2 <= len (aligned ramp3 flat3))%Z).
  { apply Z.leb_le. vm_compute. reflexivity. }
  assert (Hc : forall r, In r (aligned ramp3 flat3) ->
                         snd r = 2).
  { vm_compute. intros r [<-|[<-|[<-|[]]]]; reflexivity. }
  pose proof (@constant_leg_hedge_ratio ramp3 flat3 2
                Hn Hc) as H.
  split; [exact Hn|]. split; [exact Hc|]. split.
  - rewrite H. vm_compute. reflexivity.
  - rewrite H. intros E. vm_compute in E. discriminate E.
Defined.


(** *** A series against itself *)

Lemma sum_ext {A} (f g : A -> Q) l :
  (forall x, In x l -> f x == g x) -> sum (map f l) == sum (map g l).
Proof.
  intros H. induction l as [|x r IH]; cbn [map]; [reflexivity|].
  rewrite !sum_cons, IH, (H x); [reflexivity | now left |].
  intros y Hy. apply H. now right.
Qed.

Lemma at_label_In (s : Series) i v :
  NoDup (map fst s) -> In (i, v) s -> at_label i s = v.
Proof.
  induction s as [|[j w] r IH]; intros Hnd Hin; [destruct Hin|].
  cbn [map fst] in Hnd. inversion Hnd as [|? ? Hj Hr]; subst.
  cbn [at_label]. destruct Hin as [[= -> ->]|Hin].
  - now rewrite Z.eqb_refl.
  - destruct (Z.eqb_spec i j) as [->|_]; [|now apply IH].
    exfalso. apply Hj. apply in_map_iff. exists (j, v). now split.
Qed.

Lemma aligned_self (s : Series) :
  NoDup (map fst s) -> aligned s s = map (fun x => (x, x)) (dropna (values s)).
Proof.
  intros Hnd. unfold aligned, values.
  assert (H : forall r, In r s -> at_label (fst r) s = snd r).
  { intros [i v] Hr. now apply at_label_In. }
  assert (G : forall part : Series,
             (forall r, In r part -> at_label (fst r) s = snd r) ->
             flat_map (fun row => match snd row, at_label (fst row) s with
                                  | Some a, Some b => [(a, b)]
                                  | _, _ => []
                                  end) part =
             map (fun x => (x, x)) (dropna (map snd part))).
  { induction part as [|[i v] r IH]; intros Hp; cbn [flat_map map dropna]; [reflexivity|].
    rewrite IH by (intros x Hx; apply Hp; now right).
    pose proof (Hp (i, v) (or_introl eq_refl)) as Hi. cbn [fst snd] in *.
    rewrite Hi. now destruct v. }
  now apply G.
Qed.

(** X21.  A series against itself: with distinct labels, at least two
    numbers and not all of them equal, the hedge ratio fitted on two copies
    of the series is 1. *)
Theorem hedge_ratio_of_identical_series (s : Series) :
  NoDup (map fst s) ->
  (2 <= len (dropna (values s)))%Z ->
  ~ variance 0 (dropna (values s)) == 0 ->
  calculate_hedge_ratio OLS_pinv s s == 1.
Proof.
  intros Hnd Hn Hv.
  assert (E1 : map fst (aligned s s) = dropna (values s)).
  { rewrite aligned_self by exact Hnd. rewrite map_map. cbn [fst]. apply map_id. }
  assert (E2 : map snd (aligned s s) = dropna (values s)).
  { rewrite aligned_self by exact Hnd. rewrite map_map. cbn [snd]. apply map_id. }
  assert (Hlen : len (aligned s s) = len (dropna (values s))).
  { rewrite <- E1. unfold len. now rewrite length_map. }
  rewrite (@fitted_hedge_ratio s s 0%Z); rewrite ?E1, ?E2, ?Hlen; auto.
  unfold covariance. fold (variance 0 (dropna (values s))). field. exact Hv.
Qed.

(** *** Values of the rolling z-score *)

Lemma rolling_nth w how (s : Series) i :
  (0 <= w)%Z -> (i < List.length s)%nat ->
  exists l, rolling w how s = Ok l /\ List.length l = List.length s /\
            nth_error l i = Some (rolling_entry w how (values s) i).
Proof.
  intros Hw Hi. unfold rolling.
  replace (w <? 0)%Z with false by (symmetry; apply Z.ltb_ge; exact Hw).
  eexists. split; [reflexivity|]. split; [now rewrite length_map, length_seq|].
  rewrite nth_error_map, nth_error_seq.
  replace (i <? List.length s)%nat with true by (symmetry; now apply Nat.ltb_lt).
  reflexivity.
Qed.

(** The entry of the z-score at a position, from the entries of the rolling
    mean and standard deviation. *)
Lemma zscore_at sqrt (series : Series) window i v :
  (1 <= window <= len series)%Z ->
  nth_error (values series) i = Some v ->
  exists zscore,
    calculate_zscore sqrt series window = Ok zscore /\
    nth_error (values zscore) i =
      Some (nan_div
              (nan_sub v (rolling_entry window rolling_mean_of (values series) i))
              (match rolling_entry window (rolling_std_of sqrt) (values series) i with
               | Some sd => if Qeq_bool sd 0 then None else Some sd
               | None => None
               end)).
Proof.
  intros Hw Hv.
  assert (Hi : (i < List.length series)%nat).
  { unfold values in Hv. rewrite <- (length_map snd). apply nth_error_Some. congruence. }
  unfold calculate_zscore.
  replace (len series <? window)%Z with false by (symmetry; apply Z.ltb_ge; lia).
  replace (window <=? 0)%Z with false by (symmetry; apply Z.leb_gt; lia).
  cbn [orb].
  destruct (@rolling_nth window rolling_mean_of series i) as (means & -> & Lm & Hm);
    [lia | exact Hi |].
  destruct (@rolling_nth window (rolling_std_of sqrt) series i) as (stds & -> & Ls & Hs);
    [lia | exact Hi |].
  cbn [and_then]. eexists. split; [reflexivity|].
  rewrite with_values_values.
  - apply nth_error_map2.
    + now apply nth_error_map2.
    + now apply replace_zero_nth.
  - rewrite map2_length; rewrite ?map2_length; rewrite ?replace_zero_length;
      unfold values; rewrite ?length_map; congruence.
Qed.




Lemma In_firstn {A} n (l : list A) x : In x (firstn n l) -> In x l.
Proof.
  revert n. induction l as [|y r IH]; intros [|n]; cbn; try tauto.
  intros [H|H]; [now left | right; now apply (IH n)].
Qed.

Lemma observations_constant c l :
  (forall v, In v l -> v = Some c) ->
  exists xs, observations l = Some xs /\ forall x, In x xs -> x = c.
Proof.
  induction l as [|v r IH]; intros H; cbn.
  - exists []. split; [reflexivity | intros x []].
  - rewrite (H v) by now left.
    destruct IH as (xs & -> & Hxs); [intros y Hy; apply H; now right|].
    exists (c :: xs). split; [reflexivity|]. intros x [<-|Hx]; auto.
Qed.

Lemma sum_constant c xs : (forall x, In x xs -> x = c) -> sum xs == inject_Z (len xs) * c.
Proof.
  induction xs as [|x r IH]; intros H; [cbn; ring|].
  rewrite sum_cons, len_cons, IH, (H x); [ring | now left |].
  intros y Hy. apply H. now right.
Qed.

Lemma variance_constant c xs :
  (2 <= len xs)%Z -> (forall x, In x xs -> x = c) -> variance 1 xs == 0.
Proof.
  intros Hn Hc. pose proof (count_ge_2 _ Hn) as Hn2.
  unfold variance, co_deviation.
  assert (Hm : mean xs == c).
  { unfold mean, count. rewrite (@sum_constant c xs Hc). field. lra. }
  rewrite (@sum_ext _ _ (fun _ => 0)).
  - assert (Z0 : forall (A : Type) (l : list A), sum (map (fun _ => 0) l) == 0).
    { intros A l. induction l as [|y r IH]; [reflexivity|].
      cbn [map]. rewrite sum_cons, IH. ring. }
    rewrite Z0. unfold count. change (inject_Z 1) with 1. field. lra.
  - intros [a b] Hr. cbn [fst snd]. rewrite Hm.
    assert (a = c) by (apply Hc; eapply in_combine_l; exact Hr). subst. ring.
Qed.

(** X23.  On a series whose values are all the same number, every entry of
    the z-score is undefined and nothing is raised, for any window of at
    least 1, as soon as the square root of 0 is 0. *)
Theorem zscore_of_constant_series sqrt (labels : list Z) c window :
  (forall x, x == 0 -> sqrt x == 0) ->
  (1 <= window)%Z ->
  exists zscore,
    calculate_zscore sqrt (map (fun i => (i, Some c)) labels) window = Ok zscore /\
    List.length zscore = List.length labels /\
    forall v, In v (values zscore) -> v = None.
Proof.
  intros Hsqrt Hw. set (series := map (fun i => (i, Some c)) labels).
  assert (Hvals : forall v, In v (values series) -> v = Some c).
  { unfold values, series. rewrite map_map. cbn [snd]. intros v Hv.
    apply in_map_iff in Hv. now destruct Hv as (_ & <- & _). }
  destruct (Z_lt_le_dec (len series) window) as [Hshort|Hlong].
  - unfold calculate_zscore.
    replace (len series <? window)%Z with true by (symmetry; now apply Z.ltb_lt).
    cbn [orb]. eexists. split; [reflexivity|].
    destruct (0 <? len series)%Z eqn:E0.
    + split; [unfold series; now rewrite !length_map|].
      unfold values. rewrite map_map. cbn [snd]. intros v Hv.
      apply in_map_iff in Hv. now destruct Hv as (_ & <- & _).
    + apply Z.ltb_ge in E0. unfold len in E0.
      assert (El : List.length labels = 0%nat).
      { unfold series in E0. rewrite length_map in E0. lia. }
      split; [now rewrite El | intros v []].
  - destruct (calculate_zscore sqrt series window) as [zscore|e] eqn:Ez.
    2:{ destruct labels as [|l0 ls].
        - unfold series, len in Hlong. cbn in Hlong. lia.
        - destruct (@zscore_at sqrt series window 0 (Some c)) as (z & E & _);
            [lia | reflexivity | congruence]. }
    exists zscore. split; [reflexivity|].
    assert (Hlen : List.length (values zscore) = List.length series).
    { destruct series as [|r0 rs] eqn:Es.
      - unfold len in Hlong. cbn in Hlong. lia.
      - rewrite <- Es in *. clear Es.
        unfold calculate_zscore in Ez.
        replace (len series <? window)%Z with false in Ez by (symmetry; apply Z.ltb_ge; lia).
        replace (window <=? 0)%Z with false in Ez by (symmetry; apply Z.leb_gt; lia).
        cbn [orb] in Ez.
        destruct (@rolling_ok window rolling_mean_of series) as (means & Em & Lm & _); [lia|].
        destruct (@rolling_ok window (rolling_std_of sqrt) series) as (stds & Es & Ls & _); [lia|].
        rewrite Em, Es in Ez. cbn [and_then] in Ez. injection Ez as <-.
        rewrite with_values_values;
          rewrite map2_length; rewrite ?map2_length; rewrite ?replace_zero_length;
          unfold values; rewrite ?length_map; congruence. }
    split.
    { unfold values in Hlen. rewrite length_map in Hlen. rewrite Hlen.
      unfold series. now rewrite length_map. }
    intros v Hv. apply In_nth_error in Hv. destruct Hv as [i Hi].
    assert (Hilt : (i < List.length (values series))%nat).
    { unfold values at 1. rewrite length_map, <- Hlen. apply nth_error_Some. congruence. }
    destruct (nth_error (values series) i) as [vi|] eqn:Evi;
      [|apply nth_error_None in Evi; lia].
    destruct (@zscore_at sqrt series window i vi) as (z & E & Hz); [lia | exact Evi |].
    rewrite Ez in E. injection E as <-. rewrite Hz in Hi. injection Hi as <-.
    replace (match rolling_entry window (rolling_std_of sqrt) (values series) i with
             | Some sd => if Qeq_bool sd 0 then None else Some sd
             | None => None
             end) with (@None Q); [apply nan_div_nan|].
    unfold rolling_entry.
    destruct (Z.of_nat i + 1 <? window)%Z eqn:Epre; [reflexivity|].
    apply Z.ltb_ge in Epre.
    destruct (@observations_constant c (window_at (Z.to_nat window) i (values series)))
      as (xs & -> & Hxs).
    { intros y Hy. apply Hvals. unfold window_at in Hy.
      apply In_firstn in Hy. now apply StorageProofs.In_skipn in Hy. }
    unfold rolling_std_of. destruct (len xs <=? 1)%Z eqn:E1; [reflexivity|].
    apply Z.leb_gt in E1.
    assert (Hz0 : sqrt (variance 1 xs) == 0).
    { apply Hsqrt. apply (@variance_constant c); [lia | exact Hxs]. }
    apply Qeq_bool_iff in Hz0. now rewrite Hz0.
Qed.

(** *** Summary statistics *)

(** X24.  [calculate_price_statistics] returns the empty dictionary exactly
    when the price column holds no number.  Otherwise the count is the
    number of numbers in the column, and the minimum and the maximum are
    prices of the column between which every price of the column lies. *)
Theorem price_statistics_bounds Series_mean Series_std (column : list (option Q)) :
  (calculate_price_statistics Series_mean Series_std (Some column) = None <->
   dropna column = []) /\
  forall stats,
    calculate_price_statistics Series_mean Series_std (Some column) = Some stats ->
    n_prices stats = len (dropna column) /\
    (1 <= n_prices stats)%Z /\
    exists lo hi,
      min_price stats = Some lo /\ max_price stats = Some hi /\
      In lo (dropna column) /\ In hi (dropna column) /\
      forall p, In p (dropna column) -> lo <= p /\ p <= hi.
Proof.
  unfold calculate_price_statistics.
  destruct column as [|v0 col] eqn:Ecol; cbn [is_empty].
  { split; [split; reflexivity | discriminate]. }
  rewrite <- Ecol. clear Ecol v0 col.
  destruct (dropna column) as [|p prices] eqn:Ep.
  { cbn. split; [split; reflexivity | discriminate]. }
  replace (len (p :: prices) =? 0)%Z with false
    by (symmetry; apply Z.eqb_neq; unfold len; cbn; lia).
  split; [split; discriminate|].
  intros stats [= <-]. cbn [n_prices min_price max_price].
  split; [reflexivity|]. split; [unfold len; cbn; lia|].
  destruct (StorageProofs.fold_Qmin prices p) as [Hlo_in Hlo].
  destruct (StorageProofs.fold_Qmax prices p) as [Hhi_in Hhi].
  eexists _, _.
  split; [reflexivity|]. split; [reflexivity|].
  split; [exact Hlo_in|]. split; [exact Hhi_in|].
  intros x Hx. split; auto.
Qed.

(** *** Rolling correlation *)

Lemma is_unique_NoDup labels : NoDup labels -> is_unique labels = true.
Proof.
  induction 1 as [|i rest Hi Hnd IH]; cbn [is_unique]; [reflexivity|].
  rewrite IH, andb_true_r. apply negb_true_iff.
  destruct (existsb (Z.eqb i) rest) eqn:E; [|reflexivity].
  apply existsb_exists in E. destruct E as (j & Hj & Eij).
  apply Z.eqb_eq in Eij. subst. contradiction.
Qed.

Lemma index_equals_eq a b : index_equals a b = true -> a = b.
Proof.
  revert b. induction a as [|i a IH]; intros [|j b] H; cbn in H; try discriminate;
    [reflexivity|].
  apply andb_true_iff in H. destruct H as [E H]. apply Z.eqb_eq in E.
  f_equal; [exact E | now apply IH].
Qed.

Lemma insert_label_In i sorted x :
  In x (insert_label i sorted) <-> x = i \/ In x sorted.
Proof.
  induction sorted as [|j rest IH]; cbn [insert_label].
  - cbn. intuition.
  - destruct (i <? j)%Z; [cbn; intuition|].
    destruct (Z.eqb_spec i j) as [->|_]; [cbn; intuition|].
    cbn [In]. rewrite IH. intuition.
Qed.

Lemma union_indexes_In a b x : In x (union_indexes a b) <-> In x a \/ In x b.
Proof.
  unfold union_indexes. rewrite <- in_app_iff.
  induction (a ++ b) as [|i l IH]; cbn [fold_right]; [reflexivity|].
  rewrite insert_label_In, IH. cbn. intuition.
Qed.

Lemma dropna_rows_In rows i a b :
  In (i, (a, b)) (dropna_rows rows) <-> In (i, (Some a, Some b)) rows.
Proof.
  unfold dropna_rows. rewrite in_flat_map. split.
  - intros ([j [[x|] [y|]]] & Hr & H); cbn in H; try contradiction.
    destruct H as [[= -> -> ->]|[]]. exact Hr.
  - intros H. exists (i, (Some a, Some b)). split; [exact H | now left].
Qed.

Lemma at_label_Some (s : Series) i a : at_label i s = Some a -> In (i, Some a) s.
Proof.
  induction s as [|[j v] r IH]; cbn [at_label]; [discriminate|].
  destruct (Z.eqb_spec i j) as [->|_]; intros H.
  - subst. now left.
  - right. now apply IH.
Qed.

(** Two columns on one index of distinct labels, side by side. *)
Lemma side_by_side (asset1 asset2 : Series) i va vb :
  index asset1 = index asset2 -> NoDup (index asset1) ->
  (In (i, (va, vb)) (map2 (fun r1 r2 => (fst r1, (snd r1, snd r2))) asset1 asset2) <->
   In (i, va) asset1 /\ In (i, vb) asset2).
Proof.
  unfold index. revert asset2.
  induction asset1 as [|[j v] r1 IH]; intros [|[j' w] r2] E Hnd;
    cbn [map fst] in E; try discriminate.
  - cbn. tauto.
  - injection E as <- E. cbn [map fst] in Hnd.
    inversion Hnd as [|? ? Hj Hr]; subst.
    cbn [map2 fst snd In]. rewrite (IH r2 E Hr).
    assert (H1 : forall x, In (j, x) r1 -> False).
    { intros x Hx. apply Hj. apply in_map_iff. exists (j, x). now split. }
    assert (H2 : forall x, In (j, x) r2 -> False).
    { intros x Hx. apply Hj. rewrite E.
      apply in_map_iff. exists (j, x). now split. }
    split.
    + intros [[= -> -> ->]|[Ha Hb]]; [split; now left | split; now right].
    + intros [[Ea|Ha] [Eb|Hb]].
      * left. congruence.
      * inversion Ea; subst. exfalso. eapply H2. exact Hb.
      * inversion Eb; subst. exfalso. eapply H1. exact Ha.
      * right. now split.
Qed.

(** With distinct labels in each series the frame is built without error,
    and it has one row for each label on which both series hold a number. *)
Lemma aligned_rows_ok asset1 asset2 :
  NoDup (index asset1) -> NoDup (index asset2) ->
  exists rows,
    aligned_rows asset1 asset2 = Ok rows /\
    forall i a b, In (i, (a, b)) rows <->
                  In (i, Some a) asset1 /\ In (i, Some b) asset2.
Proof.
  intros H1 H2. unfold aligned_rows.
  destruct (index_equals (index asset1) (index asset2)) eqn:E.
  - apply index_equals_eq in E. eexists. split; [reflexivity|].
    intros i a b. rewrite dropna_rows_In. now apply side_by_side.
  - rewrite (is_unique_NoDup H1), (is_unique_NoDup H2). cbn [andb].
    eexists. split; [reflexivity|].
    intros i a b. rewrite dropna_rows_In, in_map_iff. split.
    + intros (j & [= -> Ea Eb] & _). split; now apply at_label_Some.
    + intros [Ha Hb]. exists i. split.
      * now rewrite (@at_label_In asset1 i (Some a) H1 Ha),
                    (@at_label_In asset2 i (Some b) H2 Hb).
      * apply union_indexes_In. left. apply in_map_iff. exists (i, Some a). now split.
Qed.

(** *** The two alignments *)

Lemma insert_label_sorted i sorted :
  StronglySorted Z.lt sorted -> StronglySorted Z.lt (insert_label i sorted).
Proof.
  induction 1 as [|j rest Hs IH Hj]; cbn [insert_label]; [repeat constructor|].
  destruct (Z.ltb_spec i j) as [Hlt|Hge].
  - constructor; [now constructor|]. constructor; [exact Hlt|].
    eapply Forall_impl; [|exact Hj]. intros x Hx. cbn in Hx. lia.
  - destruct (Z.eqb_spec i j) as [->|Hne]; [now constructor|].
    constructor; [exact IH|]. apply Forall_forall. intros x Hx.
    apply insert_label_In in Hx. destruct Hx as [->|Hx]; [lia|].
    rewrite Forall_forall in Hj. now apply Hj.
Qed.

Lemma union_indexes_sorted a b : StronglySorted Z.lt (union_indexes a b).
Proof.
  unfold union_indexes. induction (a ++ b) as [|i l IH]; cbn [fold_right];
    [constructor | now apply insert_label_sorted].
Qed.

Lemma sorted_NoDup l : StronglySorted Z.lt l -> NoDup l.
Proof.
  induction 1 as [|j rest Hs IH Hj]; constructor; [|exact IH].
  intros Hin. rewrite Forall_forall in Hj. specialize (Hj j Hin). lia.
Qed.

Lemma dropna_rows_index rows :
  NoDup (map fst rows) -> NoDup (map fst (dropna_rows rows)).
Proof.
  unfold dropna_rows. induction rows as [|[i [[a|] [b|]]] rows IH]; intros H;
    cbn [flat_map map fst snd app] in *; inversion H as [|? ? Hi Hr]; subst;
    try (now apply IH); [constructor|].
  constructor; [|now apply IH].
  intros Hin. apply Hi. apply in_map_iff in Hin. destruct Hin as ([j [x y]] & <- & Hin).
  apply dropna_rows_In in Hin. apply in_map_iff. exists (j, (Some x, Some y)). now split.
Qed.

Lemma side_by_side_index (asset1 asset2 : Series) :
  index asset1 = index asset2 ->
  map fst (map2 (fun r1 r2 => (fst r1, (snd r1, snd r2))) asset1 asset2) = index asset1.
Proof.
  unfold index. revert asset2.
  induction asset1 as [|[j v] r1 IH]; intros [|[j' w] r2] E; cbn in *;
    try discriminate; [reflexivity|].
  injection E as <- E. f_equal. now apply IH.
Qed.

(** The labels of the aligned frame are distinct; they increase when the
    two indexes are not equal. *)
Lemma aligned_rows_index asset1 asset2 rows :
  NoDup (index asset1) ->
  aligned_rows asset1 asset2 = Ok rows ->
  NoDup (map fst rows) /\
  (index_equals (index asset1) (index asset2) = false ->
   StronglySorted Z.lt (map fst rows)).
Proof.
  intros H1. unfold aligned_rows.
  destruct (index_equals (index asset1) (index asset2)) eqn:E.
  - intros [= <-]. split; [|discriminate]. apply dropna_rows_index.
    rewrite side_by_side_index by now apply index_equals_eq. exact H1.
  - destruct (is_unique (index asset1) && is_unique (index asset2)); [|discriminate].
    intros [= <-].
    set (U := union_indexes (index asset1) (index asset2)).
    assert (Hm : forall l : list Z,
               StronglySorted Z.lt l ->
               StronglySorted Z.lt
                 (map fst (dropna_rows
                    (map (fun i => (i, (at_label i asset1, at_label i asset2))) l)))).
    { induction 1 as [|j rest Hs IH Hj]; [constructor|].
      cbn [map dropna_rows flat_map fst snd].
      fold (dropna_rows (map (fun i => (i, (at_label i asset1, at_label i asset2))) rest)).
      destruct (at_label j asset1), (at_label j asset2); cbn [app map fst]; try exact IH.
      constructor; [exact IH|]. apply Forall_forall. intros x Hx.
      apply in_map_iff in Hx. destruct Hx as ([k [a b]] & <- & Hx).
      apply dropna_rows_In, in_map_iff in Hx. destruct Hx as (k' & [= -> _ _] & Hk).
      rewrite Forall_forall in Hj. now apply Hj. }
    pose proof (Hm U (union_indexes_sorted _ _)) as Hs.
    split; [now apply sorted_NoDup | intros _; exact Hs].
Qed.

(** On series of distinct labels the rows [calculate_hedge_ratio] fits are
    the rows of the aligned frame, up to their order. *)
Lemma aligned_agrees asset1 asset2 :
  NoDup (index asset1) -> NoDup (index asset2) ->
  exists rows,
    aligned_rows asset1 asset2 = Ok rows /\
    Permutation (map snd rows) (aligned asset1 asset2).
Proof.
  intros H1 H2.
  destruct (@aligned_rows_ok asset1 asset2 H1 H2) as (rows & E & Hrows).
  exists rows. split; [exact E|].
  destruct (@aligned_rows_index asset1 asset2 rows H1 E) as [Hnd _].
  set (labelled := flat_map
         (fun row => match snd row, at_label (fst row) asset2 with
                     | Some a, Some b => [(fst row, (a, b))]
                     | _, _ => []
                     end) asset1).
  assert (Ea : map snd labelled = aligned asset1 asset2).
  { unfold labelled, aligned. clear. induction asset1 as [|[i v] r IH]; cbn; [reflexivity|].
    rewrite map_app, IH. destruct v as [a|]; [|reflexivity].
    now destruct (at_label i asset2). }
  assert (Hin : forall i a b, In (i, (a, b)) labelled <->
                              In (i, Some a) asset1 /\ In (i, Some b) asset2).
  { intros i a b. unfold labelled. rewrite in_flat_map. split.
    - intros ([j [x|]] & Hr & H); cbn [fst snd] in H; [|destruct H].
      destruct (at_label j asset2) as [y|] eqn:Ey; [|destruct H].
      destruct H as [[= -> -> ->]|[]]. split; [exact Hr | now apply at_label_Some].
    - intros [Ha Hb]. exists (i, Some a). split; [exact Ha|]. cbn [fst snd].
      rewrite (@at_label_In asset2 i (Some b) H2 Hb). now left. }
  assert (Hl : NoDup (map fst labelled)).
  { unfold labelled. clear - H1. unfold index in H1.
    induction asset1 as [|[i v] r IH]; cbn [flat_map map fst snd]; [constructor|].
    inversion H1 as [|? ? Hi Hr]; subst.
    assert (Hsub : forall x, In x (map fst (flat_map
                     (fun row => match snd row, at_label (fst row) asset2 with
                                 | Some a, Some b => [(fst row, (a, b))]
                                 | _, _ => []
                                 end) r)) -> In x (map fst r)).
    { intros x Hx. apply in_map_iff in Hx. destruct Hx as ([j ab] & <- & Hx).
      apply in_flat_map in Hx. destruct Hx as ([k w] & Hk & Hx). cbn [fst snd] in Hx.
      destruct w; [|destruct Hx]. destruct (at_label k asset2); [|destruct Hx].
      destruct Hx as [[= -> _]|[]]. apply in_map_iff. exists (j, Some q). now split. }
    destruct v as [a|]; [|now apply IH].
    destruct (at_label i asset2); [|now apply IH].
    cbn [app map fst]. constructor; [|now apply IH].
    intros Hx. apply Hi. now apply Hsub. }
  rewrite <- Ea. apply Permutation_map. apply NoDup_Permutation.
  - eapply NoDup_map_inv. exact Hnd.
  - eapply NoDup_map_inv. exact Hl.
  - intros [i [a b]]. now rewrite Hrows, Hin.
Qed.

(** X25.  On two series of distinct labels [calculate_correlation] does not
    raise, whatever the window.  It returns one entry for each row of the
    aligned frame, that is for each label on which both series hold a
    number, under that label; the labels increase when the two indexes are
    not equal.  Every entry is undefined when the window is not positive or
    exceeds the number of those rows; otherwise the entries before position
    [window - 1] are undefined. *)
Theorem calculate_correlation_undefined corr_of asset1 asset2 window :
  NoDup (index asset1) -> NoDup (index asset2) ->
  exists rows correlation,
    aligned_rows asset1 asset2 = Ok rows /\
    (forall i a b, In (i, (a, b)) rows <->
                   In (i, Some a) asset1 /\ In (i, Some b) asset2) /\
    calculate_correlation corr_of asset1 asset2 window = Ok correlation /\
    index correlation = map fst rows /\
    (index_equals (index asset1) (index asset2) = false ->
     StronglySorted Z.lt (index correlation)) /\
    ((window <= 0 \/ len rows < window)%Z ->
     forall v, In v (values correlation) -> v = None) /\
    forall i, (i < List.length correlation)%nat -> (Z.of_nat i < window - 1)%Z ->
              nth_error (values correlation) i = Some None.
Proof.
  intros Hn1 Hn2.
  destruct (@aligned_rows_ok asset1 asset2 Hn1 Hn2) as (df & Hdf & Hrows).
  destruct (@aligned_rows_index asset1 asset2 df Hn1 Hdf) as [_ Hsorted].
  exists df. unfold calculate_correlation. rewrite Hdf. cbn [and_then].
  destruct ((len df <? window)%Z || (window <=? 0)%Z) eqn:Eg.
  - eexists. split; [reflexivity|]. split; [exact Hrows|]. split; [reflexivity|].
    assert (Hall : forall rows : list (Z * (Q * Q)),
               index (map (fun r => (fst r, @None Q)) rows) = map fst rows /\
               forall v, In v (values (map (fun r => (fst r, @None Q)) rows)) -> v = None).
    { intros rows. split; [unfold index; now rewrite map_map|].
      unfold values. rewrite map_map. cbn [snd]. intros v Hv.
      apply in_map_iff in Hv. now destruct Hv as (_ & <- & _). }
    destruct (0 <? len df)%Z eqn:E0.
    + destruct (Hall df) as [H1 H2]. split; [exact H1|].
      split; [rewrite H1; exact Hsorted|]. split; [intros _; exact H2|].
      intros i Hi _. destruct (@nth_error_defined _ (values (map (fun r => (fst r, @None Q)) df)) i)
        as [v Hv]; [unfold values; now rewrite length_map|].
      rewrite Hv. f_equal. apply H2. eapply nth_error_In. exact Hv.
    + apply Z.ltb_ge in E0. destruct df; [|unfold len in E0; cbn in E0; lia].
      cbn. split; [reflexivity|]. split; [intros _; constructor|].
      split; [intros _ v []|]. intros i Hi. inversion Hi.
  - apply orb_false_iff in Eg. destruct Eg as [E1 E2].
    apply Z.ltb_ge in E1. apply Z.leb_gt in E2.
    unfold rolling_corr.
    replace (window <? 0)%Z with false by (symmetry; apply Z.ltb_ge; lia).
    cbn [and_then]. eexists. split; [reflexivity|]. split; [exact Hrows|].
    split; [reflexivity|].
    set (entries := map _ (seq 0 (List.length df))).
    assert (Le : List.length entries = List.length df)
      by (unfold entries; now rewrite length_map, length_seq).
    assert (Hfst : forall (rows : list (Z * (Q * Q))) (vs : list (option Q)),
               List.length vs = List.length rows ->
               index (map2 (fun r v => (fst r, v)) rows vs) = map fst rows /\
               values (map2 (fun r v => (fst r, v)) rows vs) = vs).
    { unfold index. induction rows as [|r rows IH]; intros [|v vs]; cbn; try discriminate; auto.
      intros [= H]. destruct (IH vs H) as [I1 I2]. unfold values in *.
      now rewrite I1, I2. }
    destruct (Hfst df entries Le) as [H1 H2].
    split; [exact H1|]. split; [rewrite H1; exact Hsorted|].
    rewrite H2. split; [intros [H|H]; lia|].
    intros i Hi Hpre. rewrite map2_length in Hi by (symmetry; exact Le).
    unfold entries. rewrite nth_error_map, nth_error_seq.
    replace (i <? List.length df)%nat with true by (symmetry; now apply Nat.ltb_lt).
    cbn [option_map Nat.add].
    replace (Z.of_nat i + 1 <? window)%Z with true by (symmetry; apply Z.ltb_lt; lia).
    reflexivity.
Qed.

(** *** More examples *)

Lemma hedge_ratio_of_identical_series_witness :
  NoDup (map fst ramp3) /\
  (2 <= len (dropna (values ramp3)))%Z /\
  ~ variance 0 (dropna (values ramp3)) == 0 /\
  calculate_hedge_ratio OLS_pinv ramp3 ramp3 == 1.
Proof.
  assert (H1 : NoDup (map fst ramp3)).
  { vm_compute.
    repeat (constructor;
            [intros H; repeat (destruct H as [H|H]; [discriminate H|]); exact H|]).
    constructor. }
  assert (H2 : (2 <= len (dropna (values ramp3)))%Z).
  { apply Z.leb_le. vm_compute. reflexivity. }
  assert (H3 : ~ variance 0 (dropna (values ramp3)) == 0).
  { vm_compute. discriminate. }
  split; [exact H1|]. split; [exact H2|]. split; [exact H3|].
  exact (@hedge_ratio_of_identical_series ramp3 H1 H2 H3).
Defined.

Lemma calculate_correlation_undefined_witness :
  NoDup (index ramp3) /\ NoDup (index later) /\
  aligned_rows ramp3 later = Ok [(1%Z, (2, 4)); (2%Z, (3, 5))] /\
  calculate_correlation (fun _ => Some 1) ramp3 later 2 =
    Ok [(1%Z, None); (2%Z, Some 1)] /\
  exists rows correlation,
    aligned_rows ramp3 later = Ok rows /\
    (forall i a b, In (i, (a, b)) rows <->
                   In (i, Some a) ramp3 /\ In (i, Some b) later) /\
    calculate_correlation (fun _ => Some 1) ramp3 later 2 = Ok correlation /\
    index correlation = map fst rows /\
    (index_equals (index ramp3) (index later) = false ->
     StronglySorted Z.lt (index correlation)) /\
    ((2 <= 0 \/ len rows < 2)%Z ->
     forall v, In v (values correlation) -> v = None) /\
    forall i, (i < List.length correlation)%nat -> (Z.of_nat i < 2 - 1)%Z ->
              nth_error (values correlation) i = Some None.
Proof.
  assert (Hd : forall l : list Z, is_unique l = true -> NoDup l).
  { induction l as [|i l IH]; cbn [is_unique]; intros H; [constructor|].
    apply andb_true_iff in H. destruct H as [Hi Hl]. constructor; [|now apply IH].
    intros Hin. apply negb_true_iff in Hi.
    assert (E : existsb (Z.eqb i) l = true).
    { apply existsb_exists. exists i. split; [exact Hin | apply Z.eqb_refl]. }
    rewrite E in Hi. discriminate Hi. }
  assert (H1 : NoDup (index ramp3)) by (apply Hd; vm_compute; reflexivity).
  assert (H2 : NoDup (index later)) by (apply Hd; vm_compute; reflexivity).
  split; [exact H1|]. split; [exact H2|].
  split; [vm_compute; reflexivity|]. split; [vm_compute; reflexivity|].
  exact (@calculate_correlation_undefined (fun _ => Some 1) ramp3 later 2 H1 H2).
Defined.


Lemma zscore_of_constant_series_witness :
  (forall x : Q, x == 0 -> x == 0) /\
  (1 <= 2)%Z /\
  exists zscore,
    calculate_zscore (fun x => x) level 2 = Ok zscore /\
    List.length zscore = List.length [0%Z; 1%Z; 2%Z] /\
    forall v, In v (values zscore) -> v = None.
Proof.
  split; [intros x H; exact H|]. split; [lia|].
  apply (@zscore_of_constant_series (fun x => x) [0%Z; 1%Z; 2%Z] 5 2); [|lia].
  intros x H. exact H.
Defined.

End AnalyticsProofs.
